(** * Page migration engine of mm/migrate.c: a shallow embedding

    The development follows the source file mm/migrate.c.  Each Module embeds
    one group of functions:
    - [Swap]    : expected_page_refs, migrate_page_move_mapping,
                  migrate_huge_page_move_mapping (identity swap);
    - [Copy]    : __copy_gigantic_page, copy_huge_page, migrate_page_copy
                  (content transfer and its copy strategies);
    - [Engine]  : __unmap_and_move, unmap_and_move, unmap_and_move_huge_page,
                  migrate_pages and migrate_pages_concur (batched engines);
    - [Syscall] : do_pages_move (bulk relocation entry point);
    - [Vma]     : migrate_vma_check_page and migrate_vma_prepare.

    Kernel errno values are the usual Linux ones. *)

From Stdlib Require Import ZArith List Bool Lia.
From stdpp Require Import base gmap.
Import ListNotations.
Open Scope Z_scope.

(** Linux errno values used by the file. *)
Definition MIGRATEPAGE_SUCCESS : Z := 0.
Definition ENOENT : Z := 2.
Definition EAGAIN : Z := 11.
Definition ENOMEM : Z := 12.
Definition EACCES : Z := 13.
Definition EFAULT : Z := 14.
Definition EBUSY : Z := 16.
Definition ENODEV : Z := 19.
Definition ENOSYS : Z := 38.

(** HPAGE_PMD_NR on x86-64: 512 base pages per PMD-mapped THP. *)
Definition HPAGE_PMD_NR : Z := 512.

(* ------------------------------------------------------------------------ *)
(** ** Identity swap *)
Module Swap.

(** The fields of [struct page] read or written by the identity swap. *)
Record page := mkPage {
  pg_id : nat;               (** identity of the struct page (its address) *)
  pg_count : Z;              (** page_count(page) *)
  pg_index : Z;              (** page->index, also page_index(page) *)
  pg_mapping : nat;          (** page->mapping as a raw pointer value *)
  pg_private : Z;            (** page_private(page) *)
  pg_swapbacked : bool;      (** PageSwapBacked *)
  pg_swapcache : bool;       (** PageSwapCache *)
  pg_has_private : bool;     (** page_has_private *)
  pg_dirty : bool;           (** PageDirty *)
  pg_device_private : bool;  (** is_device_private_page *)
  pg_transhuge : bool        (** PageTransHuge *)
}.

(** The page cache of an address_space: mapping->i_pages, an xarray from
    offsets to the page stored there. *)
Record address_space := mkAS {
  i_pages : gmap Z nat
}.

Definition hpage_nr_pages (p : page) : Z :=
  if pg_transhuge p then HPAGE_PMD_NR else 1.

(** expected_page_refs *)
Definition expected_page_refs (mapping : option address_space) (p : page) : Z :=
  1 + Z.b2z (pg_device_private p) +
  match mapping with
  | Some _ => hpage_nr_pages p + Z.b2z (pg_has_private p)
  | None => 0
  end.

Definition set_count (p : page) (c : Z) : page :=
  mkPage (pg_id p) c (pg_index p) (pg_mapping p) (pg_private p)
    (pg_swapbacked p) (pg_swapcache p) (pg_has_private p) (pg_dirty p)
    (pg_device_private p) (pg_transhuge p).

(** The identity copy done while "no turning back" holds:
    newpage->index, newpage->mapping and __SetPageSwapBacked. *)
Definition copy_identity (newpage p : page) : page :=
  mkPage (pg_id newpage) (pg_count newpage) (pg_index p) (pg_mapping p)
    (pg_private newpage) (pg_swapbacked newpage || pg_swapbacked p)
    (pg_swapcache newpage) (pg_has_private newpage) (pg_dirty newpage)
    (pg_device_private newpage) (pg_transhuge newpage).

(** xas_store of [newpage] at the page's index and, for a THP, at the
    following HPAGE_PMD_NR - 1 offsets (the xas_next loop). *)
Fixpoint store_run (slots : gmap Z nat) (idx : Z) (n : nat) (id : nat)
  : gmap Z nat :=
  match n with
  | O => slots
  | S n' => store_run (<[idx := id]> slots) (idx + 1) n' id
  end.

Definition store_slots (p : page) (slots : gmap Z nat) (id : nat) : gmap Z nat :=
  store_run slots (pg_index p)
    (if pg_transhuge p then Z.to_nat HPAGE_PMD_NR else 1%nat) id.

(** Result of migrate_page_move_mapping: return code, new page, old page
    and the page cache. *)
Record mpm_result := mkRes {
  r_rc : Z;
  r_newpage : page;
  r_page : page;
  r_mapping : option address_space
}.

(** migrate_page_move_mapping.  Between the check under the xa lock and the
    page_ref_freeze cmpxchg a speculative reference holder
    (get_page_unless_zero) may change the count; [ext] is that change.
    page_ref_freeze(page, c) is atomic_cmpxchg(&count, c, 0) == c. *)
Definition migrate_page_move_mapping (mapping : option address_space)
    (newpage p : page) (extra_count : Z) (ext : Z) : mpm_result :=
  let expected_count := expected_page_refs mapping p + extra_count in
  match mapping with
  | None =>
      (* Anonymous page without mapping *)
      if negb (pg_count p =? expected_count) then
        mkRes (- EAGAIN) newpage p mapping
      else mkRes MIGRATEPAGE_SUCCESS (copy_identity newpage p) p mapping
  | Some m =>
      if negb (pg_count p =? expected_count)
         || negb (bool_decide (i_pages m !! pg_index p = Some (pg_id p))) then
        mkRes (- EAGAIN) newpage p mapping
      else
        let p1 := set_count p (pg_count p + ext) in
        if negb (pg_count p1 =? expected_count) then
          (* page_ref_freeze failed: the count is left as found *)
          mkRes (- EAGAIN) newpage p1 mapping
        else
          (* frozen: count is 0 until the unfreeze below *)
          let n0 := copy_identity newpage p in
          let n1 := set_count n0 (pg_count n0 + hpage_nr_pages p) in
          let n2 :=
            if pg_swapbacked p && pg_swapcache p then
              mkPage (pg_id n1) (pg_count n1) (pg_index n1) (pg_mapping n1)
                (pg_private p) (pg_swapbacked n1) true (pg_has_private n1)
                (pg_dirty n1) (pg_device_private n1) (pg_transhuge n1)
            else n1 in
          let dirty := pg_dirty p in
          let n3 :=
            if dirty then
              mkPage (pg_id n2) (pg_count n2) (pg_index n2) (pg_mapping n2)
                (pg_private n2) (pg_swapbacked n2) (pg_swapcache n2)
                (pg_has_private n2) true (pg_device_private n2)
                (pg_transhuge n2)
            else n2 in
          let p2 :=
            mkPage (pg_id p1) (pg_count p1) (pg_index p1) (pg_mapping p1)
              (pg_private p1) (pg_swapbacked p1) (pg_swapcache p1)
              (pg_has_private p1) false (pg_device_private p1)
              (pg_transhuge p1) in
          let slots := store_slots p (i_pages m) (pg_id newpage) in
          (* page_ref_unfreeze(page, expected_count - hpage_nr_pages(page)) *)
          let p3 := set_count p2 (expected_count - hpage_nr_pages p) in
          mkRes MIGRATEPAGE_SUCCESS n3 p3 (Some (mkAS slots))
  end.

(** migrate_huge_page_move_mapping (hugetlbfs pages). *)
Definition migrate_huge_page_move_mapping (m : address_space)
    (newpage p : page) (ext : Z) : Z * page * page * address_space :=
  let expected_count := 2 + Z.b2z (pg_has_private p) in
  if negb (pg_count p =? expected_count)
     || negb (bool_decide (i_pages m !! pg_index p = Some (pg_id p))) then
    (- EAGAIN, newpage, p, m)
  else
    let p1 := set_count p (pg_count p + ext) in
    if negb (pg_count p1 =? expected_count) then (- EAGAIN, newpage, p1, m)
    else
      let n0 := mkPage (pg_id newpage) (pg_count newpage + 1) (pg_index p)
                  (pg_mapping p) (pg_private newpage) (pg_swapbacked newpage)
                  (pg_swapcache newpage) (pg_has_private newpage)
                  (pg_dirty newpage) (pg_device_private newpage)
                  (pg_transhuge newpage) in
      (MIGRATEPAGE_SUCCESS, n0, set_count p1 (expected_count - 1),
       mkAS (<[pg_index p := pg_id newpage]> (i_pages m))).

End Swap.

(* ------------------------------------------------------------------------ *)
(** ** Migration modes (enum migrate_mode of this kernel)

    [mode & MIGRATE_MODE_MASK] selects one of the four base modes; the
    MIGRATE_MT and MIGRATE_DMA bits select the copy strategy.  The record keeps
    the three parts apart, so no bit value is fixed here. *)
Inductive base_mode := MIGRATE_ASYNC | MIGRATE_SYNC_LIGHT | MIGRATE_SYNC
                     | MIGRATE_SYNC_NO_COPY.

Record migrate_mode := mkMode {
  m_base : base_mode;   (** mode & MIGRATE_MODE_MASK *)
  m_mt : bool;          (** mode & MIGRATE_MT *)
  m_dma : bool          (** mode & MIGRATE_DMA *)
}.

Definition base_mode_eqb (a b : base_mode) : bool :=
  match a, b with
  | MIGRATE_ASYNC, MIGRATE_ASYNC | MIGRATE_SYNC_LIGHT, MIGRATE_SYNC_LIGHT
  | MIGRATE_SYNC, MIGRATE_SYNC | MIGRATE_SYNC_NO_COPY, MIGRATE_SYNC_NO_COPY => true
  | _, _ => false
  end.

(** mode |= MIGRATE_MT *)
Definition set_mt (m : migrate_mode) : migrate_mode := mkMode (m_base m) true (m_dma m).

(* ------------------------------------------------------------------------ *)
(** ** Content transfer *)
Module Copy.

(** Physical memory: the content of each page frame, by pfn.  The struct page
    pointer arithmetic [dst + i] and mem_map_next(dst, base, i) both name the
    frame [dst + i]. *)
Definition memory := nat -> Z.

(** The calls the copy code makes, in order, with the offload return code. *)
Inductive event :=
  | Ev_mt (dst src n : nat) (rc : Z)     (** copy_page_multithread *)
  | Ev_dma (dst src n : nat) (rc : Z)    (** copy_page_dma *)
  | Ev_highpage (dst src : nat).         (** copy_highpage *)

Record cstate := mkCState { c_mem : memory; c_log : list event }.

(** The offload copy routines are outside mm/migrate.c: any implementation,
    returning an rc and the memory it leaves. *)
Record offload := mkOffload {
  copy_page_multithread : nat -> nat -> nat -> memory -> Z * memory;
  copy_page_dma : nat -> nat -> nat -> memory -> Z * memory
}.

(** The two globals read by copy_huge_page. *)
Record globals := mkGlobals {
  accel_page_copy : Z;
  sysctl_enable_page_migration_optimization_avoid_remote_pmem_write : Z
}.

(** Their initial values: int accel_page_copy = 1; sysctl ... = 0. *)
Definition initial_globals : globals := mkGlobals 1 0.

(** The page attributes the copy code reads. *)
Record cpage := mkCPage {
  cp_pfn : nat;
  cp_huge : bool;          (** PageHuge (hugetlbfs) *)
  cp_transhuge : bool;     (** PageTransHuge *)
  cp_huge_nr : nat         (** pages_per_huge_page(page_hstate(page)) *)
}.

Definition MAX_ORDER_NR_PAGES : nat := 1024.
Definition HPAGE_NR : nat := 512.

(** hpage_nr_pages *)
Definition hpage_nr_pages (p : cpage) : nat :=
  if cp_transhuge p then HPAGE_NR else 1.

Definition copy_highpage (dst src : nat) (st : cstate) : cstate :=
  mkCState (fun q => if Nat.eqb q dst then c_mem st src else c_mem st q)
           (c_log st ++ [Ev_highpage dst src]).

Definition call_mt (o : offload) (dst src n : nat) (st : cstate) : Z * cstate :=
  let '(rc, m') := copy_page_multithread o dst src n (c_mem st) in
  (rc, mkCState m' (c_log st ++ [Ev_mt dst src n rc])).

Definition call_dma (o : offload) (dst src n : nat) (st : cstate) : Z * cstate :=
  let '(rc, m') := copy_page_dma o dst src n (c_mem st) in
  (rc, mkCState m' (c_log st ++ [Ev_dma dst src n rc])).

(** for (i = 0; i < n; i++) copy_highpage(dst + i, src + i); *)
Fixpoint copy_loop (dst src n : nat) (st : cstate) : cstate :=
  match n with
  | O => st
  | S n' => copy_loop (S dst) (S src) n' (copy_highpage dst src st)
  end.

(** The loop of __copy_gigantic_page; [rc] carries over between iterations. *)
Fixpoint gigantic_loop (o : offload) (mode : migrate_mode) (dst src n : nat)
    (rc : Z) (st : cstate) : cstate :=
  match n with
  | O => st
  | S n' =>
      let '(rc1, st1) := if m_dma mode then call_dma o dst src 1 st else (rc, st) in
      let st2 := if negb (rc1 =? 0) then copy_highpage dst src st1 else st1 in
      gigantic_loop o mode (S dst) (S src) n' rc1 st2
  end.

(** __copy_gigantic_page *)
Definition __copy_gigantic_page (o : offload) (dst src : nat) (nr_pages : nat)
    (mode : migrate_mode) (st : cstate) : cstate :=
  gigantic_loop o mode dst src nr_pages (- EFAULT) st.

(** copy_huge_page *)
Definition copy_huge_page (g : globals) (o : offload) (dst src : cpage)
    (mode : migrate_mode) (st : cstate) : cstate :=
  if cp_huge src && Nat.ltb MAX_ORDER_NR_PAGES (cp_huge_nr src) then
    __copy_gigantic_page o (cp_pfn dst) (cp_pfn src) (cp_huge_nr src) mode st
  else
    let nr_pages := if cp_huge src then cp_huge_nr src else hpage_nr_pages src in
    let mode' :=
      if negb (accel_page_copy g =? 0)
         || (sysctl_enable_page_migration_optimization_avoid_remote_pmem_write g =? 1)
      then set_mt mode else mode in
    let '(rc, st1) :=
      if m_mt mode' then call_mt o (cp_pfn dst) (cp_pfn src) nr_pages st
      else if m_dma mode' then call_dma o (cp_pfn dst) (cp_pfn src) nr_pages st
      else (- EFAULT, st) in
    if negb (rc =? 0) then copy_loop (cp_pfn dst) (cp_pfn src) nr_pages st1
    else st1.

(** migrate_page_copy, up to the call of migrate_page_states (the flag
    transfer, which does not touch page contents). *)
Definition migrate_page_copy (g : globals) (o : offload) (newpage p : cpage)
    (mode : migrate_mode) (st : cstate) : cstate :=
  if cp_huge p || cp_transhuge p then copy_huge_page g o newpage p mode st
  else
    let '(rc, st1) :=
      if m_dma mode then call_dma o (cp_pfn newpage) (cp_pfn p) 1 st
      else if m_mt mode then call_mt o (cp_pfn newpage) (cp_pfn p) 1 st
      else (- EFAULT, st) in
    if negb (rc =? 0) then copy_highpage (cp_pfn newpage) (cp_pfn p) st1 else st1.

(** Number of frames migrate_page_copy transfers for a page. *)
Definition nr_copied (p : cpage) : nat :=
  if cp_huge p then cp_huge_nr p else hpage_nr_pages p.

End Copy.

(* ------------------------------------------------------------------------ *)
(** ** Batched migration engines *)
Module Engine.

(** The page attributes the engines test. *)
Record epage := mkEPage {
  e_id : nat;              (** identity of the struct page *)
  e_count : Z;             (** page_count *)
  e_huge : bool;           (** PageHuge (hugetlbfs) *)
  e_transhuge : bool;      (** PageTransHuge *)
  e_writeback : bool;      (** PageWriteback *)
  e_has_mapping : bool     (** page_mapping(page) != NULL *)
}.

Definition epage_eqb (a b : epage) : bool :=
  Nat.eqb (e_id a) (e_id b) && Z.eqb (e_count a) (e_count b) &&
  Bool.eqb (e_huge a) (e_huge b) && Bool.eqb (e_transhuge a) (e_transhuge b) &&
  Bool.eqb (e_writeback a) (e_writeback b) &&
  Bool.eqb (e_has_mapping a) (e_has_mapping b).

(** list_del(&page->lru) on the list [from]. *)
Definition list_del (p : epage) (from : list epage) : list epage :=
  List.filter (fun q => negb (epage_eqb q p)) from.

(** What the engines depend on but this file does not define: the allocator
    callback, lock contention, the remaining steps of a move (unmapping,
    move_to_new_page, remapping) and THP splitting.  Each outcome may depend
    on the pass and the page. *)
Record env := mkEnv {
  thp_migration_supported : bool;
  pf_memalloc : bool;                          (** current->flags & PF_MEMALLOC *)
  get_new_page_ok : nat -> epage -> bool;      (** get_new_page != NULL *)
  trylock_ok : nat -> epage -> bool;           (** trylock_page(page) *)
  move_rest : nat -> epage -> Z;               (** rc of __unmap_and_move past
                                                   its writeback gate *)
  hugepage_migration_supported : epage -> bool;
  huge_rest : nat -> epage -> Z;               (** rc of
                                                   unmap_and_move_huge_page past
                                                   its page lock *)
  split_rc : epage -> Z;                       (** split_huge_page_to_list *)
  split_tails : epage -> list epage            (** tail pages it adds *)
}.

(** __unmap_and_move, up to and including the writeback gate. *)
Definition __unmap_and_move (E : env) (pass : nat) (p : epage) (force : bool)
    (mode : migrate_mode) : Z :=
  let after_lock :=
    if e_writeback p then
      if negb (base_mode_eqb (m_base mode) MIGRATE_SYNC) then - EBUSY
      else if negb force then - EAGAIN
      else move_rest E pass p        (* after wait_on_page_writeback *)
    else move_rest E pass p in
  if negb (trylock_ok E pass p) then
    if negb force || base_mode_eqb (m_base mode) MIGRATE_ASYNC then - EAGAIN
    else if pf_memalloc E then - EAGAIN
    else after_lock                  (* lock_page *)
  else after_lock.

(** Outcome of one attempt: return code, whether the page was taken off the
    caller's list, and whether a new page was allocated and a move tried. *)
Record attempt := mkAttempt { a_rc : Z; a_removed : bool; a_work : bool }.

(** unmap_and_move *)
Definition unmap_and_move (E : env) (pass : nat) (p : epage) (force : bool)
    (mode : migrate_mode) : attempt :=
  if negb (thp_migration_supported E) && e_transhuge p then
    mkAttempt (- ENOMEM) false false
  else if e_count p =? 1 then
    (* page was freed from under us *)
    mkAttempt MIGRATEPAGE_SUCCESS true false
  else if negb (get_new_page_ok E pass p) then mkAttempt (- ENOMEM) false false
  else
    let rc := __unmap_and_move E pass p force mode in
    mkAttempt rc (negb (rc =? - EAGAIN)) true.

(** unmap_and_move_huge_page *)
Definition unmap_and_move_huge_page (E : env) (pass : nat) (p : epage)
    (force : bool) (mode : migrate_mode) : attempt :=
  if negb (hugepage_migration_supported E p) then
    mkAttempt (- ENOSYS) true false          (* putback_active_hugepage *)
  else if negb (get_new_page_ok E pass p) then mkAttempt (- ENOMEM) false false
  else
    let rc :=
      if negb (trylock_ok E pass p) &&
         (negb force || negb (base_mode_eqb (m_base mode) MIGRATE_SYNC))
      then - EAGAIN else huge_rest E pass p in
    mkAttempt rc (negb (rc =? - EAGAIN)) true.

(** The attempt migrate_pages makes on a page in a given pass
    (force is pass > 2). *)
Definition attempt_page (E : env) (mode : migrate_mode) (pass : nat) (p : epage)
  : attempt :=
  if e_huge p then unmap_and_move_huge_page E pass p (Nat.ltb 2 pass) mode
  else unmap_and_move E pass p (Nat.ltb 2 pass) mode.

(** After split_huge_page_to_list the head and the tails are base pages. *)
Definition as_base (p : epage) : epage :=
  mkEPage (e_id p) (e_count p) (e_huge p) false (e_writeback p) (e_has_mapping p).

(** State of migrate_pages: the list [from], the counters and the sequence
    of attempts (pass, page id, rc). *)
Record mstate := mkMState {
  ms_from : list epage;
  ms_failed : nat;
  ms_succ : nat;
  ms_retry : nat;
  ms_log : list (nat * nat * Z)
}.

Inductive walk_result :=
  | WalkDone (s : mstate)
  | WalkAbort (rc : Z) (s : mstate).

(** Budget for one walk: a page that may be split counts for itself, its
    head after the split and its tails. *)
Definition walk_weight (E : env) (q : list epage) : nat :=
  fold_right (fun p acc =>
    ((if e_transhuge p && negb (e_huge p) then 2 + length (split_tails E p)
      else 1) + acc)%nat) 0%nat q.

(** One pass of list_for_each_entry_safe over [from].  [kept] collects the
    pages still on the list; split tails go to the end of the walk. *)
Fixpoint walk (E : env) (mode : migrate_mode) (pass : nat) (fuel : nat)
    (q : list epage) (s : mstate) : walk_result :=
  match fuel with
  | O => WalkDone (mkMState (ms_from s ++ q) (ms_failed s) (ms_succ s)
                            (ms_retry s) (ms_log s))
  | S fuel' =>
    match q with
    | [] => WalkDone s
    | p :: q' =>
      let a := attempt_page E mode pass p in
      let rc := a_rc a in
      let log := ms_log s ++ [(pass, e_id p, rc)] in
      let from' := if a_removed a then ms_from s else ms_from s ++ [p] in
      if rc =? - ENOMEM then
        if e_transhuge p && negb (e_huge p) then
          let src := split_rc E p in
          if src =? 0 then
            (* head retried at once, tails added at the end of the list *)
            walk E mode pass fuel'
              (as_base p :: q' ++ map as_base (split_tails E p))
              (mkMState (ms_from s) (ms_failed s) (ms_succ s) (ms_retry s) log)
          else WalkAbort src (mkMState (ms_from s ++ p :: q') (S (ms_failed s))
                                       (ms_succ s) (ms_retry s) log)
        else WalkAbort rc (mkMState (ms_from s ++ p :: q') (S (ms_failed s))
                                    (ms_succ s) (ms_retry s) log)
      else if rc =? - EAGAIN then
        walk E mode pass fuel' q'
          (mkMState from' (ms_failed s) (ms_succ s) (S (ms_retry s)) log)
      else if rc =? MIGRATEPAGE_SUCCESS then
        walk E mode pass fuel' q'
          (mkMState from' (ms_failed s) (S (ms_succ s)) (ms_retry s) log)
      else
        (* permanent failure: -EBUSY, -ENOSYS, ... *)
        walk E mode pass fuel' q'
          (mkMState from' (S (ms_failed s)) (ms_succ s) (ms_retry s) log)
    end
  end.

(** Result of migrate_pages: return value, passes run, counters (nr_failed
    after adding the last retry count), the list left and the attempts. *)
Record mp_out := mkOut {
  o_rc : Z;
  o_passes : nat;
  o_succ : nat;
  o_failed : nat;
  o_from : list epage;
  o_log : list (nat * nat * Z)
}.

(** for (pass = 0; pass < 10 && retry; pass++) { retry = 0; walk } *)
Fixpoint pass_loop (E : env) (mode : migrate_mode) (budget pass : nat)
    (s : mstate) : mp_out :=
  match budget with
  | O =>
      let failed := (ms_failed s + ms_retry s)%nat in
      mkOut (Z.of_nat failed) pass (ms_succ s) failed (ms_from s) (ms_log s)
  | S budget' =>
      if Nat.eqb (ms_retry s) 0 then
        let failed := (ms_failed s + ms_retry s)%nat in
        mkOut (Z.of_nat failed) pass (ms_succ s) failed (ms_from s) (ms_log s)
      else
        match walk E mode pass (walk_weight E (ms_from s)) (ms_from s)
                (mkMState [] (ms_failed s) (ms_succ s) 0 (ms_log s)) with
        | WalkDone s' => pass_loop E mode budget' (S pass) s'
        | WalkAbort rc s' =>
            mkOut rc (S pass) (ms_succ s') (ms_failed s') (ms_from s') (ms_log s')
        end
  end.

(** migrate_pages *)
Definition migrate_pages (E : env) (mode : migrate_mode) (from : list epage)
  : mp_out :=
  pass_loop E mode 10 0 (mkMState from 0 0 1 []).


(** The worklist of each pass when no attempt returns -ENOMEM: the pages of
    the previous pass whose attempt returned -EAGAIN. *)
Fixpoint pass_worklist (E : env) (mode : migrate_mode) (l : list epage) (k : nat)
  : list epage :=
  match k with
  | O => l
  | S k' => List.filter (fun p => a_rc (attempt_page E mode k' p) =? - EAGAIN)
              (pass_worklist E mode l k')
  end.

(** The attempts of passes 0 .. n-1 over those worklists, in order. *)
Definition attempts_upto (E : env) (mode : migrate_mode) (l : list epage) (n : nat)
  : list (nat * nat * Z) :=
  flat_map (fun k => map (fun p => (k, e_id p, a_rc (attempt_page E mode k p)))
                         (pass_worklist E mode l k))
           (seq 0 n).

(** *** migrate_pages_concur *)

(** Outcomes the concurrent pipeline depends on: __unmap_page_concur, the
    count seen by move_mapping_concurr, and the PageTransHuge test on the
    variable [page] in its -ENOMEM case (left over from the loop that built
    the work items, not the item being processed). *)
Record cenv := mkCEnv {
  c_get_new_page_ok : epage -> bool;
  c_unmap_rc : epage -> Z;
  c_mm_count_one : epage -> bool;
  c_stale_transhuge : bool
}.

(** unmap_pages_and_get_new_concur: return code, whether the page was
    deleted from [from], and whether it was freed under us. *)
Definition unmap_pages_and_get_new_concur (E : env) (C : cenv) (p : epage)
  : Z * bool * bool :=
  if negb (thp_migration_supported E) && e_transhuge p then (- ENOMEM, false, false)
  else if negb (c_get_new_page_ok C p) then (- ENOMEM, false, false)
  else if e_count p =? 1 then (MIGRATEPAGE_SUCCESS, true, true)
  else
    let rc := c_unmap_rc C p in
    if rc =? MIGRATEPAGE_SUCCESS then (rc, false, false)
    else (rc, negb (rc =? - EAGAIN), false).

Record cstate := mkCState {
  cs_wip : list epage;
  cs_from : list epage;
  cs_unmapped : list epage;
  cs_serialized : list epage;
  cs_failedl : list epage;
  cs_failed : nat;
  cs_succ : nat;
  cs_retry : nat;
  cs_batched : list epage      (** pages given to unmap_pages_and_get_new_concur *)
}.

Definition with_wip (s : cstate) (w : list epage) : cstate :=
  mkCState w (cs_from s) (cs_unmapped s) (cs_serialized s) (cs_failedl s)
    (cs_failed s) (cs_succ s) (cs_retry s) (cs_batched s).

(** The list_for_each_entry_safe walk over wip_list; items that stay on
    wip_list are re-collected in [cs_wip].  [true] means goto out. *)
Fixpoint concur_walk (E : env) (C : cenv) (q : list epage) (s : cstate)
  : cstate * bool :=
  match q with
  | [] => (s, false)
  | p :: q' =>
    if e_huge p || e_has_mapping p then
      (* -ENODEV *)
      concur_walk E C q'
        (mkCState (cs_wip s) (cs_from s) (cs_unmapped s) (cs_serialized s ++ [p])
           (cs_failedl s) (cs_failed s) (cs_succ s) (cs_retry s) (cs_batched s))
    else
      let '(rc, deleted, freed) := unmap_pages_and_get_new_concur E C p in
      let from' := if deleted then list_del p (cs_from s) else cs_from s in
      let batched := cs_batched s ++ [p] in
      if rc =? - ENOMEM then
        if c_stale_transhuge C then
          concur_walk E C q'
            (mkCState (cs_wip s) from' (cs_unmapped s) (cs_serialized s ++ [p])
               (cs_failedl s) (cs_failed s) (cs_succ s) (cs_retry s) batched)
        else
          (mkCState (cs_wip s ++ p :: q') from' (cs_unmapped s) (cs_serialized s)
             (cs_failedl s) (cs_failed s) (cs_succ s) (cs_retry s) batched, true)
      else if rc =? - EAGAIN then
        concur_walk E C q'
          (mkCState (cs_wip s ++ [p]) from' (cs_unmapped s) (cs_serialized s)
             (cs_failedl s) (cs_failed s) (cs_succ s) (S (cs_retry s)) batched)
      else if rc =? MIGRATEPAGE_SUCCESS then
        if freed then
          concur_walk E C q'
            (mkCState (cs_wip s) from' (cs_unmapped s) (cs_serialized s)
               (cs_failedl s) (cs_failed s) (cs_succ s) (cs_retry s) batched)
        else
          concur_walk E C q'
            (mkCState (cs_wip s) from' (cs_unmapped s ++ [p]) (cs_serialized s)
               (cs_failedl s) (cs_failed s) (S (cs_succ s)) (cs_retry s) batched)
      else
        concur_walk E C q'
          (mkCState (cs_wip s) from' (cs_unmapped s) (cs_serialized s)
             (cs_failedl s ++ [p]) (S (cs_failed s)) (cs_succ s) (cs_retry s) batched)
  end.

(** move_mapping_concurr then remove_migration_ptes_concurr: items whose
    page_count is not 1 go back to wip_list (their page stays on [from]);
    the others are copied and their old page is deleted from [from]. *)
Definition finish_unmapped (C : cenv) (s : cstate) : cstate :=
  let back := List.filter (fun p => negb (c_mm_count_one C p)) (cs_unmapped s) in
  let done := List.filter (c_mm_count_one C) (cs_unmapped s) in
  mkCState (cs_wip s ++ back)
    (fold_left (fun f p => list_del p f) done (cs_from s))
    done (cs_serialized s) (cs_failedl s) (cs_failed s) (cs_succ s)
    (cs_retry s) (cs_batched s).

(** One iteration of the outer loop: retry = 0, the walk, then the staged
    pipeline when unmapped_list is not empty. *)
Definition concur_pass (E : env) (C : cenv) (s : cstate) : cstate :=
  let s0 := mkCState [] (cs_from s) (cs_unmapped s) (cs_serialized s)
              (cs_failedl s) (cs_failed s) (cs_succ s) 0 (cs_batched s) in
  let '(s1, _) := concur_walk E C (cs_wip s) s0 in
  match cs_unmapped s1 with
  | [] => s1
  | _ => finish_unmapped C s1
  end.

(** The bound of the outer loop of migrate_pages_concur: pass < 1. *)
Definition CONCUR_PASSES : nat := 1.

(** for (pass = 0; pass < CONCUR_PASSES && retry; pass++) *)
Fixpoint concur_loop (E : env) (C : cenv) (budget pass : nat) (s : cstate)
  : cstate * nat :=
  match budget with
  | O => (s, pass)
  | S b =>
      if Nat.eqb (cs_retry s) 0 then (s, pass)
      else concur_loop E C b (S pass) (concur_pass E C s)
  end.

Record co_out := mkCOut {
  co_rc : Z;
  co_passes : nat;
  co_state : cstate;
  co_serial : option mp_out     (** the call of migrate_pages, if any *)
}.

(** migrate_pages_concur: the work items are built in the order of [from]. *)
Definition migrate_pages_concur (E : env) (C : cenv) (mode : migrate_mode)
    (from : list epage) : co_out :=
  let '(s, passes) :=
    concur_loop E C CONCUR_PASSES 0 (mkCState from from [] [] [] 0 0 1 []) in
  let rc := Z.of_nat (cs_failed s + cs_retry s) in
  match cs_from s with
  | [] => mkCOut rc passes s None
  | rest => let r := migrate_pages E mode rest in
            mkCOut (o_rc r) passes s (Some r)
  end.

(** What the pipeline keeps about deferred pages: only other pages reach the
    batched path or unmapped_list, and deferred pages of [l] stay on [from]. *)
Definition concur_inv (l : list epage) (s : cstate) : Prop :=
  (forall q, In q (cs_batched s) -> e_huge q || e_has_mapping q = false) /\
  (forall q, In q (cs_unmapped s) -> e_huge q || e_has_mapping q = false) /\
  (forall p, In p l -> e_huge p || e_has_mapping p = true -> In p (cs_from s)).

End Engine.

(* ------------------------------------------------------------------------ *)
(** ** The move_pages system call: do_pages_move *)
Module Syscall.

Definition NUMA_NO_NODE : Z := -1.

(** One request: pages[i] and nodes[i]; [None] when get_user faults. *)
Record request := mkReq { rq_page : option Z; rq_node : option Z }.

(** The process and machine the call runs against.  [add_page] is the
    result of add_page_for_migration for an address and a node (0: already
    there, 1: queued, negative: lookup or isolation error, such as -EFAULT
    for an address outside a migratable VMA, -ENOENT, or -EACCES for a page
    mapped more than once without MPOL_MF_MOVE_ALL); [move_to_node] is the
    result of migrating a non-empty page list to a node. *)
Record senv := mkSEnv {
  max_numnodes : Z;
  node_has_memory : Z -> bool;        (** node_state(node, N_MEMORY) *)
  task_nodes : Z -> bool;             (** node_isset(node, task_nodes) *)
  add_page : Z -> Z -> Z;
  move_to_node : Z -> list Z -> Z;
  put_user_ok : nat -> bool           (** put_user to status[i] succeeds *)
}.

Record sstate := mkSState {
  s_current_node : Z;
  s_start : nat;
  s_pagelist : list Z;                (** addresses queued on pagelist *)
  s_err : Z;
  s_status : list (nat * Z);          (** status words written, in order *)
  s_lookups : list nat                (** indices given to add_page_for_migration *)
}.


(** store_status: writes [value] to status[start .. start+nr-1]. *)
Fixpoint store_status (E : senv) (start : nat) (value : Z) (nr : nat)
    (st : list (nat * Z)) : Z * list (nat * Z) :=
  match nr with
  | O => (0, st)
  | S nr' => if put_user_ok E start
             then store_status E (S start) value nr' (st ++ [(start, value)])
             else (- EFAULT, st)
  end.

(** do_move_pages_to_node; the list is empty afterwards (migrated or put
    back). *)
Definition do_move_pages_to_node (E : senv) (node : Z) (pagelist : list Z) : Z :=
  match pagelist with
  | [] => 0
  | _ => move_to_node E node pagelist
  end.

(** The checks on a request before its page is looked up: the error that
    makes do_pages_move goto out_flush, or the address and node. *)
Definition check_request (E : senv) (r : request) : Z + (Z * Z) :=
  match rq_page r, rq_node r with
  | None, _ | _, None => inl (- EFAULT)
  | Some addr, Some node =>
      if (node <? 0) || (max_numnodes E <=? node) then inl (- ENODEV)
      else if negb (node_has_memory E node) then inl (- ENODEV)
      else if negb (task_nodes E node) then inl (- EACCES)
      else inr (addr, node)
  end.

(** Where one iteration leaves the loop. *)
Inductive flow :=
  | Next (s : sstate)
  | ToFlush (err : Z) (s : sstate) (i : nat)   (** goto out_flush at index i *)
  | ToOut (err : Z) (s : sstate).              (** goto out *)

Definition set_node (s : sstate) (node : Z) (start : nat) (pl : list Z)
    (st : list (nat * Z)) (err : Z) : sstate :=
  mkSState node start pl err st (s_lookups s).

(** err += nr_pages - i - 1 for a positive count of failed pages. *)
Definition fail_count (nr_pages i : nat) (err : Z) : Z :=
  if 0 <? err then err + Z.of_nat nr_pages - Z.of_nat i - 1 else err.

(** The body of the loop of do_pages_move for index i. *)
Definition step (E : senv) (nr_pages i : nat) (r : request) (s : sstate) : flow :=
  match check_request E r with
  | inl err => ToFlush err s i
  | inr (addr, node) =>
    let pre :=
      if s_current_node s =? NUMA_NO_NODE then
        Next (set_node s node i (s_pagelist s) (s_status s) (s_err s))
      else if negb (node =? s_current_node s) then
        let err := do_move_pages_to_node E (s_current_node s) (s_pagelist s) in
        if negb (err =? 0) then
          ToOut (fail_count nr_pages i err)
                (set_node s (s_current_node s) (s_start s) [] (s_status s) err)
        else
          let '(err2, st) := store_status E (s_start s) (s_current_node s)
                               (i - s_start s) (s_status s) in
          if negb (err2 =? 0) then
            ToOut err2 (set_node s (s_current_node s) (s_start s) [] st err2)
          else Next (set_node s node i [] st err2)
      else Next s in
    match pre with
    | Next s1 =>
      let cur := s_current_node s1 in
      let err := add_page E addr cur in
      let s1 := mkSState cur (s_start s1) (s_pagelist s1) (s_err s1)
                  (s_status s1) (s_lookups s1 ++ [i]) in
      if err =? 0 then
        (* already on the target node *)
        let '(e2, st) := store_status E i cur 1 (s_status s1) in
        if negb (e2 =? 0) then
          ToFlush e2 (set_node s1 cur (s_start s1) (s_pagelist s1) st e2) i
        else Next (set_node s1 cur (s_start s1) (s_pagelist s1) st e2)
      else if 0 <? err then
        (* queued for migration *)
        Next (set_node s1 cur (s_start s1) (s_pagelist s1 ++ [addr]) (s_status s1) err)
      else
        (* lookup or isolation error: reported in status[i] *)
        let '(e2, st) := store_status E i err 1 (s_status s1) in
        if negb (e2 =? 0) then
          ToFlush e2 (set_node s1 cur (s_start s1) (s_pagelist s1) st e2) i
        else
          let e3 := do_move_pages_to_node E cur (s_pagelist s1) in
          if negb (e3 =? 0) then
            ToOut (fail_count nr_pages i e3) (set_node s1 cur (s_start s1) [] st e3)
          else if Nat.ltb (s_start s1) i then
            let '(e4, st') := store_status E (s_start s1) cur (i - s_start s1) st in
            if negb (e4 =? 0) then ToOut e4 (set_node s1 cur (s_start s1) [] st' e4)
            else Next (set_node s1 NUMA_NO_NODE (s_start s1) [] st' e4)
          else Next (set_node s1 NUMA_NO_NODE (s_start s1) [] st e3)
    | f => f
    end
  end.

(** for (i = start = 0; i < nr_pages; i++) *)
Fixpoint pages_loop (E : senv) (nr_pages i : nat) (rs : list request) (s : sstate)
  : flow :=
  match rs with
  | [] => ToFlush (s_err s) s i
  | r :: rs' =>
      match step E nr_pages i r s with
      | Next s' => pages_loop E nr_pages (S i) rs' s'
      | f => f
      end
  end.





End Syscall.

(* ------------------------------------------------------------------------ *)
(** ** Device-memory migration: migrate_vma_check_page, migrate_vma_prepare *)
Module Vma.

Record vpage := mkVPage {
  vp_id : nat;
  vp_compound : bool;          (** PageCompound *)
  vp_zone_device : bool;       (** is_zone_device_page *)
  vp_device_private : bool;    (** is_device_private_page *)
  vp_has_mapping : bool;       (** page_mapping(page) != NULL *)
  vp_has_private : bool;       (** page_has_private *)
  vp_count : Z;                (** page_count when it is checked *)
  vp_mapcount : Z              (** page_mapcount *)
}.

(** migrate_vma_check_page *)
Definition migrate_vma_check_page (p : vpage) : bool :=
  if vp_compound p then false
  else if vp_zone_device p then vp_device_private p
  else
    let extra := 1 + (if vp_has_mapping p
                      then 1 + (if vp_has_private p then 1 else 0) else 0) in
    negb (vp_mapcount p <? vp_count p - extra).

(** An entry of migrate->src: the page (absent when the entry is 0 or has
    no valid pfn) and its MIGRATE_PFN_MIGRATE and MIGRATE_PFN_LOCKED bits. *)
Record ventry := mkVEntry {
  v_page : option vpage;
  v_migrate : bool;
  v_locked : bool
}.

Definition zero_entry : ventry := mkVEntry None false false.

(** What happens to the pages, in order. *)
Inductive vevent :=
  | Ev_put (i : nat)                    (** put_page *)
  | Ev_get (i : nat)                    (** get_page *)
  | Ev_unlock (i : nat)                 (** unlock_page *)
  | Ev_putback (i : nat)                (** putback_lru_page *)
  | Ev_remove_pte (i : nat).            (** remove_migration_pte *)

Record vstate := mkVState {
  vs_src : list ventry;
  vs_cpages : nat;
  vs_restore : nat;
  vs_log : list vevent
}.

(** Lock contention and LRU isolation, per index. *)
Record venv := mkVEnv {
  v_trylock_ok : nat -> bool;           (** trylock_page *)
  v_isolate_fails : nat -> bool         (** isolate_lru_page(page) != 0 *)
}.

Definition set_src (st : vstate) (i : nat) (e : ventry) (dc dr : nat)
    (ev : list vevent) : vstate :=
  mkVState (<[i := e]> (vs_src st)) (vs_cpages st - dc) (vs_restore st + dr)
    (vs_log st ++ ev).

(** One iteration of the first loop of migrate_vma_prepare on index i. *)
Definition prepare_entry (V : venv) (i : nat) (st : vstate) : vstate :=
  match vs_src st !! i with
  | None => st
  | Some e =>
    match v_page e with
    | None => st
    | Some p =>
      if negb (v_locked e) && negb (v_trylock_ok V i) then
        set_src st i zero_entry 1 0 [Ev_put i]
      else
        let remap := v_locked e in
        let e1 := mkVEntry (v_page e) (v_migrate e) true in
        let isolated :=
          if vp_zone_device p then Some []
          else if v_isolate_fails V i then None
          else Some [Ev_put i] in        (* drop the reference of collect *)
        match isolated with
        | None =>
          if remap then set_src st i (mkVEntry (v_page e1) false true) 1 1 []
          else set_src st i zero_entry 1 0 [Ev_unlock i; Ev_put i]
        | Some ev =>
          if negb (migrate_vma_check_page p) then
            if remap then
              set_src st i (mkVEntry (v_page e1) false true) 1 1
                (ev ++ if vp_zone_device p then [] else [Ev_get i; Ev_putback i])
            else
              set_src st i zero_entry 1 0
                (ev ++ Ev_unlock i ::
                 (if vp_zone_device p then [Ev_put i] else [Ev_putback i]))
          else set_src st i e1 0 0 ev
        end
    end
  end.

(** for (i = 0; (i < npages) && migrate->cpages; i++) *)
Fixpoint prepare_loop (V : venv) (fuel i : nat) (st : vstate) : vstate :=
  match fuel with
  | O => st
  | S fuel' =>
      if Nat.eqb (vs_cpages st) 0 then st
      else prepare_loop V fuel' (S i) (prepare_entry V i st)
  end.

(** One iteration of the restore loop on index i. *)
Definition restore_entry (i : nat) (st : vstate) : vstate :=
  match vs_src st !! i with
  | Some (mkVEntry (Some p) false _) =>
      mkVState (<[i := zero_entry]> (vs_src st)) (vs_cpages st)
        (vs_restore st - 1)
        (vs_log st ++ [Ev_remove_pte i; Ev_unlock i; Ev_put i])
  | _ => st
  end.

(** for (i = 0; i < npages && restore; i++) *)
Fixpoint restore_loop (fuel i : nat) (st : vstate) : vstate :=
  match fuel with
  | O => st
  | S fuel' =>
      if Nat.eqb (vs_restore st) 0 then st
      else restore_loop fuel' (S i) (restore_entry i st)
  end.

(** migrate_vma_prepare on src with cpages collected pages. *)
Definition migrate_vma_prepare (V : venv) (src : list ventry) (cpages : nat)
  : vstate :=
  let npages := length src in
  let st := prepare_loop V npages 0 (mkVState src cpages 0 []) in
  restore_loop npages 0 st.

(** The number of entries with MIGRATE_PFN_MIGRATE set. *)
Definition count_migrate (src : list ventry) : nat :=
  length (List.filter v_migrate src).

(** An entry that still holds its page with MIGRATE_PFN_MIGRATE cleared:
    what the second loop of migrate_vma_prepare restores and releases. *)
Definition is_stale (e : ventry) : bool :=
  match v_page e with
  | Some _ => negb (v_migrate e)
  | None => false
  end.

Definition count_stale (src : list ventry) : nat :=
  length (List.filter is_stale src).

(** The entry j of the collected array src holds a compound page, and in st
    that entry has MIGRATE_PFN_MIGRATE cleared. *)
Definition compound_unwound (src : list ventry) (j : nat) (st : vstate) : Prop :=
  forall e p, src !! j = Some e -> v_page e = Some p -> vp_compound p = true ->
  exists e', vs_src st !! j = Some e' /\ v_migrate e' = false.

(** What the first loop keeps before iteration i: entries from i on are the
    collected ones, compound pages below i are unwound, cpages counts the
    entries with MIGRATE_PFN_MIGRATE and restore the stale ones. *)
Definition prepare_inv (src : list ventry) (i : nat) (st : vstate) : Prop :=
  length (vs_src st) = length src /\
  (forall j, (i <= j)%nat -> vs_src st !! j = src !! j) /\
  (forall j, (j < i)%nat -> compound_unwound src j st) /\
  vs_cpages st = count_migrate (vs_src st) /\
  vs_restore st = count_stale (vs_src st).

(** What the second loop keeps before iteration i: no stale entry below i. *)
Definition restore_inv (src : list ventry) (i : nat) (st : vstate) : Prop :=
  length (vs_src st) = length src /\
  (forall j, compound_unwound src j st) /\
  vs_cpages st = count_migrate (vs_src st) /\
  vs_restore st = count_stale (vs_src st) /\
  (forall j e, (j < i)%nat -> vs_src st !! j = Some e -> is_stale e = false).

End Vma.

(* ------------------------------------------------------------------------ *)
(** ** Closest CPU node of each PMEM node *)
Module Pmem.

(** The machine as init_closest_cpu_node_for_pmem_list_kernel reads it. *)
Record topology := mkTopo {
  MAX_NUMNODES : nat;
  present_cpus : list Z;           (** for_each_present_cpu, in order *)
  cpu_to_node : Z -> Z;
  IS_PMEM_NODE : nat -> bool;      (** IS_PMEM_NODE[x] != 0 *)
  node_distance : nat -> nat -> Z
}.

(** The globals CLOSEST_CPU_NODE_FOR_PMEM[MAX_NUMNODES] and
    CLOSEST_CPU_NODE_FOR_PMEM_INITIALIZED. *)
Record pstate := mkPState {
  CLOSEST_CPU_NODE_FOR_PMEM : list Z;
  CLOSEST_CPU_NODE_FOR_PMEM_INITIALIZED : bool
}.

(** Their values at boot: a zero-initialised array and a flag at 0. *)
Definition boot_pstate (T : topology) : pstate :=
  mkPState (replicate (MAX_NUMNODES T) 0) false.

(** for_each_present_cpu: is_cpu_node[nid] = 1; node_to_cpu[nid] = cpu. *)
Fixpoint mark_cpus (T : topology) (cpus : list Z) (is_cpu_node : list bool)
    (node_to_cpu : list Z) : list bool * list Z :=
  match cpus with
  | [] => (is_cpu_node, node_to_cpu)
  | cpu :: cpus' =>
      let nid := cpu_to_node T cpu in
      if (0 <=? nid) && (nid <? Z.of_nat (MAX_NUMNODES T)) then
        mark_cpus T cpus' (<[Z.to_nat nid := true]> is_cpu_node)
          (<[Z.to_nat nid := cpu]> node_to_cpu)
      else mark_cpus T cpus' is_cpu_node node_to_cpu
  end.

(** The inner loop over j for PMEM node i: [cmin] and the value of
    CLOSEST_CPU_NODE_FOR_PMEM[i] so far. *)
Fixpoint closest_scan (T : topology) (i : nat) (is_cpu_node : list bool)
    (node_to_cpu : list Z) (js : list nat) (cmin cur : Z) : Z :=
  match js with
  | [] => cur
  | j :: js' =>
      if (match is_cpu_node !! j with Some b => b | None => false end)
         && (node_distance T i j <? cmin) then
        closest_scan T i is_cpu_node node_to_cpu js' (node_distance T i j)
          (match node_to_cpu !! j with Some c => c | None => -1 end)
      else closest_scan T i is_cpu_node node_to_cpu js' cmin cur
  end.

(** The new value of CLOSEST_CPU_NODE_FOR_PMEM[i], [cur] being the old one. *)
Definition closest_for (T : topology) (is_cpu_node : list bool)
    (node_to_cpu : list Z) (i : nat) (cur : Z) : Z :=
  if IS_PMEM_NODE T i then
    closest_scan T i is_cpu_node node_to_cpu (seq 0 (MAX_NUMNODES T)) 256 cur
  else -1.

(** for (i = 0; i < MAX_NUMNODES; i++) *)
Fixpoint fill_closest (T : topology) (is_cpu_node : list bool)
    (node_to_cpu : list Z) (is : list nat) (closest : list Z) : list Z :=
  match is with
  | [] => closest
  | i :: is' =>
      fill_closest T is_cpu_node node_to_cpu is'
        (<[i := closest_for T is_cpu_node node_to_cpu i
                  (match closest !! i with Some c => c | None => 0 end)]> closest)
  end.

(** init_closest_cpu_node_for_pmem_list_kernel; [ok1] and [ok2] are the
    outcomes of its two kmalloc calls. *)
Definition init_closest_cpu_node_for_pmem_list_kernel (T : topology)
    (ok1 ok2 : bool) (s : pstate) : pstate :=
  if CLOSEST_CPU_NODE_FOR_PMEM_INITIALIZED s then s
  else if negb ok1 then s
  else if negb ok2 then s
  else
    let '(is_cpu_node, node_to_cpu) :=
      mark_cpus T (present_cpus T) (replicate (MAX_NUMNODES T) false)
        (replicate (MAX_NUMNODES T) (-1)) in
    mkPState
      (fill_closest T is_cpu_node node_to_cpu (seq 0 (MAX_NUMNODES T))
         (CLOSEST_CPU_NODE_FOR_PMEM s))
      true.

(** get_nearest_cpu_node: its result and the globals afterwards. *)
Definition get_nearest_cpu_node (T : topology) (ok1 ok2 : bool) (s : pstate)
    (node : Z) : Z * pstate :=
  let s' := init_closest_cpu_node_for_pmem_list_kernel T ok1 ok2 s in
  (if negb (CLOSEST_CPU_NODE_FOR_PMEM_INITIALIZED s') || (node <? 0)
      || (Z.of_nat (MAX_NUMNODES T) <=? node) then -1
   else match CLOSEST_CPU_NODE_FOR_PMEM s' !! Z.to_nat node with
        | Some c => c
        | None => 0
        end,
   s').

(** A present CPU sits on node j. *)
Definition cpu_on (T : topology) (cpu : Z) (j : nat) : Prop :=
  In cpu (present_cpus T) /\ cpu_to_node T cpu = Z.of_nat j.

End Pmem.

(** A four-node machine: CPUs 0 and 1 on nodes 0 and 1, CPU 2 reported on
    an out-of-range node; nodes 2 and 3 are PMEM, node 3 far from all. *)
Module PmemSamples.
Import Pmem.

Definition sample_distance (i j : nat) : Z :=
  match i, j with
  | 2%nat, 0%nat => 20
  | 2%nat, 1%nat => 17
  | 3%nat, _ => 300
  | _, _ => if Nat.eqb i j then 10 else 21
  end.

Definition sample_topo : topology :=
  mkTopo 4 [0; 1; 2]
    (fun cpu => if cpu =? 0 then 0 else if cpu =? 1 then 1 else 7)
    (fun i => Nat.leb 2 i) sample_distance.

End PmemSamples.

(* ------------------------------------------------------------------------ *)
(** ** do_pages_stat: the node of each page of a user array *)
Module Stat.

(** follow_page(vma, addr, FOLL_DUMP): an error pointer, NULL, or a page on
    node [nid]. *)
Inductive follow_result :=
  | FollowErr (e : Z)
  | FollowNone
  | FollowPage (nid : Z).

(** The address space as do_pages_stat_array sees it, and the user
    memory of the two arrays.  [find_vma] gives vm_start of the VMA that
    find_vma returns; [pages_user i] is pages[i], [None] when reading it
    faults; [status_ok i] is whether status[i] can be written. *)
Record statenv := mkStatEnv {
  find_vma : Z -> option Z;
  follow_page : Z -> follow_result;
  pages_user : nat -> option Z;
  status_ok : nat -> bool
}.

(** The body of the loop of do_pages_stat_array for one address. *)
Definition stat_one (E : statenv) (addr : Z) : Z :=
  match find_vma E addr with
  | None => - EFAULT
  | Some vm_start =>
      if addr <? vm_start then - EFAULT
      else match follow_page E addr with
           | FollowErr e => e
           | FollowNone => - ENOENT
           | FollowPage nid => nid
           end
  end.

Definition do_pages_stat_array (E : statenv) (chunk_pages : list Z) : list Z :=
  map (stat_one E) chunk_pages.

(** copy_from_user(chunk_pages, pages + off, n): the chunk, or [None]
    when some word of it cannot be read. *)
Fixpoint copy_from_user (E : statenv) (off n : nat) : option (list Z) :=
  match n with
  | O => Some []
  | S n' =>
      match pages_user E off with
      | None => None
      | Some a =>
          match copy_from_user E (S off) n' with
          | None => None
          | Some l => Some (a :: l)
          end
      end
  end.

(** copy_to_user(status + off, vals, ...): the words are stored in order up
    to the first one that faults; [true] when all were stored.  The status
    words stored so far are listed as (index, value). *)
Fixpoint copy_to_user (E : statenv) (off : nat) (vals : list Z)
    (st : list (nat * Z)) : bool * list (nat * Z) :=
  match vals with
  | [] => (true, st)
  | v :: vs =>
      if status_ok E off then copy_to_user E (S off) vs (st ++ [(off, v)])
      else (false, st)
  end.

Definition DO_PAGES_STAT_CHUNK_NR : nat := 16.

(** while (nr_pages): [off] is how far pages and status have advanced; the
    result is the final nr_pages and the status words stored.  Every
    iteration that does not break lowers nr_pages, so [fuel] = nr_pages
    suffices. *)
Fixpoint stat_loop (E : statenv) (fuel off nr_pages : nat)
    (st : list (nat * Z)) : nat * list (nat * Z) :=
  match fuel with
  | O => (nr_pages, st)
  | S fuel' =>
      match nr_pages with
      | O => (O, st)
      | S _ =>
          let chunk_nr := Nat.min nr_pages DO_PAGES_STAT_CHUNK_NR in
          match copy_from_user E off chunk_nr with
          | None => (nr_pages, st)
          | Some chunk_pages =>
              let chunk_status := do_pages_stat_array E chunk_pages in
              let '(ok, st') := copy_to_user E off chunk_status st in
              if negb ok then (nr_pages, st')
              else stat_loop E fuel' (off + chunk_nr) (nr_pages - chunk_nr) st'
          end
      end
  end.

Definition do_pages_stat (E : statenv) (nr_pages : nat) : Z * list (nat * Z) :=
  let '(rest, st) := stat_loop E nr_pages 0 nr_pages [] in
  (if Nat.eqb rest 0 then 0 else - EFAULT, st).

End Stat.

(** Pages at 4096 * i on node 1, with pages[20] unreadable. *)
Module StatSamples.
Import Stat.

Definition fault20_env : statenv :=
  mkStatEnv (fun _ => Some 0) (fun _ => FollowPage 1)
    (fun i => if Nat.eqb i 20 then None else Some (Z.of_nat i * 4096))
    (fun _ => true).

End StatSamples.

(* ------------------------------------------------------------------------ *)
(** ** Migration of pages with buffers, and the fallback for other mappings *)
Module Buffers.
Import Swap.

(** The return value of migrate_page: the one of
    migrate_page_move_mapping(mapping, newpage, page, 0), then
    MIGRATEPAGE_SUCCESS once the contents and flags are copied (the copy does
    not change it). *)
Definition migrate_page (mapping : option address_space) (newpage p : page)
    (ext : Z) : Z :=
  let rc := r_rc (migrate_page_move_mapping mapping newpage p 0 ext) in
  if negb (rc =? MIGRATEPAGE_SUCCESS) then rc else MIGRATEPAGE_SUCCESS.

(** The buffer ring of a page from head (b_this_page order), each buffer as
    its lock bit. *)
Definition buffers := list bool.

(** lock_buffer on each buffer: it sleeps until the buffer is free, so all
    are held by the caller afterwards. *)
Definition lock_all (bhs : buffers) : buffers := map (fun _ => true) bhs.

(** unlock_buffer on each buffer. *)
Definition unlock_all (bhs : buffers) : buffers := map (fun _ => false) bhs.

(** The async do-while: [taken] are the buffers before bh, locked by this
    loop; on a failed trylock_buffer those are unlocked again. *)
Fixpoint trylock_loop (taken rest : buffers) : bool * buffers :=
  match rest with
  | [] => (true, taken)
  | locked :: rest' =>
      if locked then (false, unlock_all taken ++ rest)
      else trylock_loop (taken ++ [true]) rest'
  end.

Definition buffer_migrate_lock_buffers (head : buffers) (mode : migrate_mode)
  : bool * buffers :=
  if negb (base_mode_eqb (m_base mode) MIGRATE_ASYNC) then (true, lock_all head)
  else trylock_loop [] head.

(** The recheck_buffers scan: is some b_count non-zero. *)
Definition buffers_busy (b_count : list Z) : bool :=
  existsb (fun c => negb (c =? 0)) b_count.

(** __buffer_migrate_page: the return value and the buffer locks on return.
    [head] is [] when page_has_buffers(page) is false; [b_count] and
    [b_count_after] are the buffers' reference counts at the first scan and
    after invalidate_bh_lrus. *)
Definition __buffer_migrate_page (mapping : option address_space)
    (newpage p : page) (mode : migrate_mode) (check_refs : bool)
    (head : buffers) (b_count b_count_after : list Z) (ext : Z)
  : Z * buffers :=
  match head with
  | [] => (migrate_page mapping newpage p ext, head)
  | _ =>
    if negb (pg_count p =? expected_page_refs mapping p) then (- EAGAIN, head)
    else
      let '(ok, bhs) := buffer_migrate_lock_buffers head mode in
      if negb ok then (- EAGAIN, bhs)
      else
        let rc :=
          if check_refs && buffers_busy b_count && buffers_busy b_count_after
          then - EAGAIN
          else
            let rc0 := r_rc (migrate_page_move_mapping mapping newpage p 0 ext) in
            if negb (rc0 =? MIGRATEPAGE_SUCCESS) then rc0
            else MIGRATEPAGE_SUCCESS in
        (* unlock_buffers: *)
        (rc, unlock_all bhs)
  end.

Definition buffer_migrate_page (mapping : option address_space)
    (newpage p : page) (mode : migrate_mode) (head : buffers)
    (b_count b_count_after : list Z) (ext : Z) : Z * buffers :=
  __buffer_migrate_page mapping newpage p mode false head b_count b_count_after ext.

Definition buffer_migrate_page_norefs (mapping : option address_space)
    (newpage p : page) (mode : migrate_mode) (head : buffers)
    (b_count b_count_after : list Z) (ext : Z) : Z * buffers :=
  __buffer_migrate_page mapping newpage p mode true head b_count b_count_after ext.

End Buffers.

Module Fallback.
Import Swap.

Definition EIO : Z := 5.
Definition EINVAL : Z := 22.

(** What writeout depends on: whether mapping->a_ops->writepage exists,
    the result of clear_page_dirty_for_io, and the one of writepage. *)
Record wenv := mkWEnv {
  has_writepage : bool;
  clear_page_dirty_for_io : bool;
  writepage_rc : Z;
  try_to_release_page : bool       (** try_to_release_page(page, GFP_KERNEL) *)
}.

Definition writeout (W : wenv) : Z :=
  if negb (has_writepage W) then - EINVAL
  else if negb (clear_page_dirty_for_io W) then - EAGAIN
  else if writepage_rc W <? 0 then - EIO else - EAGAIN.

Definition fallback_migrate_page (W : wenv) (mapping : option address_space)
    (newpage p : page) (mode : migrate_mode) (ext : Z) : Z :=
  if pg_dirty p then
    if negb (base_mode_eqb (m_base mode) MIGRATE_SYNC) then - EBUSY
    else writeout W
  else if pg_has_private p && negb (try_to_release_page W) then
    (if base_mode_eqb (m_base mode) MIGRATE_SYNC then - EAGAIN else - EBUSY)
  else Buffers.migrate_page mapping newpage p ext.

End Fallback.

(* ------------------------------------------------------------------------ *)
(** ** NUMA balancing: migrate_misplaced_page *)
Module Misplaced.
Import Engine.

(** A zone of the target node: populated_zone, high_wmark_pages and
    zone_watermark_ok(zone, 0, mark, ZONE_MOVABLE, 0) as a test on mark. *)
Record zone := mkZone {
  populated : bool;
  high_wmark_pages : Z;
  zone_watermark_ok : Z -> bool
}.

(** for (z = pgdat->nr_zones - 1; z >= 0; z--): [zs] from the highest zone
    down. *)
Fixpoint balanced_scan (zs : list zone) (nr_migrate_pages : Z) : bool :=
  match zs with
  | [] => false
  | z :: zs' =>
      if negb (populated z) then balanced_scan zs' nr_migrate_pages
      else if negb (zone_watermark_ok z (high_wmark_pages z + nr_migrate_pages))
      then balanced_scan zs' nr_migrate_pages
      else true
  end.

(** [node_zones] is pgdat->node_zones[0 .. nr_zones - 1]. *)
Definition migrate_balanced_pgdat (node_zones : list zone) (nr_migrate_pages : Z)
  : bool :=
  balanced_scan (rev node_zones) nr_migrate_pages.

(** What migrate_misplaced_page reads besides the page attributes of
    [epage]: the target node's zones, the page's mapcount, file and dirty
    state, VM_EXEC of the vma, isolate_lru_page's result and page_count
    after the isolation. *)
Record nenv := mkNEnv {
  node_zones : list zone;
  compound_nr : Z;
  page_mapcount : Z;
  page_is_file_cache : bool;
  PageDirty : bool;
  vm_exec : bool;
  isolate_lru_page : Z;
  count_after_isolate : Z
}.

Definition numamigrate_isolate_page (N : nenv) (p : epage) : Z :=
  if negb (migrate_balanced_pgdat (node_zones N) (compound_nr N)) then 0
  else if negb (isolate_lru_page N =? 0) then 0
  else if e_transhuge p && negb (count_after_isolate N =? 3) then 0
  else 1.

Definition misplaced_mode : migrate_mode := mkMode MIGRATE_ASYNC false false.

(** migrate_misplaced_page; [E] is the migrate_pages environment with
    alloc_misplaced_dst_page as get_new_page. *)
Definition migrate_misplaced_page (N : nenv) (E : env) (p : epage) : Z :=
  if negb (page_mapcount N =? 1) && page_is_file_cache N && vm_exec N then 0
  else if page_is_file_cache N && PageDirty N then 0
  else
    let isolated := numamigrate_isolate_page N p in
    if isolated =? 0 then 0
    else
      let nr_remaining := o_rc (migrate_pages E misplaced_mode [p]) in
      if negb (nr_remaining =? 0) then 0 else isolated.

End Misplaced.

(** A target node with one populated zone above its high watermark, and an
    anonymous page mapped once that isolates cleanly. *)
Module MisplacedSamples.
Import Misplaced.

Definition roomy_zone : zone := mkZone true 100 (fun mark => mark <=? 1000).

Definition anon_nenv : nenv := mkNEnv [roomy_zone] 1 1 false false false 0 3.

End MisplacedSamples.

(* ------------------------------------------------------------------------ *)
(** ** migrate_vma_setup: the checks on its arguments *)
Module VmaSetup.

Definition PAGE_SHIFT : Z := 12.
Definition PAGE_SIZE : Z := 4096.
(** unsigned long arithmetic *)
Definition ulong (x : Z) : Z := x mod 2 ^ 64.
(** the conversion of an unsigned long to long *)
Definition to_long (x : Z) : Z := if 2 ^ 63 <=? x then x - 2 ^ 64 else x.
(** PAGE_MASK = ~(PAGE_SIZE - 1) as an unsigned long *)
Definition PAGE_MASK : Z := ulong (Z.lnot (PAGE_SIZE - 1)).

Record vma_area := mkVmaArea {
  vm_start : Z;
  vm_end : Z;
  is_vm_hugetlb_page : bool;
  vm_special : bool;                   (** vm_flags & VM_SPECIAL *)
  vma_is_dax : bool
}.

(** The fields of struct migrate_vma the checks read; [src_ok] and
    [dst_ok] are args->src != NULL and args->dst != NULL. *)
Record migrate_vma := mkMigrateVma {
  mv_vma : option vma_area;
  mv_start : Z;
  mv_end : Z;
  src_ok : bool;
  dst_ok : bool
}.

Definition EINVAL : Z := 22.

(** The first part of migrate_vma_setup: the error it returns, or [None]
    when it goes on to collect the pages, with nr_pages and the masked start
    and end. *)
Definition migrate_vma_setup_check (args : migrate_vma) : option Z * Z * Z * Z :=
  let nr_pages := to_long (Z.shiftr (ulong (mv_end args - mv_start args)) PAGE_SHIFT) in
  let start := Z.land (mv_start args) PAGE_MASK in
  let end_ := Z.land (mv_end args) PAGE_MASK in
  let err :=
    match mv_vma args with
    | None => Some (- EINVAL)
    | Some vma =>
        if is_vm_hugetlb_page vma || vm_special vma || vma_is_dax vma then Some (- EINVAL)
        else if nr_pages <=? 0 then Some (- EINVAL)
        else if (start <? vm_start vma) || (vm_end vma <=? start) then Some (- EINVAL)
        else if (end_ <=? vm_start vma) || (vm_end vma <? end_) then Some (- EINVAL)
        else if negb (src_ok args) || negb (dst_ok args) then Some (- EINVAL)
        else None
    end in
  (err, nr_pages, start, end_).

End VmaSetup.

(* ------------------------------------------------------------------------ *)
(** ** migrate_vma_finalize *)
Module VmaFinalize.
Import Vma.

Inductive fevent :=
  | F_remap (old new : nat)         (** remove_migration_ptes(page, newpage) *)
  | F_unlock (id : nat)             (** unlock_page *)
  | F_put (id : nat)                (** put_page *)
  | F_putback (id : nat).           (** putback_lru_page *)

(** put_page for a ZONE_DEVICE page, putback_lru_page otherwise. *)
Definition release (p : vpage) : fevent :=
  if vp_zone_device p then F_put (vp_id p) else F_putback (vp_id p).

(** The body of the loop for src[i] and dst[i]; the result is what happens
    and the decrement of cpages. *)
Definition finalize_entry (e : ventry) (dst : option vpage) : list fevent * Z :=
  match v_page e with
  | None =>
      (match dst with
       | Some n => [F_unlock (vp_id n); F_put (vp_id n)]
       | None => []
       end, 0)
  | Some p =>
      let '(pre, newpage) :=
        match dst with
        | Some n => if v_migrate e then ([], n)
                    else ([F_unlock (vp_id n); F_put (vp_id n)], p)
        | None => ([], p)
        end in
      (pre ++ [F_remap (vp_id p) (vp_id newpage); F_unlock (vp_id p); release p] ++
       (if negb (Nat.eqb (vp_id newpage) (vp_id p))
        then [F_unlock (vp_id newpage); release newpage] else []),
       1)
  end.

Definition dst_at (dst : list (option vpage)) (i : nat) : option vpage :=
  match dst !! i with Some d => d | None => None end.

(** for (i = 0; i < npages; i++) *)
Fixpoint finalize_loop (src : list ventry) (dst : list (option vpage)) (i : nat)
    (cpages : Z) (log : list fevent) : Z * list fevent :=
  match src with
  | [] => (cpages, log)
  | e :: src' =>
      let '(ev, dec) := finalize_entry e (dst_at dst i) in
      finalize_loop src' dst (S i) (VmaSetup.ulong (cpages - dec)) (log ++ ev)
  end.

(** migrate_vma_finalize: cpages afterwards and the events, npages being
    the length of src and cpages an unsigned long. *)
Definition migrate_vma_finalize (src : list ventry) (dst : list (option vpage))
    (cpages : Z) : Z * list fevent :=
  finalize_loop src dst 0 cpages [].

(** The pages migrate_vma_finalize finds from index i on: src[i]'s page,
    then dst[i]'s. *)
Fixpoint finalize_pages (src : list ventry) (dst : list (option vpage)) (i : nat)
  : list vpage :=
  match src with
  | [] => []
  | e :: src' =>
      (match v_page e with Some p => [p] | None => [] end) ++
      (match dst_at dst i with Some n => [n] | None => [] end) ++
      finalize_pages src' dst (S i)
  end.

(** The pages an event list unlocks, in order. *)
Definition unlocked (log : list fevent) : list nat :=
  flat_map (fun ev => match ev with F_unlock x => [x] | _ => [] end) log.

(** The pages it releases: put_page or putback_lru_page. *)
Definition released (log : list fevent) : list nat :=
  flat_map (fun ev => match ev with F_put x | F_putback x => [x] | _ => [] end) log.

End VmaFinalize.

(** A range given backwards, inside one VMA: start 0x3000, end 0x2000 in
    [0x1000, 0x5000). *)
Module VmaSetupSamples.
Import VmaSetup.

Definition plain_vma : vma_area := mkVmaArea 4096 20480 false false false.
Definition inverted_args : migrate_vma := mkMigrateVma (Some plain_vma) 12288 8192 true true.

End VmaSetupSamples.

(** src[0] is migrated to dst[0]; src[1] is not migrated and dst[1] is
    dropped; src[2] is empty and dst[2] is dropped. *)
Module VmaFinalizeSamples.
Import Vma VmaFinalize.

Definition fpage (id : nat) (zd : bool) : vpage := mkVPage id false zd false true false 1 1.
Definition fin_src : list ventry :=
  [mkVEntry (Some (fpage 1 false)) true true;
   mkVEntry (Some (fpage 2 false)) false true;
   mkVEntry None false false].
Definition fin_dst : list (option vpage) :=
  [Some (fpage 11 true); Some (fpage 12 true); Some (fpage 13 true)].

End VmaFinalizeSamples.


(* ------------------------------------------------------------------------ *)
(** ** migrate_vma_unmap *)
Module VmaUnmap.
Import Vma.

(** page_mapped(page) before try_to_unmap and after it, per index. *)
Record uenv := mkUEnv {
  u_mapped : nat -> bool;
  u_still_mapped : nat -> bool
}.

Inductive uevent :=
  | U_try_to_unmap (i : nat)        (** try_to_unmap *)
  | U_remove_pte (i : nat)          (** remove_migration_ptes(page, page) *)
  | U_unlock (i : nat)              (** unlock_page *)
  | U_put (i : nat)                 (** put_page *)
  | U_putback (i : nat).            (** putback_lru_page *)

(** migrate->src, the unsigned long cpages, the local restore and what
    happens to the pages. *)
Record ustate := mkUState {
  us_src : list ventry;
  us_cpages : Z;
  us_restore : nat;
  us_log : list uevent
}.

(** One iteration of the first loop on index i. *)
Definition unmap_entry (U : uenv) (i : nat) (st : ustate) : ustate :=
  match us_src st !! i with
  | Some (mkVEntry (Some p) true l) =>
      let '(ev, restore) :=
        if u_mapped U i then
          if u_still_mapped U i then ([U_try_to_unmap i], true)
          else ([U_try_to_unmap i], negb (migrate_vma_check_page p))
        else ([], negb (migrate_vma_check_page p)) in
      if restore then
        mkUState (<[i := mkVEntry (Some p) false l]> (us_src st))
          (VmaSetup.ulong (us_cpages st - 1)) (S (us_restore st)) (us_log st ++ ev)
      else mkUState (us_src st) (us_cpages st) (us_restore st) (us_log st ++ ev)
  | _ => st
  end.

(** for (i = 0; i < npages; i++) *)
Fixpoint unmap_loop (U : uenv) (fuel i : nat) (st : ustate) : ustate :=
  match fuel with
  | O => st
  | S fuel' => unmap_loop U fuel' (S i) (unmap_entry U i st)
  end.

(** One iteration of the second loop on index i. *)
Definition unmap_restore_entry (i : nat) (st : ustate) : ustate :=
  match us_src st !! i with
  | Some (mkVEntry (Some p) false _) =>
      mkUState (<[i := zero_entry]> (us_src st)) (us_cpages st) (us_restore st - 1)
        (us_log st ++ [U_remove_pte i; U_unlock i;
                       if vp_zone_device p then U_put i else U_putback i])
  | _ => st
  end.

(** for (addr = start, i = 0; i < npages && restore; addr += PAGE_SIZE, i++) *)
Fixpoint unmap_restore_loop (fuel i : nat) (st : ustate) : ustate :=
  match fuel with
  | O => st
  | S fuel' =>
      if Nat.eqb (us_restore st) 0 then st
      else unmap_restore_loop fuel' (S i) (unmap_restore_entry i st)
  end.

(** migrate_vma_unmap on src with cpages, npages being the length of src. *)
Definition migrate_vma_unmap (U : uenv) (src : list ventry) (cpages : Z) : ustate :=
  let npages := length src in
  let st := unmap_loop U npages 0 (mkUState src cpages 0 []) in
  unmap_restore_loop npages 0 st.

(** Whether the first loop sends entry i to the restore loop: it holds a
    page marked MIGRATE_PFN_MIGRATE that stays mapped after try_to_unmap
    or fails migrate_vma_check_page. *)
Definition unmap_restores (U : uenv) (i : nat) (e : ventry) : bool :=
  match v_page e with
  | Some p =>
      v_migrate e && ((u_mapped U i && u_still_mapped U i) ||
                      negb (migrate_vma_check_page p))
  | None => false
  end.

Definition clear_migrate (e : ventry) : ventry :=
  mkVEntry (v_page e) false (v_locked e).

(** migrate->src after the first loop has gone through the indices below i. *)
Definition unmap_mid (U : uenv) (src : list ventry) (i : nat) : list ventry :=
  imap (fun j e => if (j <? i)%nat && unmap_restores U j e then clear_migrate e else e) src.

(** migrate->src after the second loop has gone through the indices below i. *)
Definition unmap_fin (U : uenv) (src : list ventry) (i : nat) : list ventry :=
  imap (fun j e => if unmap_restores U j e
                   then (if (j <? i)%nat then zero_entry else clear_migrate e)
                   else e) src.

(** The indices below i the first loop sends to the restore loop. *)
Definition restored_upto (U : uenv) (src : list ventry) (i : nat) : list nat :=
  List.filter (fun j => match src !! j with
                        | Some e => unmap_restores U j e
                        | None => false
                        end) (seq 0 i).

Definition restored_indices (U : uenv) (src : list ventry) : list nat :=
  restored_upto U src (length src).

Definition unlocked_u (log : list uevent) : list nat :=
  flat_map (fun ev => match ev with U_unlock i => [i] | _ => [] end) log.

Definition released_u (log : list uevent) : list nat :=
  flat_map (fun ev => match ev with U_put i | U_putback i => [i] | _ => [] end) log.

End VmaUnmap.

(** Four entries: page 1 unmaps and passes the check; page 2 stays mapped;
    index 2 is empty; page 4 is a ZONE_DEVICE page that is not device
    private, which migrate_vma_check_page refuses. *)
Module VmaUnmapSamples.
Import Vma VmaUnmap.

Definition upage (id : nat) (zd : bool) : vpage := mkVPage id false zd false true false 1 1.
Definition unmap_env : uenv := mkUEnv (fun _ => true) (fun i => Nat.eqb i 1).
Definition unmap_src : list ventry :=
  [mkVEntry (Some (upage 1 false)) true true;
   mkVEntry (Some (upage 2 false)) true true;
   mkVEntry None false false;
   mkVEntry (Some (upage 4 true)) true true].

End VmaUnmapSamples.

(* ------------------------------------------------------------------------ *)
(** ** migrate_vma_pages *)
Module VmaPages.
Import Vma.

(** Per index: whether migrate_vma_insert_page gets through to
    [*src = MIGRATE_PFN_MIGRATE] (it aborts otherwise), and what
    migrate_page(mapping, newpage, page, MIGRATE_SYNC_NO_COPY) returns. *)
Record penv := mkPEnv {
  p_insert_ok : nat -> bool;
  p_migrate_rc : nat -> Z
}.

Inductive pevent :=
  | P_notify_start (i : nat)   (** mmu_notifier_invalidate_range_start from addr i *)
  | P_insert (i : nat)         (** migrate_vma_insert_page *)
  | P_migrate (i : nat)        (** migrate_page *)
  | P_notify_end.              (** mmu_notifier_invalidate_range_only_end *)

(** migrate->src, notified and what happens. *)
Definition pstate : Type := list ventry * bool * list pevent.

(** One iteration of the loop on index i. *)
Definition pages_entry (P : penv) (dst : list (option vpage)) (i : nat)
    (st : pstate) : pstate :=
  let '(src, notified, log) := st in
  match src !! i with
  | None => st
  | Some e =>
    match VmaFinalize.dst_at dst i with
    | None => (<[i := VmaUnmap.clear_migrate e]> src, notified, log)
    | Some n =>
      match v_page e with
      | None =>
          if negb (v_migrate e) then st
          else
            let ev0 := if notified then [] else [P_notify_start i] in
            (<[i := if p_insert_ok P i then mkVEntry None true false
                    else VmaUnmap.clear_migrate e]> src,
             true, log ++ ev0 ++ [P_insert i])
      | Some p =>
          if vp_zone_device n && (negb (vp_device_private n) || vp_has_mapping p) then
            (<[i := VmaUnmap.clear_migrate e]> src, notified, log)
          else
            (if Z.eqb (p_migrate_rc P i) MIGRATEPAGE_SUCCESS then src
             else <[i := VmaUnmap.clear_migrate e]> src,
             notified, log ++ [P_migrate i])
      end
    end
  end.

(** for (i = 0, addr = start; i < npages; addr += PAGE_SIZE, i++) *)
Fixpoint pages_loop (P : penv) (dst : list (option vpage)) (fuel i : nat)
    (st : pstate) : pstate :=
  match fuel with
  | O => st
  | S fuel' => pages_loop P dst fuel' (S i) (pages_entry P dst i st)
  end.

(** migrate_vma_pages: src afterwards and what happens, npages being the
    length of src. *)
Definition migrate_vma_pages (P : penv) (src : list ventry)
    (dst : list (option vpage)) : list ventry * list pevent :=
  let '(src', notified, log) := pages_loop P dst (length src) 0 (src, false, []) in
  (src', log ++ if notified then [P_notify_end] else []).

(** The indices where the loop inserts a page: no source page, a
    destination page, MIGRATE_PFN_MIGRATE set. *)
Definition inserts_upto (src : list ventry) (dst : list (option vpage)) (i : nat)
  : list nat :=
  List.filter (fun j => match src !! j, VmaFinalize.dst_at dst j with
                        | Some e, Some _ => match v_page e with
                                            | None => v_migrate e
                                            | Some _ => false
                                            end
                        | _, _ => false
                        end) (seq 0 i).

(** The indices where the loop calls migrate_page: a source and a
    destination page, the destination not a ZONE_DEVICE page other than a
    device private one taking an anonymous page. *)
Definition migrates_upto (src : list ventry) (dst : list (option vpage)) (i : nat)
  : list nat :=
  List.filter (fun j => match src !! j, VmaFinalize.dst_at dst j with
                        | Some e, Some n =>
                            match v_page e with
                            | Some p => negb (vp_zone_device n &&
                                              (negb (vp_device_private n) ||
                                               vp_has_mapping p))
                            | None => false
                            end
                        | _, _ => false
                        end) (seq 0 i).

(** The notifier and insertion events of a log, and the migrate_page calls. *)
Definition notify_trace (log : list pevent) : list pevent :=
  flat_map (fun ev => match ev with P_migrate _ => [] | _ => [ev] end) log.

Definition migrate_calls (log : list pevent) : list nat :=
  flat_map (fun ev => match ev with P_migrate j => [j] | _ => [] end) log.

(** The notifier trace of a loop that inserted at the indices ins: the
    range is opened at the first of them, before any insertion. *)
Definition opened_trace (ins : list nat) : list pevent :=
  match ins with
  | [] => []
  | k :: _ => P_notify_start k :: map P_insert ins
  end.

(** The entry the loop leaves at index j. *)
Definition pages_result (P : penv) (dst : list (option vpage)) (j : nat) (e : ventry)
  : ventry :=
  match VmaFinalize.dst_at dst j with
  | None => VmaUnmap.clear_migrate e
  | Some n =>
    match v_page e with
    | None =>
        if v_migrate e then
          (if p_insert_ok P j then mkVEntry None true false else VmaUnmap.clear_migrate e)
        else e
    | Some p =>
        if vp_zone_device n && (negb (vp_device_private n) || vp_has_mapping p) then
          VmaUnmap.clear_migrate e
        else if Z.eqb (p_migrate_rc P j) MIGRATEPAGE_SUCCESS then e
        else VmaUnmap.clear_migrate e
    end
  end.

Definition pages_mid (P : penv) (src : list ventry) (dst : list (option vpage)) (i : nat)
  : list ventry :=
  imap (fun j e => if (j <? i)%nat then pages_result P dst j e else e) src.

(** What the loop keeps before iteration i. *)
Definition pages_inv (P : penv) (src0 : list ventry) (dst : list (option vpage))
    (i : nat) (st : pstate) : Prop :=
  let '(s, nt, log) := st in
  s = pages_mid P src0 dst i /\
  nt = match inserts_upto src0 dst i with [] => false | _ => true end /\
  notify_trace log = opened_trace (inserts_upto src0 dst i) /\
  migrate_calls log = migrates_upto src0 dst i.

End VmaPages.

(* ------------------------------------------------------------------------ *)
(** ** add_page_for_migration *)
Module AddPage.

(** What add_page_for_migration reads of the page follow_page returns. *)
Record apage := mkAPage {
  ap_nid : Z;                  (** page_to_nid(page) *)
  ap_mapcount : Z;             (** page_mapcount(page) *)
  ap_huge : bool;              (** PageHuge(page) *)
  ap_head : bool;              (** PageHead(page) *)
  ap_isolate_rc : Z;           (** isolate_lru_page(compound_head(page)) *)
  ap_isolate_huge_ok : bool    (** isolate_huge_page(page, pagelist) *)
}.

(** follow_page(vma, addr, FOLL_GET | FOLL_DUMP): an error pointer, NULL or
    a page. *)
Inductive afollow :=
  | AErr (e : Z)
  | ANone
  | APage (p : apage).

(** find_vma: vm_start and vma_migratable of the VMA found. *)
Record aenv := mkAEnv {
  a_find_vma : Z -> option (Z * bool);
  a_follow_page : Z -> afollow
}.

Inductive aevent :=
  | A_isolate_huge (ok : bool)  (** isolate_huge_page(page, pagelist), which
                                   puts the page on the list when it returns
                                   true; add_page_for_migration ignores the
                                   result *)
  | A_isolate_lru              (** isolate_lru_page(head) *)
  | A_list_add                 (** list_add_tail(&head->lru, pagelist) *)
  | A_put_page.                (** put_page(page) *)

(** add_page_for_migration: the return value and what happens. *)
Definition add_page_for_migration (A : aenv) (addr node : Z) (migrate_all : bool)
  : Z * list aevent :=
  match a_find_vma A addr with
  | None => (- EFAULT, [])
  | Some (vm_start, migratable) =>
    if (addr <? vm_start) || negb migratable then (- EFAULT, [])
    else
      match a_follow_page A addr with
      | AErr e => (e, [])
      | ANone => (- ENOENT, [])
      | APage p =>
          if ap_nid p =? node then (0, [A_put_page])
          else if (1 <? ap_mapcount p) && negb migrate_all then (- EACCES, [A_put_page])
          else if ap_huge p then
            if ap_head p then (1, [A_isolate_huge (ap_isolate_huge_ok p); A_put_page])
            else (- EACCES, [A_put_page])
          else
            let err := ap_isolate_rc p in
            if negb (err =? 0) then (err, [A_isolate_lru; A_put_page])
            else (1, [A_isolate_lru; A_list_add; A_put_page])
      end
  end.

(** Whether an event puts the page on the page list. *)
Definition queues (ev : aevent) : bool :=
  match ev with A_isolate_huge ok => ok | A_list_add => true | _ => false end.

(** The page follow_page returns when the VMA checks pass. *)
Definition looked_up (A : aenv) (addr : Z) : option apage :=
  match a_find_vma A addr with
  | Some (vm_start, true) =>
      if addr <? vm_start then None
      else match a_follow_page A addr with APage p => Some p | _ => None end
  | _ => None
  end.

Definition is_put (ev : aevent) : bool :=
  match ev with A_put_page => true | _ => false end.

End AddPage.

Module AddPageSamples.
Import AddPage.

(** A VMA from 0x1000; at 0x2000 a page on node 0, at 0x3000 a hugetlb tail
    page on node 0 mapped once, at 0x4000 an error pointer (-ENOMEM), at
    0x5000 a hugetlb head page on node 0 that isolate_huge_page cannot
    take (it is not active, or its count is zero). *)
Definition tail_page : apage := mkAPage 0 1 true false 0 true.
Definition busy_huge_page : apage := mkAPage 0 1 true true 0 false.
Definition sample_aenv : aenv :=
  mkAEnv (fun addr => if 4096 <=? addr then Some (4096, true) else None)
         (fun addr => if addr =? 8192 then APage (mkAPage 0 1 false false 0 true)
                      else if addr =? 12288 then APage tail_page
                      else if addr =? 16384 then AErr (- ENOMEM)
                      else if addr =? 20480 then APage busy_huge_page
                      else ANone).

End AddPageSamples.

(* ------------------------------------------------------------------------ *)
(** ** isolate_movable_page and putback_movable_pages *)
Module Movable.

(** The state of a page these functions read and change. *)
Record mpage := mkMPage {
  mp_count : Z;               (** page_count *)
  mp_locked : bool;           (** PG_locked *)
  mp_isolated : bool;         (** PageIsolated *)
  mp_movable_bit : bool;      (** __PageMovable *)
  mp_movable : bool;          (** PageMovable *)
  mp_huge : bool              (** PageHuge *)
}.

Definition set_count (p : mpage) (c : Z) : mpage :=
  mkMPage c (mp_locked p) (mp_isolated p) (mp_movable_bit p) (mp_movable p) (mp_huge p).
Definition set_locked (p : mpage) (b : bool) : mpage :=
  mkMPage (mp_count p) b (mp_isolated p) (mp_movable_bit p) (mp_movable p) (mp_huge p).
Definition set_isolated (p : mpage) (b : bool) : mpage :=
  mkMPage (mp_count p) (mp_locked p) b (mp_movable_bit p) (mp_movable p) (mp_huge p).

Definition put_page (p : mpage) : mpage := set_count p (mp_count p - 1).

(** __ClearPageMovable by the driver when it releases an isolated page:
    PageMovable goes, __PageMovable stays. *)
Definition set_movable (p : mpage) (b : bool) : mpage :=
  mkMPage (mp_count p) (mp_locked p) (mp_isolated p) (mp_movable_bit p) b (mp_huge p).

(** What isolate_movable_page does to the page, in order. *)
Inductive isoevent :=
  | ISO_get_page              (** get_page_unless_zero took a reference *)
  | ISO_lock                  (** trylock_page succeeded *)
  | ISO_isolate_page          (** mapping->a_ops->isolate_page *)
  | ISO_unlock                (** unlock_page *)
  | ISO_put_page.             (** put_page *)

(** isolate_movable_page; [isolate_ok] is what the driver's
    a_ops->isolate_page returns. trylock_page fails on a locked page. *)
Definition isolate_movable_page (isolate_ok : bool) (p : mpage)
  : Z * mpage * list isoevent :=
  if mp_count p =? 0 then (- EBUSY, p, [])               (* get_page_unless_zero *)
  else
    let p1 := set_count p (mp_count p + 1) in
    if negb (mp_movable_bit p1) then
      (- EBUSY, put_page p1, [ISO_get_page; ISO_put_page])          (* out_putpage *)
    else if mp_locked p1 then
      (- EBUSY, put_page p1, [ISO_get_page; ISO_put_page])          (* trylock_page *)
    else
      let p2 := set_locked p1 true in
      if negb (mp_movable p2) || mp_isolated p2 then
        (- EBUSY, put_page (set_locked p2 false),
         [ISO_get_page; ISO_lock; ISO_unlock; ISO_put_page])         (* out_no_isolated *)
      else if negb isolate_ok then
        (- EBUSY, put_page (set_locked p2 false),
         [ISO_get_page; ISO_lock; ISO_isolate_page; ISO_unlock; ISO_put_page])
      else (0, set_locked (set_isolated p2 true) false,
            [ISO_get_page; ISO_lock; ISO_isolate_page; ISO_unlock]).

Inductive pbevent :=
  | PB_hugepage               (** putback_active_hugepage *)
  | PB_putback_page           (** mapping->a_ops->putback_page *)
  | PB_lru.                   (** putback_lru_page *)

(** The body of the loop of putback_movable_pages for one page. *)
Definition putback_one (p : mpage) : mpage * list pbevent :=
  if mp_huge p then (p, [PB_hugepage])
  else if mp_movable_bit p then
    let p1 := set_locked p true in
    let ev := if mp_movable p1 then [PB_putback_page] else [] in
    let p2 := set_isolated p1 false in
    (put_page (set_locked p2 false), ev)
  else (p, [PB_lru]).

(** putback_movable_pages: the pages afterwards and what happens, in list
    order. *)
Definition putback_movable_pages (l : list mpage) : list mpage * list pbevent :=
  (map (fun p => fst (putback_one p)) l, flat_map (fun p => snd (putback_one p)) l).

End Movable.

(* ------------------------------------------------------------------------ *)
(** ** move_to_new_page *)
Module MoveNew.

(** The state of the old page move_to_new_page reads and changes. *)
Record npage := mkNPage {
  np_movable_bit : bool;      (** __PageMovable *)
  np_movable : bool;          (** PageMovable *)
  np_isolated : bool;         (** PageIsolated *)
  np_mapping : option bool;   (** page_mapping(page): NULL, or a mapping
                                  whose a_ops->migratepage is set (true) *)
  np_mapping_flags : bool;    (** PageMappingFlags *)
  np_raw_mapping : bool       (** page->mapping != NULL *)
}.

Definition set_isolated (p : npage) (b : bool) : npage :=
  mkNPage (np_movable_bit p) (np_movable p) b (np_mapping p)
    (np_mapping_flags p) (np_raw_mapping p).
Definition clear_mapping (p : npage) : npage :=
  mkNPage (np_movable_bit p) (np_movable p) (np_isolated p) (np_mapping p)
    (np_mapping_flags p) false.

(** The codes the three migration routines return. *)
Record mvenv := mkMvEnv {
  mv_migrate_page : Z;        (** migrate_page *)
  mv_a_ops_migratepage : Z;   (** mapping->a_ops->migratepage *)
  mv_fallback : Z             (** fallback_migrate_page *)
}.

Inductive mvevent :=
  | MV_migrate_page
  | MV_a_ops_migratepage
  | MV_fallback
  | MV_flush_dcache.          (** flush_dcache_page(newpage) *)

(** move_to_new_page: the code, the old page afterwards and the calls, in
    order. [newpage_zone_device] is is_zone_device_page(newpage). *)
Definition move_to_new_page (E : mvenv) (newpage_zone_device : bool)
    (p : npage) : Z * npage * list mvevent :=
  let is_lru := negb (np_movable_bit p) in
  if negb is_lru && negb (np_movable p) then
    (MIGRATEPAGE_SUCCESS, set_isolated p false, [])          (* goto out *)
  else
    let '(rc, ev) :=
      if is_lru then
        match np_mapping p with
        | None => (mv_migrate_page E, [MV_migrate_page])
        | Some true => (mv_a_ops_migratepage E, [MV_a_ops_migratepage])
        | Some false => (mv_fallback E, [MV_fallback])
        end
      else (mv_a_ops_migratepage E, [MV_a_ops_migratepage]) in
    if rc =? MIGRATEPAGE_SUCCESS then
      let p1 := if np_movable_bit p then set_isolated p false else p in
      let p2 := if np_mapping_flags p1 then p1 else clear_mapping p1 in
      (rc, p2, ev ++ (if newpage_zone_device then [] else [MV_flush_dcache]))
    else (rc, p, ev).

(** The migration routines called. *)
Definition is_migration_call (e : mvevent) : bool :=
  match e with MV_flush_dcache => false | _ => true end.

End MoveNew.

(* ------------------------------------------------------------------------ *)
(** ** kernel_move_pages *)
Module MovePages.

Definition EPERM : Z := 1.
Definition ESRCH : Z := 3.
Definition EINVAL : Z := 22.

(** What kernel_move_pages finds out about the caller and the target task.
    The MPOL_MF_* flag values live in the uapi headers; [k_valid_flags] is
    MPOL_MF_MOVE|MPOL_MF_MOVE_ALL|MPOL_MF_MOVE_DMA|MPOL_MF_MOVE_MT|
    MPOL_MF_MOVE_CONCUR and [k_move_all] is MPOL_MF_MOVE_ALL. *)
Record kenv := mkKEnv {
  k_valid_flags : Z;
  k_move_all : Z;
  k_capable_sys_nice : bool;      (** capable(CAP_SYS_NICE) *)
  k_find_task : Z -> bool;        (** find_task_by_vpid(pid) != NULL *)
  k_ptrace_may_access : bool;
  k_security : Z;                 (** security_task_movememory *)
  k_has_mm : bool;                (** get_task_mm(task) != NULL *)
  k_pages_move_rc : Z;            (** do_pages_move *)
  k_pages_stat_rc : Z             (** do_pages_stat *)
}.

Inductive kevent :=
  | K_rcu_read_lock
  | K_rcu_read_unlock
  | K_get_task                    (** get_task_struct *)
  | K_put_task                    (** put_task_struct *)
  | K_get_mm                      (** the reference get_task_mm takes *)
  | K_mmput
  | K_do_pages_move
  | K_do_pages_stat.

#[global] Instance kevent_eq_dec : EqDecision kevent.
Proof. solve_decision. Defined.

(** kernel_move_pages; [nodes] is nodes != NULL. The profiling code under
    CONFIG_PAGE_MIGRATION_PROFILE only records time stamps and is left out. *)
Definition kernel_move_pages (K : kenv) (pid : Z) (nodes : bool) (flags : Z)
  : Z * list kevent :=
  if negb (Z.land flags (Z.lnot (k_valid_flags K)) =? 0) then (- EINVAL, [])
  else if negb (Z.land flags (k_move_all K) =? 0) && negb (k_capable_sys_nice K)
  then (- EPERM, [])
  else
    let task_found := if pid =? 0 then true else k_find_task K pid in
    if negb task_found then (- ESRCH, [K_rcu_read_lock; K_rcu_read_unlock])
    else
      let ev := [K_rcu_read_lock; K_get_task] in
      if negb (k_ptrace_may_access K) then
        (- EPERM, ev ++ [K_rcu_read_unlock; K_put_task])          (* goto out *)
      else
        let ev := ev ++ [K_rcu_read_unlock] in
        let err := k_security K in
        if negb (err =? 0) then (err, ev ++ [K_put_task])           (* goto out *)
        else
          let ev := ev ++ (if k_has_mm K then [K_get_mm] else []) ++ [K_put_task] in
          if negb (k_has_mm K) then (- EINVAL, ev)
          else if nodes then (k_pages_move_rc K, ev ++ [K_do_pages_move; K_mmput])
          else (k_pages_stat_rc K, ev ++ [K_do_pages_stat; K_mmput]).

(** The number of times [e] occurs in a trace. *)
Definition occurrences (e : kevent) (ev : list kevent) : nat :=
  length (List.filter (fun x => if decide (x = e) then true else false) ev).

(** The RCU read-side sections of a trace are closed and never nested. *)
Fixpoint rcu_balanced (inside : bool) (ev : list kevent) : bool :=
  match ev with
  | [] => negb inside
  | K_rcu_read_lock :: ev' => negb inside && rcu_balanced true ev'
  | K_rcu_read_unlock :: ev' => inside && rcu_balanced false ev'
  | _ :: ev' => rcu_balanced inside ev'
  end.

End MovePages.

(* ------------------------------------------------------------------------ *)
(** ** migrate_vma_collect_hole, migrate_vma_collect_skip and the end
    migrate_vma_collect computes *)
Module VmaCollect.
Import VmaSetup.

(** (1UL << 1), from include/linux/migrate.h. *)
Definition MIGRATE_PFN_MIGRATE : Z := 2.

(** The fields of struct migrate_vma the page walk callbacks fill in: the
    src and dst arrays (allocated by the caller) and the two counters. *)
Record cstate := mkCState {
  c_src : list Z;
  c_dst : list Z;
  c_npages : Z;
  c_cpages : Z
}.

(** The body of the loop of migrate_vma_collect_hole. *)
Definition hole_step (st : cstate) : cstate :=
  let n := Z.to_nat (c_npages st) in
  mkCState (<[n := MIGRATE_PFN_MIGRATE]> (c_src st)) (<[n := 0]> (c_dst st))
    (ulong (c_npages st + 1)) (ulong (c_cpages st + 1)).

(** The body of the loop of migrate_vma_collect_skip. *)
Definition skip_step (st : cstate) : cstate :=
  let n := Z.to_nat (c_npages st) in
  mkCState (<[n := 0]> (c_src st)) (<[n := 0]> (c_dst st))
    (ulong (c_npages st + 1)) (c_cpages st).

(** for (addr = start; addr < end; addr += PAGE_SIZE) body; *)
Fixpoint page_loop (body : cstate -> cstate) (fuel : nat) (addr end_ : Z)
    (st : cstate) : cstate :=
  match fuel with
  | O => st
  | S fuel' =>
      if addr <? end_ then page_loop body fuel' (ulong (addr + PAGE_SIZE)) end_ (body st)
      else st
  end.

(** The number of rounds of that loop when addr does not wrap around, which
    holds for the ranges the page walk hands to the callbacks (they lie in
    [migrate->start, migrate->end), both masked with PAGE_MASK). *)
Definition loop_rounds (start end_ : Z) : nat :=
  Z.to_nat ((end_ - start + PAGE_SIZE - 1) / PAGE_SIZE).

Definition migrate_vma_collect_hole (start end_ : Z) (st : cstate) : Z * cstate :=
  (0, page_loop hole_step (loop_rounds start end_) start end_ st).

Definition migrate_vma_collect_skip (start end_ : Z) (st : cstate) : Z * cstate :=
  (0, page_loop skip_step (loop_rounds start end_) start end_ st).

(** The last line of migrate_vma_collect:
    migrate->end = migrate->start + (migrate->npages << PAGE_SHIFT). *)
Definition collect_end (start npages : Z) : Z :=
  ulong (start + ulong (Z.shiftl npages PAGE_SHIFT)).

(** A call the page walk makes to one of the two callbacks. *)
Inductive wcall :=
  | W_hole (s e : Z)
  | W_skip (s e : Z).

Definition run_call (st : cstate) (c : wcall) : cstate :=
  match c with
  | W_hole s e => snd (migrate_vma_collect_hole s e st)
  | W_skip s e => snd (migrate_vma_collect_skip s e st)
  end.

Definition run_calls (cs : list wcall) (st : cstate) : cstate :=
  fold_left run_call cs st.

(** The calls cover [start, end) in order with page-aligned pieces. *)
Fixpoint covers (start end_ : Z) (cs : list wcall) : Prop :=
  match cs with
  | [] => start = end_
  | (W_hole s e | W_skip s e) :: cs' =>
      s = start /\ s <= e /\ e mod PAGE_SIZE = 0 /\ covers e end_ cs'
  end.

(** The pages of the hole pieces. *)
Definition hole_pages (cs : list wcall) : Z :=
  fold_right (fun c acc => match c with
                           | W_hole s e => (e - s) / PAGE_SIZE + acc
                           | W_skip _ _ => acc
                           end) 0 cs.

End VmaCollect.

Module VmaCollectSamples.
Import VmaCollect.

(** Arrays of four entries, one entry already collected. *)
Definition collect_sample : cstate := mkCState [7; 7; 7; 7] [7; 7; 7; 7] 1 0.

(** A walk of [4096, 16384): a hole, a skipped page, a hole. *)
Definition sample_walk : list wcall :=
  [W_hole 4096 8192; W_skip 8192 12288; W_hole 12288 16384].

Definition empty_collect : cstate := mkCState [7; 7; 7] [7; 7; 7] 0 0.

End VmaCollectSamples.

(* ------------------------------------------------------------------------ *)
(** ** Concrete inputs used by the witnesses and counterexamples *)
Module Samples.
Import Swap.

(** A page-cache THP: one slot per subpage, all holding page 1. *)
Definition thp_cache : address_space :=
  mkAS (store_run empty 0 (Z.to_nat HPAGE_PMD_NR) 1%nat).

Definition thp_old : page :=
  mkPage 1 (1 + HPAGE_PMD_NR) 0 7 0 false false false false false true.

Definition thp_new : page :=
  mkPage 2 1 0 0 0 false false false false false true.

(** A mapped base page holding one slot, with count 2. *)
Definition base_cache : address_space := mkAS {[ 5 := 3%nat ]}.

Definition base_old : page :=
  mkPage 3 2 5 9 0 false false false true false false.

Definition base_new : page :=
  mkPage 4 1 0 0 0 false false false false false false.

(** An offload that always fails after scribbling over its destination. *)
Definition failing_offload : Copy.offload :=
  Copy.mkOffload
    (fun dst src n m => (- EFAULT, fun q => if (dst <=? q)%nat && (q <? dst + n)%nat
                                          then 0 else m q))
    (fun dst src n m => (- EFAULT, fun q => if (dst <=? q)%nat && (q <? dst + n)%nat
                                          then 0 else m q)).

(** A THP at pfn 0 and its destination at pfn 1000. *)
Definition thp_src : Copy.cpage := Copy.mkCPage 0 false true 0.
Definition thp_dst : Copy.cpage := Copy.mkCPage 1000 false true 0.

(** A gigantic (1 GB) hugetlbfs page: 262144 base pages. *)
Definition giga_src : Copy.cpage := Copy.mkCPage 0 true false (Z.to_nat 262144).
Definition giga_dst : Copy.cpage :=
  Copy.mkCPage (Z.to_nat 300000) true false (Z.to_nat 262144).

Definition plain_mode : migrate_mode := mkMode MIGRATE_SYNC false false.

Definition empty_cstate : Copy.cstate := Copy.mkCState (fun q => Z.of_nat q) [].

End Samples.

(** Concrete inputs of the migration engines. *)
Module EngineSamples.
Import Engine.


(** An anonymous base page with two references, and a second one. *)
Definition anon1 : epage := mkEPage 1 2 false false false false.

(** Every lock and allocation succeeds and every move completes. *)
Definition ok_env : env :=
  mkEnv true false (fun _ _ => true) (fun _ _ => true)
    (fun _ _ => MIGRATEPAGE_SUCCESS) (fun _ => true)
    (fun _ _ => MIGRATEPAGE_SUCCESS) (fun _ => 0) (fun _ => []).



Definition ok_cenv : cenv :=
  mkCEnv (fun _ => true) (fun _ => MIGRATEPAGE_SUCCESS) (fun _ => true) false.



(** A page mapped by a file. *)
Definition file_page : epage := mkEPage 3 3 false false false true.

End EngineSamples.

(** Concrete inputs of do_pages_move. *)
Module SyscallSamples.
Import Syscall.



End SyscallSamples.

(* ======================================================================== *)
(** * Theorems *)

(** ** Identity swap *)
Section SwapProofs.
Import Swap Samples.

Lemma store_run_lookup (s : gmap Z nat) (idx : Z) (n : nat) (id : nat) (j : Z) :
  store_run s idx n id !! j =
  if bool_decide (idx <= j < idx + Z.of_nat n) then Some id else s !! j.
Proof.
  revert s idx. induction n as [|n IH]; intros s idx; simpl.
  - rewrite bool_decide_false by lia. reflexivity.
  - rewrite IH, lookup_insert.
    destruct (decide (idx = j)) as [->|Hne].
    + rewrite (bool_decide_true (j <= j < _)) by lia.
      destruct (bool_decide _); reflexivity.
    + destruct (bool_decide_reflect (idx + 1 <= j < idx + 1 + Z.of_nat n)).
      * rewrite bool_decide_true by lia. reflexivity.
      * rewrite bool_decide_false by lia. reflexivity.
Qed.

(** C1: with no address-space mapping, migrate_page_move_mapping checks
    page_count(page) against 1 + is_device_private_page(page) + extra_count;
    on equality it copies index and mapping to the new page, sets its
    swap-backed flag when the old page has it, leaves the old page alone and
    returns MIGRATEPAGE_SUCCESS; otherwise it returns -EAGAIN with both pages
    unchanged. *)
Theorem move_mapping_anon_identity (newpage p : page) (extra ext : Z) :
  let expected := 1 + Z.b2z (pg_device_private p) + extra in
  let r := migrate_page_move_mapping None newpage p extra ext in
  (pg_count p = expected ->
     r_rc r = MIGRATEPAGE_SUCCESS /\
     pg_index (r_newpage r) = pg_index p /\
     pg_mapping (r_newpage r) = pg_mapping p /\
     pg_swapbacked (r_newpage r) = pg_swapbacked newpage || pg_swapbacked p /\
     r_newpage r = copy_identity newpage p /\
     r_page r = p) /\
  (pg_count p <> expected ->
     r_rc r = - EAGAIN /\ r_newpage r = newpage /\ r_page r = p).
Proof.
  cbn zeta. unfold migrate_page_move_mapping, expected_page_refs.
  replace (1 + Z.b2z (pg_device_private p) + 0 + extra)
    with (1 + Z.b2z (pg_device_private p) + extra) by lia.
  split; intros H.
  - rewrite H, Z.eqb_refl. simpl. repeat split.
  - apply Z.eqb_neq in H. rewrite H. simpl. repeat split.
Qed.

(** C2 (counterexample): for a page-cache THP the swap succeeds but the old
    page is unfrozen to expected - HPAGE_PMD_NR = 1, not to expected - 1. *)
Lemma move_mapping_thp_unfreeze_counterexample :
  let r := migrate_page_move_mapping (Some thp_cache) thp_new thp_old 0 0 in
  r_rc r = MIGRATEPAGE_SUCCESS /\
  pg_count (r_page r) = 1 /\
  pg_count (r_page r) <> expected_page_refs (Some thp_cache) thp_old + 0 - 1.
Proof. vm_compute. split; [reflexivity|split; [reflexivity|discriminate]]. Qed.

(** C2 (amended): when migrate_page_move_mapping succeeds on a mapped page,
    every offset index .. index + hpage_nr_pages(page) - 1 of the page cache
    holds the new page and the old page is unfrozen to
    expected - hpage_nr_pages(page): one less than expected for a base page,
    HPAGE_PMD_NR less for a THP (one page-cache reference per subpage).
    migrate_huge_page_move_mapping (hugetlbfs) unfreezes to expected - 1. *)
Theorem move_mapping_unfreeze (m : address_space) (newpage p : page)
    (extra ext : Z)
    (Hok : r_rc (migrate_page_move_mapping (Some m) newpage p extra ext)
           = MIGRATEPAGE_SUCCESS) :
  let r := migrate_page_move_mapping (Some m) newpage p extra ext in
  pg_count (r_page r) = expected_page_refs (Some m) p + extra - hpage_nr_pages p /\
  (pg_transhuge p = false ->
     pg_count (r_page r) = expected_page_refs (Some m) p + extra - 1) /\
  (forall k, 0 <= k < hpage_nr_pages p ->
     exists m', r_mapping r = Some m' /\
                i_pages m' !! (pg_index p + k) = Some (pg_id newpage)) /\
  (forall (hm : address_space) (hnew hp : page) (hext : Z),
     fst (fst (fst (migrate_huge_page_move_mapping hm hnew hp hext)))
       = MIGRATEPAGE_SUCCESS ->
     pg_count (snd (fst (migrate_huge_page_move_mapping hm hnew hp hext)))
       = 2 + Z.b2z (pg_has_private hp) - 1).
Proof.
  cbn zeta. revert Hok. unfold migrate_page_move_mapping.
  destruct (negb (pg_count p =? _) || _) eqn:E1; simpl; [intros H; discriminate H|].
  destruct (negb (pg_count p + ext =? _)) eqn:E2; simpl; [intros H; discriminate H|].
  intros _. split; [reflexivity|]. split.
  - intros Ht. unfold hpage_nr_pages. rewrite Ht. reflexivity.
  - split.
    + intros k Hk. eexists. split; [reflexivity|]. simpl.
      unfold store_slots. rewrite store_run_lookup.
      rewrite bool_decide_true; [reflexivity|].
      unfold hpage_nr_pages in Hk. destruct (pg_transhuge p);
        unfold HPAGE_PMD_NR in *; simpl; lia.
    + intros hm hnew hp hext. unfold migrate_huge_page_move_mapping.
      destruct (negb (pg_count hp =? _) || _); simpl; [intros H; discriminate H|].
      destruct (negb (pg_count hp + hext =? _)); simpl;
        [intros H; discriminate H|reflexivity].
Qed.

Lemma move_mapping_unfreeze_witness :
  r_rc (migrate_page_move_mapping (Some base_cache) base_new base_old 0 0)
    = MIGRATEPAGE_SUCCESS /\
  pg_count (r_page (migrate_page_move_mapping (Some base_cache) base_new base_old 0 0))
    = expected_page_refs (Some base_cache) base_old + 0 - hpage_nr_pages base_old.
Proof.
  assert (H : r_rc (migrate_page_move_mapping (Some base_cache) base_new base_old 0 0)
              = MIGRATEPAGE_SUCCESS) by (vm_compute; reflexivity).
  split; [exact H|].
  exact (proj1 (move_mapping_unfreeze base_cache base_new base_old 0 0 H)).
Defined.

(** C3: for a mapped page, migrate_page_move_mapping returns either
    MIGRATEPAGE_SUCCESS or -EAGAIN; it returns -EAGAIN exactly when the count
    differs from the expected value, the slot does not hold the page, or the
    freeze cmpxchg finds another count; on that path the page cache is left
    as it was, the new page is untouched and the old page keeps its count
    (the one seen, possibly moved by the concurrent holder [ext]), never
    frozen and with no attribute changed. *)
Theorem move_mapping_failure_atomic (m : address_space) (newpage p : page)
    (extra ext : Z) :
  let expected := expected_page_refs (Some m) p + extra in
  let r := migrate_page_move_mapping (Some m) newpage p extra ext in
  (r_rc r = MIGRATEPAGE_SUCCESS \/ r_rc r = - EAGAIN) /\
  (r_rc r = - EAGAIN <->
     pg_count p <> expected \/ i_pages m !! pg_index p <> Some (pg_id p) \/
     pg_count p + ext <> expected) /\
  (r_rc r = - EAGAIN ->
     r_mapping r = Some m /\ r_newpage r = newpage /\
     (r_page r = p \/ r_page r = set_count p (pg_count p + ext))).
Proof.
  cbn zeta. unfold migrate_page_move_mapping.
  destruct (pg_count p =? expected_page_refs (Some m) p + extra) eqn:E1;
  [apply Z.eqb_eq in E1 | apply Z.eqb_neq in E1]; simpl.
  - destruct (bool_decide_reflect (i_pages m !! pg_index p = Some (pg_id p)))
      as [Hs|Hs]; simpl.
    + destruct (pg_count p + ext =? expected_page_refs (Some m) p + extra) eqn:E2;
      [apply Z.eqb_eq in E2 | apply Z.eqb_neq in E2]; simpl.
      * split; [left; reflexivity|]. split.
        -- split; [unfold EAGAIN, MIGRATEPAGE_SUCCESS; lia|].
           intros [H|[H|H]]; contradiction.
        -- unfold EAGAIN, MIGRATEPAGE_SUCCESS; lia.
      * split; [right; reflexivity|]. split.
        -- split; [intros _; right; right; exact E2|reflexivity].
        -- intros _. repeat split. right. reflexivity.
    + split; [right; reflexivity|]. split.
      * split; [intros _; right; left; exact Hs|reflexivity].
      * intros _. repeat split. left. reflexivity.
  - split; [right; reflexivity|]. split.
    + split; [intros _; left; exact E1|reflexivity].
    + intros _. repeat split. left. reflexivity.
Qed.

End SwapProofs.

(** ** Content transfer *)
Section CopyProofs.
Import Copy.

(** The offload routines may leave any memory, but they write only the
    destination range, and an rc of 0 means the range was copied. *)
Definition offload_contract (f : nat -> nat -> nat -> memory -> Z * memory) : Prop :=
  forall dst src n m rc m', f dst src n m = (rc, m') ->
    (forall q, ~ (dst <= q < dst + n)%nat -> m' q = m q) /\
    (rc = 0 -> forall i, (i < n)%nat -> m' (dst + i)%nat = m (src + i)%nat).

(** Every failing offload call in [l] is followed, in [l], by a
    copy_highpage of each member it covered. *)
Definition falls_back (l : list event) : Prop :=
  forall d s k rc, (In (Ev_mt d s k rc) l \/ In (Ev_dma d s k rc) l) -> rc <> 0 ->
    forall i, (i < k)%nat -> In (Ev_highpage (d + i) (s + i)) l.

Lemma falls_back_app (l1 l2 : list event) :
  falls_back l1 -> falls_back l2 -> falls_back (l1 ++ l2).
Proof.
  intros H1 H2 d s k rc Hin Hrc i Hi. apply in_or_app.
  destruct Hin as [Hin|Hin]; apply in_app_or in Hin; destruct Hin as [Hin|Hin].
  - left. eapply H1; eauto.
  - right. eapply H2; eauto.
  - left. eapply H1; eauto.
  - right. eapply H2; eauto.
Qed.

Lemma falls_back_highpages (l : list event) :
  (forall e, In e l -> exists d s, e = Ev_highpage d s) -> falls_back l.
Proof.
  intros H d s k rc [Hin|Hin]; destruct (H _ Hin) as (? & ? & E); discriminate E.
Qed.

Lemma copy_loop_log (dst src n : nat) (st : cstate) :
  exists l, c_log (copy_loop dst src n st) = c_log st ++ l /\
    (forall i, (i < n)%nat -> In (Ev_highpage (dst + i) (src + i)) l) /\
    (forall e, In e l -> exists d s, e = Ev_highpage d s).
Proof.
  revert dst src st. induction n as [|n IH]; intros dst src st; simpl.
  - exists []. rewrite app_nil_r. split; [reflexivity|]. split; [intros; lia|].
    intros e [].
  - destruct (IH (S dst) (S src) (copy_highpage dst src st)) as (l & E & Hin & Hall).
    exists (Ev_highpage dst src :: l). split.
    + rewrite E. simpl. rewrite <- app_assoc. reflexivity.
    + split.
      * intros [|i] Hi.
        -- left. f_equal; lia.
        -- right. replace (dst + S i)%nat with (S dst + i)%nat by lia.
           replace (src + S i)%nat with (S src + i)%nat by lia. apply Hin. lia.
      * intros e [<-|He]; [eauto|auto].
Qed.

Lemma copy_loop_mem (dst src n : nat) (st : cstate) (q : nat) :
  (forall i j, (i < n)%nat -> (j < n)%nat -> (dst + i <> src + j)%nat) ->
  c_mem (copy_loop dst src n st) q =
  if (dst <=? q)%nat && (q <? dst + n)%nat then c_mem st (src + (q - dst))%nat
  else c_mem st q.
Proof.
  revert dst src st. induction n as [|n IH]; intros dst src st Hd; simpl.
  - destruct ((dst <=? q)%nat && (q <? dst + 0)%nat) eqn:E; [|reflexivity].
    apply andb_true_iff in E. destruct E as [E1 E].
    apply Nat.leb_le in E1. apply Nat.ltb_lt in E. lia.
  - rewrite IH.
    + unfold copy_highpage; cbn [c_mem].
      repeat match goal with
      | |- context [(?a <=? ?b)%nat] => destruct (Nat.leb_spec a b)
      | |- context [(?a <? ?b)%nat] => destruct (Nat.ltb_spec a b)
      | |- context [(?a =? ?b)%nat] => destruct (Nat.eqb_spec a b)
      end; simpl; try lia; try (f_equal; lia).
      exfalso. apply (Hd 0%nat (q - dst)%nat); lia.
    + intros i j Hi Hj. specialize (Hd (S i) (S j)). lia.
Qed.

Definition disjoint_ranges (dst src n : nat) : Prop :=
  forall i j, (i < n)%nat -> (j < n)%nat -> (dst + i <> src + j)%nat.

(** One frame copied, then a shifted copy of the rest: a full copy. *)
Lemma shifted_copy (mem0 mem1 F : memory) (dst src n : nat) :
  disjoint_ranges dst src (S n) ->
  (forall q, mem1 q = if (q =? dst)%nat then mem0 src else mem0 q) ->
  (forall q, F q = if (S dst <=? q)%nat && (q <? S dst + n)%nat
                   then mem1 (S src + (q - S dst))%nat else mem1 q) ->
  forall q, F q = if (dst <=? q)%nat && (q <? dst + S n)%nat
                  then mem0 (src + (q - dst))%nat else mem0 q.
Proof.
  intros Hd H1 HF q. rewrite HF, !H1.
  repeat match goal with
  | |- context [(?a <=? ?b)%nat] => destruct (Nat.leb_spec a b)
  | |- context [(?a <? ?b)%nat] => destruct (Nat.ltb_spec a b)
  | |- context [(?a =? ?b)%nat] => destruct (Nat.eqb_spec a b)
  end; simpl; try lia; try (f_equal; lia).
  exfalso. apply (Hd 0%nat (q - dst)%nat); lia.
Qed.

Lemma disjoint_ranges_S (dst src n : nat) :
  disjoint_ranges dst src (S n) -> disjoint_ranges (S dst) (S src) n.
Proof. intros Hd i j Hi Hj. specialize (Hd (S i) (S j)). lia. Qed.

Section Offload.
Variable o : offload.
Hypothesis Hmt : offload_contract (copy_page_multithread o).
Hypothesis Hdma : offload_contract (copy_page_dma o).

(** One iteration of the gigantic loop leaves frame [dst] holding the source
    frame and every other frame as it was. *)
Lemma gigantic_step_mem (mode : migrate_mode) (dst src : nat) (rc : Z)
    (st : cstate) :
  src <> dst -> (m_dma mode = true \/ rc <> 0) ->
  let step := if m_dma mode then call_dma o dst src 1 st else (rc, st) in
  (m_dma mode = true \/ fst step <> 0) /\
  forall q, c_mem (if negb (fst step =? 0) then copy_highpage dst src (snd step)
                   else snd step) q
            = if (q =? dst)%nat then c_mem st src else c_mem st q.
Proof.
  intros Hsd Hinv step. subst step. destruct (m_dma mode) eqn:Edma.
  - split; [left; reflexivity|]. intros q.
    unfold call_dma. destruct (copy_page_dma o dst src 1 (c_mem st)) as [rc1 m1]
      eqn:E. destruct (Hdma _ _ _ _ _ _ E) as [Hfr Hok]. simpl.
    destruct (rc1 =? 0) eqn:Erc; simpl.
    + apply Z.eqb_eq in Erc. destruct (Nat.eqb_spec q dst) as [->|Hq].
      * pose proof (Hok Erc 0%nat ltac:(lia)) as H0.
        rewrite !Nat.add_0_r in H0. exact H0.
      * apply Hfr. lia.
    + unfold copy_highpage; simpl. destruct (Nat.eqb_spec q dst); apply Hfr; lia.
  - destruct Hinv as [Hc|Hrc]; [discriminate Hc|]. simpl.
    split; [right; exact Hrc|]. intros q.
    apply Z.eqb_neq in Hrc. rewrite Hrc. reflexivity.
Qed.

Lemma gigantic_loop_mem (mode : migrate_mode) (dst src n : nat) (rc : Z)
    (st : cstate) :
  disjoint_ranges dst src n -> (m_dma mode = true \/ rc <> 0) ->
  forall q, c_mem (gigantic_loop o mode dst src n rc st) q =
    if (dst <=? q)%nat && (q <? dst + n)%nat then c_mem st (src + (q - dst))%nat
    else c_mem st q.
Proof.
  revert dst src rc st. induction n as [|n IH]; intros dst src rc st Hd Hinv q.
  - simpl. repeat match goal with
    | |- context [(?a <=? ?b)%nat] => destruct (Nat.leb_spec a b)
    | |- context [(?a <? ?b)%nat] => destruct (Nat.ltb_spec a b)
    end; simpl; try reflexivity; lia.
  - assert (Hsd : src <> dst) by (intro; apply (Hd 0%nat 0%nat); lia).
    destruct (gigantic_step_mem mode dst src rc st Hsd Hinv) as [Hinv' Hst].
    cbn [gigantic_loop].
    destruct (if m_dma mode then call_dma o dst src 1 st else (rc, st))
      as [rc1 st1] eqn:Estep.
    simpl in Hinv', Hst.
    eapply shifted_copy; [exact Hd|exact Hst|].
    intros q'. apply IH; [apply disjoint_ranges_S; exact Hd|exact Hinv'].
Qed.

Lemma gigantic_loop_log (mode : migrate_mode) (dst src n : nat) (rc : Z)
    (st : cstate) :
  exists l, c_log (gigantic_loop o mode dst src n rc st) = c_log st ++ l /\
    falls_back l /\
    (m_dma mode = false -> forall e, In e l -> exists d s, e = Ev_highpage d s).
Proof.
  revert dst src rc st. induction n as [|n IH]; intros dst src rc st; simpl.
  - exists []. rewrite app_nil_r. split; [reflexivity|]. split.
    + apply falls_back_highpages. intros e [].
    + intros _ e [].
  - destruct (m_dma mode) eqn:Edma.
    + unfold call_dma. destruct (copy_page_dma o dst src 1 (c_mem st)) as [rc1 m1].
      set (st1 := mkCState m1 (c_log st ++ [Ev_dma dst src 1 rc1])).
      set (l1 := if negb (rc1 =? 0) then [Ev_dma dst src 1 rc1; Ev_highpage dst src]
                 else [Ev_dma dst src 1 rc1]).
      destruct (IH (S dst) (S src) rc1
                  (if negb (rc1 =? 0) then copy_highpage dst src st1 else st1))
        as (l & E & Hfb & _).
      exists (l1 ++ l). split.
      * rewrite E. subst l1 st1. destruct (negb (rc1 =? 0)); simpl;
          rewrite <- !app_assoc; reflexivity.
      * split; [|intros H; discriminate H].
        apply falls_back_app; [|exact Hfb].
        intros d s k rc' Hin Hrc i Hi. subst l1.
        destruct (rc1 =? 0) eqn:Erc; simpl in *.
        -- destruct Hin as [[H|[]]|[H|[]]]; try discriminate H.
           injection H as <- <- <- <-. apply Z.eqb_eq in Erc. contradiction.
        -- destruct Hin as [[H|[H|[]]]|[H|[H|[]]]]; try discriminate H.
           injection H as <- <- <- <-. right. left.
           f_equal; lia.
    + destruct (IH (S dst) (S src) rc
                  (if negb (rc =? 0) then copy_highpage dst src st else st))
        as (l & E & Hfb & Hhp).
      set (l1 := if negb (rc =? 0) then [Ev_highpage dst src] else []).
      assert (Hl1 : forall e, In e l1 -> exists d s, e = Ev_highpage d s).
      { intros e He. subst l1. destruct (negb (rc =? 0)); simpl in He;
          [destruct He as [<-|[]]; eauto|destruct He]. }
      exists (l1 ++ l). split.
      * rewrite E. subst l1. destruct (negb (rc =? 0)); simpl;
          rewrite <- ?app_assoc; reflexivity.
      * split.
        -- apply falls_back_app; [apply falls_back_highpages; exact Hl1|exact Hfb].
        -- intros _ e He. apply in_app_or in He. destruct He as [He|He].
           ++ apply Hl1; exact He.
           ++ apply Hhp; auto.
Qed.

(** An offload attempt (or none) over [n] frames, then the fallback loop when
    its rc is nonzero, copies every frame and logs a fallback for a failure. *)
Lemma attempt_then_fallback (dst src n : nat) (st st1 : cstate) (rc : Z)
    (l0 : list event) :
  disjoint_ranges dst src n ->
  (forall q, ~ (dst <= q < dst + n)%nat -> c_mem st1 q = c_mem st q) ->
  (rc = 0 -> forall i, (i < n)%nat -> c_mem st1 (dst + i)%nat = c_mem st (src + i)%nat) ->
  c_log st1 = c_log st ++ l0 ->
  (l0 = [] /\ rc <> 0) \/ l0 = [Ev_mt dst src n rc] \/ l0 = [Ev_dma dst src n rc] ->
  let st2 := if negb (rc =? 0) then copy_loop dst src n st1 else st1 in
  (forall i, (i < n)%nat -> c_mem st2 (dst + i)%nat = c_mem st (src + i)%nat) /\
  exists l, c_log st2 = c_log st ++ l /\ falls_back l.
Proof.
  intros Hd Hfr Hok Hlog Hl0 st2. subst st2.
  destruct (rc =? 0) eqn:Erc; simpl.
  - apply Z.eqb_eq in Erc. split; [apply Hok; exact Erc|].
    exists l0. split; [exact Hlog|].
    intros d s k rc' Hin Hrc'.
    destruct Hl0 as [[ -> Hc] | [ -> | -> ] ]; [contradiction|..];
      destruct Hin as [[H|[]]|[H|[]]]; try discriminate H;
      injection H as _ _ _ <-; contradiction.
  - apply Z.eqb_neq in Erc. split.
    + intros i Hi. rewrite copy_loop_mem by exact Hd.
      rewrite (proj2 (Nat.leb_le dst (dst + i))) by lia.
      rewrite (proj2 (Nat.ltb_lt (dst + i) (dst + n))) by lia. simpl.
      replace (dst + i - dst)%nat with i by lia.
      apply Hfr. intros [H1 H2]. apply (Hd (src + i - dst)%nat i); lia.
    + destruct (copy_loop_log dst src n st1) as (lh & E & Hin & Hall).
      exists (l0 ++ lh). split; [rewrite E, Hlog, app_assoc; reflexivity|].
      intros d s k rc' H Hrc' i Hi. apply in_or_app. right.
      destruct Hl0 as [[ -> _] | [ -> | -> ] ]; simpl in H;
      repeat match goal with
      | H : _ \/ _ |- _ => destruct H as [H|H]
      | H : False |- _ => destruct H
      | H : In _ lh |- _ => destruct (Hall _ H) as (? & ? & Hc); discriminate Hc
      | H : Ev_mt _ _ _ _ = Ev_mt _ _ _ _ |- _ =>
          injection H as <- <- <- _; apply Hin; exact Hi
      | H : Ev_dma _ _ _ _ = Ev_dma _ _ _ _ |- _ =>
          injection H as <- <- <- _; apply Hin; exact Hi
      | H : Ev_mt _ _ _ _ = Ev_dma _ _ _ _ |- _ => discriminate H
      | H : Ev_dma _ _ _ _ = Ev_mt _ _ _ _ |- _ => discriminate H
      end.
Qed.

Lemma call_mt_spec (dst src n : nat) (st : cstate) :
  let '(rc, st1) := call_mt o dst src n st in
  (forall q, ~ (dst <= q < dst + n)%nat -> c_mem st1 q = c_mem st q) /\
  (rc = 0 -> forall i, (i < n)%nat -> c_mem st1 (dst + i)%nat = c_mem st (src + i)%nat) /\
  c_log st1 = c_log st ++ [Ev_mt dst src n rc].
Proof.
  unfold call_mt. destruct (copy_page_multithread o dst src n (c_mem st)) as [rc m1]
    eqn:E. destruct (Hmt _ _ _ _ _ _ E) as [Hfr Hok]. simpl. auto.
Qed.

Lemma call_dma_spec (dst src n : nat) (st : cstate) :
  let '(rc, st1) := call_dma o dst src n st in
  (forall q, ~ (dst <= q < dst + n)%nat -> c_mem st1 q = c_mem st q) /\
  (rc = 0 -> forall i, (i < n)%nat -> c_mem st1 (dst + i)%nat = c_mem st (src + i)%nat) /\
  c_log st1 = c_log st ++ [Ev_dma dst src n rc].
Proof.
  unfold call_dma. destruct (copy_page_dma o dst src n (c_mem st)) as [rc m1]
    eqn:E. destruct (Hdma _ _ _ _ _ _ E) as [Hfr Hok]. simpl. auto.
Qed.

Lemma copy_huge_page_complete (g : globals) (dst src : cpage)
    (mode : migrate_mode) (st : cstate) :
  disjoint_ranges (cp_pfn dst) (cp_pfn src) (nr_copied src) ->
  let st' := copy_huge_page g o dst src mode st in
  (forall i, (i < nr_copied src)%nat ->
     c_mem st' (cp_pfn dst + i)%nat = c_mem st (cp_pfn src + i)%nat) /\
  exists l, c_log st' = c_log st ++ l /\ falls_back l.
Proof.
  intros Hd st'. subst st'. unfold copy_huge_page, nr_copied in *.
  destruct (cp_huge src && (MAX_ORDER_NR_PAGES <? cp_huge_nr src)%nat) eqn:Eg.
  - apply andb_true_iff in Eg. destruct Eg as [Eh _]. rewrite Eh in Hd |- *.
    split.
    + intros i Hi. unfold __copy_gigantic_page.
      rewrite gigantic_loop_mem; [|exact Hd|right; unfold EFAULT; lia].
      rewrite (proj2 (Nat.leb_le _ (cp_pfn dst + i))) by lia.
      rewrite (proj2 (Nat.ltb_lt (cp_pfn dst + i) _)) by lia. simpl.
      f_equal. lia.
    + destruct (gigantic_loop_log mode (cp_pfn dst) (cp_pfn src) (cp_huge_nr src)
                  (- EFAULT) st) as (l & E & Hfb & _).
      exists l. split; [exact E|exact Hfb].
  - set (nr := if cp_huge src then cp_huge_nr src else hpage_nr_pages src) in *.
    destruct (m_mt (if negb (accel_page_copy g =? 0) ||
        (sysctl_enable_page_migration_optimization_avoid_remote_pmem_write g =? 1)
        then set_mt mode else mode)).
    + pose proof (call_mt_spec (cp_pfn dst) (cp_pfn src) nr st) as Hs.
      destruct (call_mt o (cp_pfn dst) (cp_pfn src) nr st) as [rc st1].
      destruct Hs as (Hfr & Hok & Hlog).
      exact (attempt_then_fallback _ _ _ st st1 rc _ Hd Hfr Hok Hlog
               (or_intror (or_introl eq_refl))).
    + destruct (m_dma (if negb (accel_page_copy g =? 0) ||
        (sysctl_enable_page_migration_optimization_avoid_remote_pmem_write g =? 1)
        then set_mt mode else mode)).
      * pose proof (call_dma_spec (cp_pfn dst) (cp_pfn src) nr st) as Hs.
        destruct (call_dma o (cp_pfn dst) (cp_pfn src) nr st) as [rc st1].
        destruct Hs as (Hfr & Hok & Hlog).
        exact (attempt_then_fallback _ _ _ st st1 rc _ Hd Hfr Hok Hlog
                 (or_intror (or_intror eq_refl))).
      * refine (attempt_then_fallback _ _ _ st st (- EFAULT) [] Hd
                  (fun _ _ => eq_refl) _ (eq_sym (app_nil_r _)) _).
        -- unfold EFAULT. intros H. lia.
        -- left. split; [reflexivity|unfold EFAULT; lia].
Qed.

End Offload.
(** C8: whatever the offload routines do (they write only their destination
    range, and rc 0 means copied), migrate_page_copy leaves every member
    frame of the new page equal to the corresponding frame of the old page,
    and each offload call that returned nonzero is followed by a
    copy_highpage of every frame it covered. *)
Theorem migrate_page_copy_complete (g : globals) (o : offload)
    (Hmt : offload_contract (copy_page_multithread o))
    (Hdma : offload_contract (copy_page_dma o))
    (newpage p : cpage) (mode : migrate_mode) (st : cstate)
    (Hd : disjoint_ranges (cp_pfn newpage) (cp_pfn p) (nr_copied p)) :
  let st' := migrate_page_copy g o newpage p mode st in
  (forall i, (i < nr_copied p)%nat ->
     c_mem st' (cp_pfn newpage + i)%nat = c_mem st (cp_pfn p + i)%nat) /\
  exists l, c_log st' = c_log st ++ l /\ falls_back l.
Proof.
  intros st'. subst st'. unfold migrate_page_copy.
  destruct (cp_huge p || cp_transhuge p) eqn:Eh.
  - apply copy_huge_page_complete; assumption.
  - apply orb_false_iff in Eh. destruct Eh as [Eh1 Eh2].
    assert (Hn : nr_copied p = 1%nat)
      by (unfold nr_copied, hpage_nr_pages; rewrite Eh1, Eh2; reflexivity).
    rewrite Hn in Hd |- *.
    change (copy_highpage (cp_pfn newpage) (cp_pfn p))
      with (copy_loop (cp_pfn newpage) (cp_pfn p) 1).
    destruct (m_dma mode).
    + pose proof (call_dma_spec o Hdma (cp_pfn newpage) (cp_pfn p) 1 st) as Hs.
      destruct (call_dma o (cp_pfn newpage) (cp_pfn p) 1 st) as [rc st1].
      destruct Hs as (Hfr & Hok & Hlog).
      exact (attempt_then_fallback _ _ _ st st1 rc _ Hd Hfr Hok Hlog
               (or_intror (or_intror eq_refl))).
    + destruct (m_mt mode).
      * pose proof (call_mt_spec o Hmt (cp_pfn newpage) (cp_pfn p) 1 st) as Hs.
        destruct (call_mt o (cp_pfn newpage) (cp_pfn p) 1 st) as [rc st1].
        destruct Hs as (Hfr & Hok & Hlog).
        exact (attempt_then_fallback _ _ _ st st1 rc _ Hd Hfr Hok Hlog
                 (or_intror (or_introl eq_refl))).
      * refine (attempt_then_fallback _ _ _ st st (- EFAULT) [] Hd
                  (fun _ _ => eq_refl) _ (eq_sym (app_nil_r _)) _).
        -- unfold EFAULT. intros H. lia.
        -- left. split; [reflexivity|unfold EFAULT; lia].
Qed.

Lemma failing_offload_contract :
  offload_contract (copy_page_multithread Samples.failing_offload) /\
  offload_contract (copy_page_dma Samples.failing_offload).
Proof.
  split; intros dst src n m rc m' E; simpl in E; injection E as <- <-;
    (split; [|unfold EFAULT; lia]);
    intros q Hq; destruct (Nat.leb_spec dst q); destruct (Nat.ltb_spec q (dst + n));
    simpl; try reflexivity; lia.
Qed.

Lemma migrate_page_copy_complete_witness :
  disjoint_ranges (cp_pfn Samples.thp_dst) (cp_pfn Samples.thp_src)
    (nr_copied Samples.thp_src) /\
  c_mem (migrate_page_copy initial_globals Samples.failing_offload Samples.thp_dst
           Samples.thp_src Samples.plain_mode Samples.empty_cstate) 1511%nat
  = c_mem Samples.empty_cstate 511%nat.
Proof.
  assert (Hd : disjoint_ranges (cp_pfn Samples.thp_dst) (cp_pfn Samples.thp_src)
                 (nr_copied Samples.thp_src)).
  { cbv [disjoint_ranges nr_copied hpage_nr_pages HPAGE_NR Samples.thp_dst
         Samples.thp_src cp_pfn cp_huge cp_transhuge cp_huge_nr].
    intros i j Hi Hj. lia. }
  split; [exact Hd|].
  exact (proj1 (migrate_page_copy_complete initial_globals Samples.failing_offload
                  (proj1 failing_offload_contract) (proj2 failing_offload_contract)
                  Samples.thp_dst Samples.thp_src Samples.plain_mode
                  Samples.empty_cstate Hd) 511%nat
                  ltac:(cbv [nr_copied hpage_nr_pages HPAGE_NR Samples.thp_src
                             cp_huge cp_transhuge]; lia)).
Defined.

Lemma gigantic_loop_no_mt (o : offload) (mode : migrate_mode) (dst src n : nat)
    (rc : Z) (st : cstate) :
  exists l, c_log (gigantic_loop o mode dst src n rc st) = c_log st ++ l /\
    forall d s k rc', ~ In (Ev_mt d s k rc') l.
Proof.
  revert dst src rc st. induction n as [|n IH]; intros dst src rc st; simpl.
  - exists []. rewrite app_nil_r. split; [reflexivity|]. intros ? ? ? ? [].
  - set (step := if m_dma mode then call_dma o dst src 1 st else (rc, st)).
    assert (Hs : exists l1, c_log (snd step) = c_log st ++ l1 /\
                   forall d s k rc', ~ In (Ev_mt d s k rc') l1).
    { subst step. destruct (m_dma mode).
      - unfold call_dma. destruct (copy_page_dma o dst src 1 (c_mem st)) as [r m].
        exists [Ev_dma dst src 1 r]. split; [reflexivity|].
        intros ? ? ? ? [H|[]]. discriminate H.
      - exists []. rewrite app_nil_r. split; [reflexivity|]. intros ? ? ? ? []. }
    destruct step as [rc1 st1]. simpl in Hs. destruct Hs as (l1 & E1 & H1).
    destruct (IH (S dst) (S src) rc1
                (if negb (rc1 =? 0) then copy_highpage dst src st1 else st1))
      as (l & E & Hl).
    set (l2 := if negb (rc1 =? 0) then [Ev_highpage dst src] else []).
    exists (l1 ++ l2 ++ l). split.
    + rewrite E. subst l2. destruct (negb (rc1 =? 0)); simpl;
        rewrite E1, <- ?app_assoc; reflexivity.
    + intros d s k rc' Hin. apply in_app_or in Hin. destruct Hin as [Hin|Hin].
      * exact (H1 _ _ _ _ Hin).
      * apply in_app_or in Hin. destruct Hin as [Hin|Hin].
        -- subst l2. destruct (negb (rc1 =? 0)); simpl in Hin;
             [destruct Hin as [H|[]]; discriminate H|exact Hin].
        -- exact (Hl _ _ _ _ Hin).
Qed.

(** C10 (counterexample): with accel_page_copy at its initial value 1, a
    gigantic hugetlbfs page (1 GB, more than MAX_ORDER_NR_PAGES base pages)
    is copied by copy_huge_page without any multithreaded copy attempt. *)
Lemma copy_huge_page_gigantic_counterexample :
  accel_page_copy initial_globals = 1 /\
  Samples.giga_src.(cp_huge) = true /\
  forall d s k rc,
    ~ In (Ev_mt d s k rc)
        (c_log (copy_huge_page initial_globals Samples.failing_offload
                  Samples.giga_dst Samples.giga_src Samples.plain_mode
                  Samples.empty_cstate)).
Proof.
  split; [reflexivity|]. split; [reflexivity|].
  unfold copy_huge_page.
  replace (cp_huge Samples.giga_src && (MAX_ORDER_NR_PAGES <? cp_huge_nr Samples.giga_src)%nat)
    with true by (vm_compute; reflexivity).
  unfold __copy_gigantic_page.
  destruct (gigantic_loop_no_mt Samples.failing_offload Samples.plain_mode
              (cp_pfn Samples.giga_dst) (cp_pfn Samples.giga_src)
              (cp_huge_nr Samples.giga_src) (- EFAULT) Samples.empty_cstate)
    as (l & E & Hl).
  rewrite E. simpl. exact Hl.
Qed.

(** C10 (amended): accel_page_copy starts at 1.  For a THP or a hugetlbfs
    page of at most MAX_ORDER_NR_PAGES base pages, copy_huge_page first calls
    the multithreaded copy over all its frames whenever accel_page_copy is
    nonzero or the RPDAA sysctl equals 1, whatever the mode; when both are
    off and the mode has neither MT nor DMA bit it only runs the sequential
    copy_highpage loop over every frame; when both are off and the mode has
    the MT or the DMA bit, its first call is that offload copy (MT when its
    bit is set, else DMA).  A gigantic hugetlbfs page goes to
    __copy_gigantic_page, which never calls the multithreaded copy. *)
Theorem copy_huge_page_strategy (g : globals) (o : offload) (dst src : cpage)
    (mode : migrate_mode) (st : cstate) :
  accel_page_copy initial_globals = 1 /\
  ((cp_huge src = false \/ (cp_huge_nr src <= MAX_ORDER_NR_PAGES)%nat) ->
   ((accel_page_copy g <> 0 \/
     sysctl_enable_page_migration_optimization_avoid_remote_pmem_write g = 1) ->
    exists rc l, c_log (copy_huge_page g o dst src mode st) =
                 c_log st ++ Ev_mt (cp_pfn dst) (cp_pfn src) (nr_copied src) rc :: l) /\
   ((accel_page_copy g = 0 /\
     sysctl_enable_page_migration_optimization_avoid_remote_pmem_write g <> 1 /\
     m_mt mode = false /\ m_dma mode = false) ->
    exists l, c_log (copy_huge_page g o dst src mode st) = c_log st ++ l /\
      (forall e, In e l -> exists d s, e = Ev_highpage d s) /\
      (forall i, (i < nr_copied src)%nat ->
         In (Ev_highpage (cp_pfn dst + i) (cp_pfn src + i)) l)) /\
   ((accel_page_copy g = 0 /\
     sysctl_enable_page_migration_optimization_avoid_remote_pmem_write g <> 1 /\
     (m_mt mode = true \/ m_dma mode = true)) ->
    exists rc l, c_log (copy_huge_page g o dst src mode st) =
      c_log st ++ (if m_mt mode
                   then Ev_mt (cp_pfn dst) (cp_pfn src) (nr_copied src) rc
                   else Ev_dma (cp_pfn dst) (cp_pfn src) (nr_copied src) rc) :: l)) /\
  ((cp_huge src = true /\ (MAX_ORDER_NR_PAGES < cp_huge_nr src)%nat) ->
   exists l, c_log (copy_huge_page g o dst src mode st) = c_log st ++ l /\
     forall d s k rc, ~ In (Ev_mt d s k rc) l).
Proof.
  split; [reflexivity|]. unfold copy_huge_page. split.
  - intros Hng.
    replace (cp_huge src && (MAX_ORDER_NR_PAGES <? cp_huge_nr src)%nat) with false
      by (destruct Hng as [-> | H]; [reflexivity|];
          rewrite (proj2 (Nat.ltb_ge _ _) H), andb_false_r; reflexivity).
    fold (nr_copied src). split; [|split].
    + intros Hg.
      replace (negb (accel_page_copy g =? 0) ||
               (sysctl_enable_page_migration_optimization_avoid_remote_pmem_write g =? 1))
        with true
        by (destruct Hg as [H|H];
            [apply Z.eqb_neq in H; rewrite H; reflexivity
            |apply Z.eqb_eq in H; rewrite H, orb_true_r; reflexivity]).
      simpl. unfold call_mt.
      destruct (copy_page_multithread o (cp_pfn dst) (cp_pfn src) (nr_copied src)
                  (c_mem st)) as [rc m1].
      exists rc. destruct (negb (rc =? 0)).
      * destruct (copy_loop_log (cp_pfn dst) (cp_pfn src) (nr_copied src)
                    (mkCState m1 (c_log st ++ [Ev_mt (cp_pfn dst) (cp_pfn src)
                                                 (nr_copied src) rc])))
          as (l & E & _). exists l. rewrite E. simpl. rewrite <- app_assoc.
        reflexivity.
      * exists []. simpl. reflexivity.
    + intros (Ha & Hs & Hm & Hd).
      apply Z.eqb_eq in Ha. apply Z.eqb_neq in Hs. rewrite Ha, Hs. simpl.
      rewrite Hm, Hd. simpl.
      destruct (copy_loop_log (cp_pfn dst) (cp_pfn src) (nr_copied src) st)
        as (l & E & Hin & Hall).
      exists l. split; [exact E|]. split; [exact Hall|exact Hin].
    + intros (Ha & Hs & Hmd).
      apply Z.eqb_eq in Ha. apply Z.eqb_neq in Hs. rewrite Ha, Hs. simpl.
      destruct (m_mt mode) eqn:Hm.
      * unfold call_mt.
        destruct (copy_page_multithread o (cp_pfn dst) (cp_pfn src) (nr_copied src)
                    (c_mem st)) as [rc m1].
        exists rc. destruct (negb (rc =? 0)).
        -- destruct (copy_loop_log (cp_pfn dst) (cp_pfn src) (nr_copied src)
                       (mkCState m1 (c_log st ++ [Ev_mt (cp_pfn dst) (cp_pfn src)
                                                    (nr_copied src) rc])))
             as (l & E & _). exists l. rewrite E. simpl. rewrite <- app_assoc.
           reflexivity.
        -- exists []. reflexivity.
      * destruct Hmd as [Hmd|Hmd]; [discriminate|]. rewrite Hmd.
        unfold call_dma.
        destruct (copy_page_dma o (cp_pfn dst) (cp_pfn src) (nr_copied src)
                    (c_mem st)) as [rc m1].
        exists rc. destruct (negb (rc =? 0)).
        -- destruct (copy_loop_log (cp_pfn dst) (cp_pfn src) (nr_copied src)
                       (mkCState m1 (c_log st ++ [Ev_dma (cp_pfn dst) (cp_pfn src)
                                                    (nr_copied src) rc])))
             as (l & E & _). exists l. rewrite E. simpl. rewrite <- app_assoc.
           reflexivity.
        -- exists []. reflexivity.
  - intros [Hh Hgt]. rewrite Hh, (proj2 (Nat.ltb_lt _ _) Hgt). simpl.
    apply gigantic_loop_no_mt.
Qed.

End CopyProofs.

(* ------------------------------------------------------------------------ *)
(** ** The serial engine migrate_pages *)

Section EngineProofs.
Import Engine EngineSamples.


Lemma length_filter_map {A B : Type} (f : B -> bool) (g : A -> B) (l : list A) :
  length (List.filter f (map g l)) = length (List.filter (fun x => f (g x)) l).
Proof.
  induction l as [|a l IH]; simpl; [reflexivity|].
  destruct (f (g a)); simpl; rewrite IH; reflexivity.
Qed.

(** The three outcomes migrate_pages tells apart partition any list. *)
Lemma filter3_length {A : Type} (f : A -> Z) (q : list A) :
  (length (List.filter (fun p => (f p =? - EAGAIN)%Z) q) +
   length (List.filter (fun p => (f p =? MIGRATEPAGE_SUCCESS)%Z) q) +
   length (List.filter (fun p => negb ((f p =? - EAGAIN)%Z) &&
                            negb ((f p =? MIGRATEPAGE_SUCCESS)%Z)) q) = length q)%nat.
Proof.
  induction q as [|a q IH]; simpl; [reflexivity|].
  destruct (Z.eqb_spec (f a) (- EAGAIN)), (Z.eqb_spec (f a) MIGRATEPAGE_SUCCESS);
    unfold EAGAIN, MIGRATEPAGE_SUCCESS in *; simpl; try lia.
Qed.

Lemma walk_weight_length (E : env) (q : list epage) :
  (length q <= walk_weight E q)%nat.
Proof.
  induction q as [|p q IH]; simpl; [lia|].
  destruct (e_transhuge p && negb (e_huge p)); lia.
Qed.

Variable E : env.
Variable mode : migrate_mode.

Local Abbreviation rc_at k p := (a_rc (attempt_page E mode k p)).

(** Apart from -ENOMEM, a page leaves the list exactly when its attempt did
    not return -EAGAIN. *)
Lemma attempt_removed (k : nat) (p : epage) :
  rc_at k p <> - ENOMEM ->
  a_removed (attempt_page E mode k p) = negb ((rc_at k p =? - EAGAIN)%Z).
Proof.
  unfold attempt_page, unmap_and_move_huge_page, unmap_and_move; cbv zeta.
  repeat case_match; simpl; intros Hn; try congruence; reflexivity.
Qed.

Lemma walk_no_nomem (k : nat) :
  forall fuel q s, (length q <= fuel)%nat ->
  (forall p, In p q -> rc_at k p <> - ENOMEM) ->
  walk E mode k fuel q s =
  WalkDone (mkMState
    (ms_from s ++ List.filter (fun p => (rc_at k p =? - EAGAIN)%Z) q)
    (ms_failed s + length (List.filter (fun p => negb (rc_at k p =? - EAGAIN)%Z &&
                              negb (rc_at k p =? MIGRATEPAGE_SUCCESS)%Z) q))%nat
    (ms_succ s +
       length (List.filter (fun p => (rc_at k p =? MIGRATEPAGE_SUCCESS)%Z) q))%nat
    (ms_retry s + length (List.filter (fun p => (rc_at k p =? - EAGAIN)%Z) q))%nat
    (ms_log s ++ map (fun p => (k, e_id p, rc_at k p)) q)).
Proof.
  induction fuel as [|fuel IH]; intros q s Hlen Hn.
  - destruct q; simpl in Hlen; [|lia].
    destruct s; simpl; rewrite !app_nil_r, !Nat.add_0_r; reflexivity.
  - destruct q as [|p q].
    { destruct s; simpl; rewrite !app_nil_r, !Nat.add_0_r; reflexivity. }
    simpl walk.
    assert (Hp : rc_at k p <> - ENOMEM) by (apply Hn; left; reflexivity).
    rewrite (proj2 (Z.eqb_neq _ _) Hp).
    rewrite (attempt_removed k p Hp).
    simpl in Hlen.
    destruct (Z.eqb_spec (rc_at k p) (- EAGAIN)) as [Ha|Ha];
      [|destruct (Z.eqb_spec (rc_at k p) MIGRATEPAGE_SUCCESS) as [Hs|Hs]];
      simpl; (rewrite IH; [|simpl; lia|intros; apply Hn; right; assumption]);
      simpl; try rewrite Ha; try rewrite Hs; simpl;
      try (rewrite (proj2 (Z.eqb_neq _ _) Ha));
      try (rewrite (proj2 (Z.eqb_neq _ _) Hs));
      try (rewrite Z.eqb_refl); simpl;
      unfold EAGAIN, MIGRATEPAGE_SUCCESS in *;
      f_equal; f_equal; try (rewrite <- app_assoc; reflexivity); simpl; lia.
Qed.

Lemma pass_worklist_step (l : list epage) (k : nat) (p : epage) :
  In p (pass_worklist E mode l (S k)) <->
  In p (pass_worklist E mode l k) /\ rc_at k p = - EAGAIN.
Proof.
  simpl; rewrite filter_In, Z.eqb_eq; reflexivity.
Qed.

Lemma pass_worklist_mono (l : list epage) (k d : nat) (p : epage) :
  In p (pass_worklist E mode l (k + d)) -> In p (pass_worklist E mode l k).
Proof.
  induction d as [|d IH]; intros H; [rewrite Nat.add_0_r in H; exact H|].
  apply IH; rewrite Nat.add_succ_r in H; apply pass_worklist_step in H; tauto.
Qed.

Lemma pass_worklist_incl (l : list epage) (k : nat) (p : epage) :
  In p (pass_worklist E mode l k) -> In p l.
Proof.
  intros H; exact (pass_worklist_mono l 0 k p H).
Qed.

Lemma attempts_upto_S (l : list epage) (n : nat) :
  attempts_upto E mode l (S n) =
  attempts_upto E mode l n ++
  map (fun p => (n, e_id p, rc_at n p)) (pass_worklist E mode l n).
Proof.
  unfold attempts_upto; rewrite seq_S, flat_map_app; simpl.
  rewrite app_nil_r; reflexivity.
Qed.

Lemma in_attempts_upto (l : list epage) (n k id : nat) (rc : Z) :
  In (k, id, rc) (attempts_upto E mode l n) <->
  (k < n)%nat /\
  exists p, In p (pass_worklist E mode l k) /\ e_id p = id /\ rc_at k p = rc.
Proof.
  unfold attempts_upto; rewrite in_flat_map; split.
  - intros [k' [Hk' Hin]]; apply in_seq in Hk'.
    apply in_map_iff in Hin as [p [Heq Hp]]; inversion Heq; subst.
    split; [lia|]; exists p; auto.
  - intros [Hk [p [Hp [Hid Hrc]]]]; exists k; split; [apply in_seq; lia|].
    apply in_map_iff; exists p; subst; auto.
Qed.

(** Invariant of the outer loop of migrate_pages when no attempt on the
    list returns -ENOMEM. *)
Lemma pass_loop_spec (l : list epage)
    (Hn : forall k p, In p l -> rc_at k p <> - ENOMEM) :
  forall budget pass s,
  ms_from s = pass_worklist E mode l pass ->
  ms_log s = attempts_upto E mode l pass ->
  ms_succ s =
    length (List.filter (fun e => (snd e =? MIGRATEPAGE_SUCCESS)%Z) (ms_log s)) ->
  ms_failed s =
    length (List.filter (fun e => negb (snd e =? - EAGAIN)%Z &&
                                  negb (snd e =? MIGRATEPAGE_SUCCESS)%Z) (ms_log s)) ->
  (ms_succ s + ms_failed s + length (ms_from s) = length l)%nat ->
  ((pass = 0 /\ ms_retry s = 1 /\ 0 < budget) \/ ms_retry s = length (ms_from s))%nat ->
  let r := pass_loop E mode budget pass s in
  o_rc r = Z.of_nat (o_failed r) /\
  (pass <= o_passes r <= pass + budget)%nat /\
  o_log r = attempts_upto E mode l (o_passes r) /\
  o_from r = pass_worklist E mode l (o_passes r) /\
  ((o_passes r < pass + budget)%nat -> o_from r = []) /\
  o_succ r =
    length (List.filter (fun e => (snd e =? MIGRATEPAGE_SUCCESS)%Z) (o_log r)) /\
  o_failed r =
    (length (List.filter (fun e => negb (snd e =? - EAGAIN)%Z &&
                                   negb (snd e =? MIGRATEPAGE_SUCCESS)%Z) (o_log r))
     + length (o_from r))%nat /\
  (o_succ r + o_failed r = length l)%nat.
Proof.
  induction budget as [|budget IH]; intros pass s Hfrom Hlog Hsucc Hfail Hsum Hretry.
  - destruct s as [from failed succ retry log]; simpl in *.
    destruct Hretry as [[_ [_ H0]]|Hretry]; [lia|].
    subst; repeat split; try lia; intros; lia.
  - destruct s as [from failed succ retry log]; simpl in *.
    destruct (Nat.eqb_spec retry 0) as [H0|H0].
    + subst retry; destruct Hretry as [[_ [H1 _]]|Hretry]; [lia|].
      destruct from; simpl in Hretry; [|lia].
      simpl in *; repeat split; try lia; auto.
    + rewrite walk_no_nomem;
        [|apply walk_weight_length
         |intros p Hp; apply Hn; subst from; eapply pass_worklist_incl; exact Hp].
      simpl.
      pose proof (filter3_length (fun p => rc_at pass p) from) as H3.
      cbv zeta.
      match goal with |- context[pass_loop E mode budget (S pass) ?s'] =>
        specialize (IH (S pass) s') end.
      simpl in IH.
      destruct IH as (H1 & H2 & H4 & H5 & H6 & H7 & H8 & H9).
      * subst from; reflexivity.
      * rewrite attempts_upto_S; subst; reflexivity.
      * rewrite List.filter_app, length_app, length_filter_map, <- Hsucc; simpl; lia.
      * rewrite List.filter_app, length_app, length_filter_map, <- Hfail; simpl; lia.
      * lia.
      * right; reflexivity.
      * repeat split; auto; try lia.
        intros Hlt; apply H6; lia.
Qed.

(** migrate_pages from its initial state: passes 0 .. 9, retry = 1. *)
Lemma migrate_pages_spec (l : list epage)
    (Hn : forall k p, In p l -> rc_at k p <> - ENOMEM) :
  let r := migrate_pages E mode l in
  o_rc r = Z.of_nat (o_failed r) /\
  (o_passes r <= 10)%nat /\
  o_log r = attempts_upto E mode l (o_passes r) /\
  o_from r = pass_worklist E mode l (o_passes r) /\
  ((o_passes r < 10)%nat -> o_from r = []) /\
  o_succ r =
    length (List.filter (fun e => (snd e =? MIGRATEPAGE_SUCCESS)%Z) (o_log r)) /\
  o_failed r =
    (length (List.filter (fun e => negb (snd e =? - EAGAIN)%Z &&
                                   negb (snd e =? MIGRATEPAGE_SUCCESS)%Z) (o_log r))
     + length (o_from r))%nat /\
  (o_succ r + o_failed r = length l)%nat.
Proof.
  destruct (pass_loop_spec l Hn 10 0 (mkMState l 0 0 1 []))
    as (H1 & H2 & H3 & H4 & H5 & H6 & H7 & H8);
    simpl; try reflexivity; try lia.
  unfold migrate_pages; repeat split; auto; lia.
Qed.






End EngineProofs.

Section EngineInstances.
Import Engine EngineSamples.





End EngineInstances.

(* ------------------------------------------------------------------------ *)
(** ** The concurrent engine migrate_pages_concur *)

Section ConcurProofs.
Import Engine.

Variable E : env.
Variable C : cenv.

Lemma epage_eqb_fields (a b : epage) :
  epage_eqb a b = true -> e_huge a = e_huge b /\ e_has_mapping a = e_has_mapping b.
Proof.
  unfold epage_eqb; intros H.
  repeat (apply andb_prop in H as [H ?]).
  split; apply Bool.eqb_prop; assumption.
Qed.

(** list_del of a page the walk may take keeps every deferred page. *)
Lemma list_del_keeps (p q : epage) (f : list epage) :
  e_huge p || e_has_mapping p = true -> e_huge q || e_has_mapping q = false ->
  In p f -> In p (list_del q f).
Proof.
  intros Hp Hq Hin; unfold list_del; apply filter_In; split; [exact Hin|].
  destruct (epage_eqb p q) eqn:Heq; [|reflexivity].
  apply epage_eqb_fields in Heq as [H1 H2]; rewrite H1, H2 in Hp; congruence.
Qed.

Lemma fold_list_del_keeps (p : epage) (ds f : list epage) :
  e_huge p || e_has_mapping p = true ->
  (forall q, In q ds -> e_huge q || e_has_mapping q = false) ->
  In p f -> In p (fold_left (fun f q => list_del q f) ds f).
Proof.
  revert f; induction ds as [|q ds IH]; intros f Hp Hds Hin; simpl; [exact Hin|].
  apply IH; [exact Hp|intros; apply Hds; right; assumption|].
  apply list_del_keeps; [exact Hp|apply Hds; left; reflexivity|exact Hin].
Qed.

Lemma in_snoc_inv (P : epage -> Prop) (xs : list epage) (x : epage) :
  (forall q, In q xs -> P q) -> P x -> forall q, In q (xs ++ [x]) -> P q.
Proof.
  intros Hxs Hx q Hq; apply in_app_or in Hq as [Hq|[<-|[]]]; auto.
Qed.

Lemma concur_walk_inv (l : list epage) :
  forall q s, concur_inv l s -> concur_inv l (fst (concur_walk E C q s)).
Proof.
  induction q as [|p q IH]; intros s (Hb & Hu & Hf); simpl; [repeat split; auto|].
  destruct (e_huge p || e_has_mapping p) eqn:Hd.
  - apply IH; repeat split; auto.
  - destruct (unmap_pages_and_get_new_concur E C p) as [[rc deleted] freed].
    assert (Hb' : forall x, In x (cs_batched s ++ [p]) ->
                  e_huge x || e_has_mapping x = false)
      by (apply in_snoc_inv; auto).
    assert (Hf' : forall x, In x l -> e_huge x || e_has_mapping x = true ->
                  In x (if deleted then list_del p (cs_from s) else cs_from s)).
    { intros x Hx Hdx; destruct deleted; [apply list_del_keeps|]; auto. }
    repeat (case_match; simpl); try (apply IH); repeat split; simpl; auto;
      apply in_snoc_inv; auto.
Qed.

Lemma concur_pass_inv (l : list epage) (s : cstate) :
  concur_inv l s -> concur_inv l (concur_pass E C s).
Proof.
  intros (Hb & Hu & Hf); unfold concur_pass.
  pose proof (concur_walk_inv l (cs_wip s)
    (mkCState [] (cs_from s) (cs_unmapped s) (cs_serialized s) (cs_failedl s)
       (cs_failed s) (cs_succ s) 0 (cs_batched s))) as Hw.
  destruct (concur_walk E C (cs_wip s) _) as [s1 out]; simpl in Hw.
  destruct Hw as (Hb1 & Hu1 & Hf1); [repeat split; auto|].
  destruct (cs_unmapped s1) as [|u us] eqn:Hun;
    [split; [exact Hb1|split; [rewrite Hun; exact Hu1|exact Hf1]]|].
  unfold finish_unmapped; split; [|split]; simpl.
  - exact Hb1.
  - intros q Hq; apply filter_In in Hq as [Hq _]; apply Hu1; rewrite <- Hun; exact Hq.
  - intros p Hp Hdp; apply fold_list_del_keeps; auto.
    intros q Hq; apply filter_In in Hq as [Hq _]; apply Hu1; rewrite <- Hun; exact Hq.
Qed.

Lemma concur_loop_inv (l : list epage) :
  forall budget pass s, concur_inv l s ->
  concur_inv l (fst (concur_loop E C budget pass s)).
Proof.
  induction budget as [|b IH]; intros pass s Hs; simpl; [exact Hs|].
  destruct (Nat.eqb (cs_retry s) 0); [exact Hs|].
  apply IH, concur_pass_inv, Hs.
Qed.

(** ** C6: migrate_pages_concur runs exactly one outer pass; hugetlb pages
    and pages with a mapping are never given to the batched path and are
    still on [from] afterwards; whatever is left on [from] is passed to
    migrate_pages, whose return value becomes the result (with nothing
    left, the result is the failure count of the pass). *)
Theorem migrate_pages_concur_handoff (mode : migrate_mode) (l : list epage) :
  let r := migrate_pages_concur E C mode l in
  co_passes r = 1%nat /\
  (forall p, In p l -> e_huge p = true \/ e_has_mapping p = true ->
     In p (cs_from (co_state r)) /\ ~ In p (cs_batched (co_state r))) /\
  match cs_from (co_state r) with
  | [] => co_serial r = None /\
          co_rc r = Z.of_nat (cs_failed (co_state r) + cs_retry (co_state r))
  | rest => co_serial r = Some (migrate_pages E mode rest) /\
            co_rc r = o_rc (migrate_pages E mode rest)
  end.
Proof.
  pose proof (concur_loop_inv l CONCUR_PASSES 0 (mkCState l l [] [] [] 0 0 1 []))
    as (Hb & _ & Hf).
  { repeat split; simpl; try contradiction; auto. }
  unfold migrate_pages_concur; cbv zeta.
  destruct (concur_loop E C CONCUR_PASSES 0 (mkCState l l [] [] [] 0 0 1 []))
    as [s passes] eqn:Hloop.
  simpl in Hb, Hf.
  assert (Hp : passes = 1%nat).
  { unfold CONCUR_PASSES in Hloop; simpl in Hloop; inversion Hloop; reflexivity. }
  subst passes.
  match goal with |- context[co_state ?m] =>
    assert (Hst : co_state m = s) by (destruct (cs_from s); reflexivity);
    rewrite Hst end.
  split; [|split].
  - destruct (cs_from s); reflexivity.
  - intros p Hin Hdef.
    assert (Hd : e_huge p || e_has_mapping p = true)
      by (destruct Hdef as [H|H]; rewrite H; [reflexivity|apply orb_true_r]).
    split; [apply Hf; assumption|].
    intros Hbt; apply Hb in Hbt; congruence.
  - destruct (cs_from s); simpl; split; reflexivity.
Qed.

End ConcurProofs.

(* ------------------------------------------------------------------------ *)
(** ** do_pages_move *)

Section SyscallProofs.
Import Syscall.
















End SyscallProofs.

Section SyscallInstances.
Import Syscall SyscallSamples.


End SyscallInstances.

(* ------------------------------------------------------------------------ *)
(** ** migrate_vma_prepare *)

Section VmaProofs.
Import Vma.

Lemma filter_length_insert (f : ventry -> bool) (l : list ventry) (i : nat)
    (e e' : ventry) :
  l !! i = Some e ->
  (length (List.filter f (<[i := e']> l)) + (if f e then 1 else 0) =
   length (List.filter f l) + (if f e' then 1 else 0))%nat.
Proof.
  intros Hi.
  pose proof (lookup_lt_Some _ _ _ Hi) as Hlt.
  rewrite (insert_take_drop l i e' Hlt).
  rewrite <- (take_drop_middle l i e Hi) at 3.
  rewrite !List.filter_app, !length_app; simpl.
  destruct (f e), (f e'); simpl; lia.
Qed.

Lemma filter_length_zero (f : ventry -> bool) (l : list ventry) (j : nat)
    (e : ventry) :
  length (List.filter f l) = 0%nat -> l !! j = Some e -> f e = false.
Proof.
  intros Hc Hj.
  rewrite <- (take_drop_middle l j e Hj) in Hc.
  rewrite List.filter_app, length_app in Hc; simpl in Hc.
  destruct (f e); simpl in Hc; [lia|reflexivity].
Qed.

Lemma filter_length_none (f : ventry -> bool) (l : list ventry) :
  (forall j e, l !! j = Some e -> f e = false) ->
  length (List.filter f l) = 0%nat.
Proof.
  induction l as [|a l IH]; intros H; [reflexivity|].
  simpl; rewrite (H 0%nat a ltac:(reflexivity)).
  apply IH; intros j e Hj; exact (H (S j) e Hj).
Qed.

Lemma check_page_compound (p : vpage) :
  vp_compound p = true -> migrate_vma_check_page p = false.
Proof. intros Hc; unfold migrate_vma_check_page; rewrite Hc; reflexivity. Qed.

(** Each iteration of the first loop leaves index i alone (no page there) or
    rewrites it in one of three ways: released (src[i] = 0, one off cpages),
    kept for the restore loop (MIGRATE_PFN_MIGRATE cleared, one off cpages,
    one more to restore), or kept as it was, locked, when the page passed
    migrate_vma_check_page. *)
Lemma prepare_entry_shape (V : venv) (i : nat) (st : vstate) :
  (prepare_entry V i st = st /\
   forall e, vs_src st !! i = Some e -> v_page e = None) \/
  exists e p ev,
    vs_src st !! i = Some e /\ v_page e = Some p /\
    (prepare_entry V i st = set_src st i zero_entry 1 0 ev \/
     prepare_entry V i st = set_src st i (mkVEntry (Some p) false true) 1 1 ev \/
     (prepare_entry V i st =
        set_src st i (mkVEntry (Some p) (v_migrate e) true) 0 0 ev /\
      migrate_vma_check_page p = true)).
Proof.
  unfold prepare_entry.
  destruct (vs_src st !! i) as [e|] eqn:Hi;
    [|left; split; [reflexivity|intros; discriminate]].
  destruct (v_page e) as [p|] eqn:Hp;
    [|left; split; [reflexivity|intros e' He'; congruence]].
  right.
  destruct (v_locked e), (v_trylock_ok V i), (vp_zone_device p) eqn:Hz,
    (v_isolate_fails V i), (migrate_vma_check_page p) eqn:Hc;
    cbn [negb andb v_page]; cbv zeta.
  all: do 3 eexists; split; [first [exact Hi|reflexivity]|
                             split; [first [exact Hp|reflexivity]|]].
  all: first [left; reflexivity
             |right; left; reflexivity
             |right; right; split; [reflexivity|exact Hc]].
Qed.

Variable V : venv.
Variable src0 : list ventry.

(** What migrate_vma_collect leaves: every entry holding a page has
    MIGRATE_PFN_MIGRATE set. *)
Hypothesis Hcollect :
  forall j e, src0 !! j = Some e -> v_page e <> None -> v_migrate e = true.

Lemma prepare_entry_inv (i : nat) (st : vstate) :
  prepare_inv src0 i st -> prepare_inv src0 (S i) (prepare_entry V i st).
Proof.
  intros (Hlen & Hsame & Hdone & Hcount & Hrest).
  destruct (prepare_entry_shape V i st)
    as [[Heq Hnone]|(e & p & ev & Hi & Hp & Hcase)].
  - rewrite Heq; unfold prepare_inv.
    split; [exact Hlen|]; split; [intros j Hj; apply Hsame; lia|].
    split; [|split; assumption].
    intros j Hj; destruct (Nat.eq_dec j i) as [->|Hne]; [|apply Hdone; lia].
    intros e0 p0 He0 Hp0 _.
    rewrite <- (Hsame i (le_n i)) in He0; apply Hnone in He0; congruence.
  - assert (Hsrc : src0 !! i = Some e)
      by (rewrite <- (Hsame i (le_n i)); exact Hi).
    assert (Hmig : v_migrate e = true)
      by (apply (Hcollect i e); [exact Hsrc|congruence]).
    assert (Hlt : (i < length (vs_src st))%nat) by (eapply lookup_lt_Some; eauto).
    assert (Hst : is_stale e = false)
      by (unfold is_stale; rewrite Hp, Hmig; reflexivity).
    pose proof (filter_length_insert v_migrate (vs_src st) i e) as Hci.
    pose proof (filter_length_insert is_stale (vs_src st) i e) as Hsi.
    unfold prepare_inv, count_migrate, count_stale in *.
    destruct Hcase as [Heq|[Heq|[Heq Hc]]]; rewrite Heq; unfold set_src;
      cbn [vs_src vs_cpages vs_restore vs_log];
      (split; [rewrite length_insert; exact Hlen|]);
      (split; [intros j Hj; rewrite list_lookup_insert_ne by lia; apply Hsame; lia|]).
    + specialize (Hci zero_entry Hi); specialize (Hsi zero_entry Hi).
      rewrite Hmig in Hci; rewrite Hst in Hsi.
      cbn [v_migrate zero_entry is_stale v_page] in Hci, Hsi.
      split; [|split; lia].
      intros j Hj e0 p0 He0 Hp0 Hc0; cbn [vs_src].
      destruct (Nat.eq_dec j i) as [->|Hne].
      * exists zero_entry; split; [apply list_lookup_insert_eq; exact Hlt|reflexivity].
      * destruct (Hdone j ltac:(lia) e0 p0 He0 Hp0 Hc0) as [e1 [He1 Hm1]].
        exists e1; rewrite list_lookup_insert_ne by lia; auto.
    + specialize (Hci (mkVEntry (Some p) false true) Hi).
      specialize (Hsi (mkVEntry (Some p) false true) Hi).
      rewrite Hmig in Hci; rewrite Hst in Hsi.
      cbn [v_migrate is_stale v_page negb] in Hci, Hsi.
      split; [|split; lia].
      intros j Hj e0 p0 He0 Hp0 Hc0; cbn [vs_src].
      destruct (Nat.eq_dec j i) as [->|Hne].
      * exists (mkVEntry (Some p) false true);
          split; [apply list_lookup_insert_eq; exact Hlt|reflexivity].
      * destruct (Hdone j ltac:(lia) e0 p0 He0 Hp0 Hc0) as [e1 [He1 Hm1]].
        exists e1; rewrite list_lookup_insert_ne by lia; auto.
    + specialize (Hci (mkVEntry (Some p) (v_migrate e) true) Hi).
      specialize (Hsi (mkVEntry (Some p) (v_migrate e) true) Hi).
      cbn [v_migrate is_stale v_page] in Hci, Hsi.
      rewrite Hmig in Hci, Hsi |- *; rewrite Hst in Hsi; cbn [negb] in Hsi.
      split; [|split; lia].
      intros j Hj e0 p0 He0 Hp0 Hc0.
      destruct (Nat.eq_dec j i) as [->|Hne].
      * rewrite Hsrc in He0; injection He0 as <-.
        rewrite Hp in Hp0; injection Hp0 as <-.
        rewrite (check_page_compound p Hc0) in Hc; discriminate.
      * destruct (Hdone j ltac:(lia) e0 p0 He0 Hp0 Hc0) as [e1 [He1 Hm1]].
        exists e1; cbn [vs_src]; rewrite list_lookup_insert_ne by lia; auto.
Qed.

Lemma prepare_loop_spec (fuel i : nat) (st : vstate) :
  prepare_inv src0 i st -> (i + fuel = length src0)%nat ->
  restore_inv src0 0 (prepare_loop V fuel i st).
Proof.
  revert i st; induction fuel as [|fuel IH]; intros i st Hinv Hi;
    cbn [prepare_loop].
  - destruct Hinv as (Hlen & Hsame & Hdone & Hc & Hr).
    split; [exact Hlen|]; split; [|split; [exact Hc|split; [exact Hr|]]].
    + intros j; destruct (Nat.lt_ge_cases j i) as [Hj|Hj]; [apply Hdone; exact Hj|].
      intros e p He; rewrite lookup_ge_None_2 in He by lia; discriminate.
    + intros j e Hj; lia.
  - destruct (Nat.eqb (vs_cpages st) 0) eqn:Hz.
    + apply Nat.eqb_eq in Hz.
      destruct Hinv as (Hlen & Hsame & Hdone & Hc & Hr).
      split; [exact Hlen|]; split; [|split; [exact Hc|split; [exact Hr|]]].
      * intros j e p He Hp Hcmp.
        destruct (vs_src st !! j) as [e'|] eqn:Hj.
        -- exists e'; split; [reflexivity|].
           apply (filter_length_zero v_migrate (vs_src st) j e');
             [unfold count_migrate in Hc; lia|exact Hj].
        -- apply lookup_lt_Some in He; apply lookup_ge_None_1 in Hj; lia.
      * intros j e Hj; lia.
    + apply (IH (S i)); [apply prepare_entry_inv; exact Hinv|lia].
Qed.

Lemma restore_entry_inv (i : nat) (st : vstate) :
  restore_inv src0 i st -> restore_inv src0 (S i) (restore_entry i st).
Proof.
  intros (Hlen & Hun & Hc & Hr & Hlow).
  unfold restore_entry.
  destruct (vs_src st !! i) as [[[p|] [|] lk]|] eqn:Hi.
  2: {
    pose proof (filter_length_insert v_migrate (vs_src st) i _ zero_entry Hi) as Hci.
    pose proof (filter_length_insert is_stale (vs_src st) i _ zero_entry Hi) as Hsi.
    cbn [v_migrate is_stale v_page zero_entry negb] in Hci, Hsi.
    assert (Hlt : (i < length (vs_src st))%nat) by (eapply lookup_lt_Some; eauto).
    unfold restore_inv, count_migrate, count_stale in *; cbn [vs_src vs_cpages vs_restore].
    split; [rewrite length_insert; exact Hlen|].
    split; [|split; [lia|split; [lia|]]].
    - intros j e0 p0 He0 Hp0 Hc0.
      destruct (Hun j e0 p0 He0 Hp0 Hc0) as [e1 [He1 Hm1]].
      destruct (Nat.eq_dec j i) as [->|Hne].
      + exists zero_entry; cbn [vs_src]; split; [apply list_lookup_insert_eq; exact Hlt|reflexivity].
      + exists e1; cbn [vs_src]; rewrite list_lookup_insert_ne by lia; auto.
    - intros j e Hj He.
      destruct (Nat.eq_dec j i) as [->|Hne].
      + rewrite list_lookup_insert_eq in He by exact Hlt.
        injection He as <-; reflexivity.
      + rewrite list_lookup_insert_ne in He by lia; apply (Hlow j); [lia|exact He]. }
  all: split; [exact Hlen|split; [exact Hun|split; [exact Hc|split; [exact Hr|]]]].
  all: intros j e Hj He; destruct (Nat.eq_dec j i) as [->|Hne];
    [rewrite Hi in He; first [discriminate He|injection He as <-; reflexivity]
    |apply (Hlow j); [lia|exact He]].
Qed.

Lemma restore_loop_spec (fuel i : nat) (st : vstate) :
  restore_inv src0 i st -> (i + fuel = length src0)%nat ->
  let st' := restore_loop fuel i st in
  length (vs_src st') = length src0 /\
  (forall j, compound_unwound src0 j st') /\
  vs_cpages st' = count_migrate (vs_src st') /\
  (forall j e, vs_src st' !! j = Some e -> is_stale e = false).
Proof.
  revert i st; induction fuel as [|fuel IH]; intros i st Hinv Hi; cbv zeta;
    cbn [restore_loop].
  - destruct Hinv as (Hlen & Hun & Hc & Hr & Hlow).
    split; [exact Hlen|]; split; [exact Hun|]; split; [exact Hc|].
    intros j e He; apply (Hlow j); [|exact He].
    apply lookup_lt_Some in He; lia.
  - destruct (Nat.eqb (vs_restore st) 0) eqn:Hz.
    + apply Nat.eqb_eq in Hz.
      destruct Hinv as (Hlen & Hun & Hc & Hr & Hlow).
      split; [exact Hlen|]; split; [exact Hun|]; split; [exact Hc|].
      intros j e He; apply (filter_length_zero is_stale (vs_src st) j e);
        [unfold count_stale in Hr; lia|exact He].
    + apply (IH (S i)); [apply restore_entry_inv; exact Hinv|lia].
Qed.

Lemma migrate_vma_prepare_spec (cpages : nat) :
  cpages = count_migrate src0 ->
  let st := migrate_vma_prepare V src0 cpages in
  length (vs_src st) = length src0 /\
  vs_cpages st = count_migrate (vs_src st) /\
  (forall j e p, src0 !! j = Some e -> v_page e = Some p -> vp_compound p = true ->
     exists e', vs_src st !! j = Some e' /\ v_migrate e' = false /\
                v_page e' = None).
Proof.
  intros Hcp; cbv zeta; unfold migrate_vma_prepare; cbv zeta.
  assert (H0 : prepare_inv src0 0 (mkVState src0 cpages 0 [])).
  { split; [reflexivity|]; split; [reflexivity|]; split; [intros j Hj; lia|].
    split; [exact Hcp|]; cbn [vs_restore vs_src]; symmetry.
    apply filter_length_none; intros j e Hj; unfold is_stale.
    destruct (v_page e) eqn:Hp; [|reflexivity].
    rewrite (Hcollect j e Hj ltac:(congruence)); reflexivity. }
  pose proof (prepare_loop_spec (length src0) 0 _ H0 eq_refl) as H1.
  destruct (restore_loop_spec (length src0) 0 _ H1 eq_refl)
    as (Hlen & Hun & Hc & Hno).
  split; [exact Hlen|]; split; [exact Hc|].
  intros j e p He Hp Hcmp.
  destruct (Hun j e p He Hp Hcmp) as [e' [He' Hm']].
  exists e'; split; [exact He'|]; split; [exact Hm'|].
  pose proof (Hno j e' He') as Hs; unfold is_stale in Hs.
  rewrite Hm' in Hs; destruct (v_page e'); [discriminate|reflexivity].
Qed.

End VmaProofs.

Section VmaClaims.
Import Vma.

(** C9: a compound page is never eligible: migrate_vma_check_page is false
    for it, and migrate_vma_prepare, run on what migrate_vma_collect leaves
    (every entry holding a page marked MIGRATE_PFN_MIGRATE, cpages counting
    the marked entries), ends with the entry of every compound page unmarked
    and no longer holding the page (restored or released), with cpages
    decremented so that it counts exactly the entries still marked. *)
Theorem migrate_vma_compound_ineligible :
  (forall p, vp_compound p = true -> migrate_vma_check_page p = false) /\
  (forall V src cpages,
     (forall j e, src !! j = Some e -> v_page e <> None -> v_migrate e = true) ->
     cpages = count_migrate src ->
     let st := migrate_vma_prepare V src cpages in
     length (vs_src st) = length src /\
     vs_cpages st = count_migrate (vs_src st) /\
     (forall j e p, src !! j = Some e -> v_page e = Some p -> vp_compound p = true ->
        exists e', vs_src st !! j = Some e' /\ v_migrate e' = false /\
                   v_page e' = None)).
Proof.
  split; [exact check_page_compound|].
  intros V src cpages Hcollect Hcp.
  exact (migrate_vma_prepare_spec V src Hcollect cpages Hcp).
Qed.

End VmaClaims.

Section PmemProofs.
Import Pmem.

Lemma opt_true_iff (o : option bool) :
  (match o with Some b => b | None => false end) = true <-> o = Some true.
Proof. destruct o as [[]|]; split; intros H; congruence. Qed.

Lemma mark_cpus_length (T : topology) (cpus : list Z) (ic : list bool) (ntc : list Z) :
  length (fst (mark_cpus T cpus ic ntc)) = length ic /\
  length (snd (mark_cpus T cpus ic ntc)) = length ntc.
Proof.
  revert ic ntc; induction cpus as [|cpu cpus IH]; intros ic ntc; simpl; [auto|].
  destruct (_ && _); [|apply IH].
  destruct (IH (<[Z.to_nat (cpu_to_node T cpu) := true]> ic)
              (<[Z.to_nat (cpu_to_node T cpu) := cpu]> ntc)) as [H1 H2].
  rewrite H1, H2, !length_insert; auto.
Qed.

(** A node marked as a CPU node names a present CPU on it. *)
Lemma mark_cpus_sound (T : topology) (cpus : list Z) (ic : list bool) (ntc : list Z) :
  length ic = length ntc ->
  (forall cpu, In cpu cpus -> In cpu (present_cpus T)) ->
  (forall j, ic !! j = Some true ->
     exists cpu, cpu_on T cpu j /\ ntc !! j = Some cpu) ->
  forall j, fst (mark_cpus T cpus ic ntc) !! j = Some true ->
  exists cpu, cpu_on T cpu j /\ snd (mark_cpus T cpus ic ntc) !! j = Some cpu.
Proof.
  revert ic ntc; induction cpus as [|cpu cpus IH]; intros ic ntc Hlen Hp Hinv;
    simpl; [exact Hinv|].
  destruct ((0 <=? cpu_to_node T cpu) && (cpu_to_node T cpu <? Z.of_nat (MAX_NUMNODES T)))
    eqn:Hr; [|apply IH; auto; intros c Hc; apply Hp; right; exact Hc].
  apply IH; [rewrite !length_insert; exact Hlen|intros c Hc; apply Hp; right; exact Hc|].
  apply andb_true_iff in Hr as [Hr1 Hr2]; apply Z.leb_le in Hr1.
  intros j Hj.
  destruct (Nat.eq_dec j (Z.to_nat (cpu_to_node T cpu))) as [->|Hne].
  - assert (Hlt : (Z.to_nat (cpu_to_node T cpu) < length ic)%nat).
    { apply lookup_lt_Some in Hj; rewrite length_insert in Hj; exact Hj. }
    exists cpu; split; [split; [apply Hp; left; reflexivity|lia]|].
    apply list_lookup_insert_eq; lia.
  - rewrite list_lookup_insert_ne in Hj by congruence.
    destruct (Hinv j Hj) as [c [Hc Hn]]; exists c; split; [exact Hc|].
    rewrite list_lookup_insert_ne by congruence; exact Hn.
Qed.

Lemma mark_cpus_mono (T : topology) (cpus : list Z) (ic : list bool) (ntc : list Z)
    (j : nat) :
  ic !! j = Some true -> fst (mark_cpus T cpus ic ntc) !! j = Some true.
Proof.
  revert ic ntc; induction cpus as [|cpu cpus IH]; intros ic ntc Hj; simpl; [exact Hj|].
  destruct (_ && _); apply IH; [|exact Hj].
  destruct (Nat.eq_dec j (Z.to_nat (cpu_to_node T cpu))) as [->|Hne].
  - apply list_lookup_insert_eq; eapply lookup_lt_Some; eauto.
  - rewrite list_lookup_insert_ne by congruence; exact Hj.
Qed.

(** Every present CPU on a node in range marks that node. *)
Lemma mark_cpus_complete (T : topology) (cpus : list Z) (ic : list bool)
    (ntc : list Z) (cpu : Z) (j : nat) :
  length ic = MAX_NUMNODES T -> In cpu cpus -> cpu_to_node T cpu = Z.of_nat j ->
  (j < MAX_NUMNODES T)%nat -> fst (mark_cpus T cpus ic ntc) !! j = Some true.
Proof.
  revert ic ntc; induction cpus as [|c cpus IH]; intros ic ntc Hlen Hin Hn Hj;
    [destruct Hin|].
  destruct Hin as [->|Hin].
  - simpl; rewrite Hn.
    replace ((0 <=? Z.of_nat j) && (Z.of_nat j <? Z.of_nat (MAX_NUMNODES T)))
      with true by (symmetry; apply andb_true_iff; split; [apply Z.leb_le|apply Z.ltb_lt]; lia).
    apply mark_cpus_mono; rewrite Nat2Z.id; apply list_lookup_insert_eq; lia.
  - simpl; destruct (_ && _); apply IH; auto.
    rewrite length_insert; exact Hlen.
Qed.

(** The inner loop keeps the first CPU node of least distance below cmin. *)
Lemma closest_scan_spec (T : topology) (i : nat) (ic : list bool) (ntc : list Z) :
  forall js cmin cur,
  let r := closest_scan T i ic ntc js cmin cur in
  ((forall j, In j js -> ic !! j = Some true -> cmin <= node_distance T i j) /\
   r = cur) \/
  (exists j, In j js /\ ic !! j = Some true /\ node_distance T i j < cmin /\
     r = (match ntc !! j with Some c => c | None => -1 end) /\
     forall j', In j' js -> ic !! j' = Some true ->
       node_distance T i j <= node_distance T i j').
Proof.
  induction js as [|j js IH]; intros cmin cur; cbv zeta; simpl.
  - left; split; [intros _ []|reflexivity].
  - destruct ((match ic !! j with Some b => b | None => false end)
              && (node_distance T i j <? cmin)) eqn:Hc.
    + apply andb_true_iff in Hc as [Hc1 Hc2]; apply opt_true_iff in Hc1;
        apply Z.ltb_lt in Hc2.
      right.
      destruct (IH (node_distance T i j)
                  (match ntc !! j with Some c => c | None => -1 end))
        as [[Hnone Hr]|(j2 & Hin2 & Hic2 & Hd2 & Hr & Hmin)].
      * exists j; split; [left; reflexivity|]; split; [exact Hc1|]; split; [exact Hc2|].
        split; [exact Hr|].
        intros j' [<-|Hj'] Hic'; [lia|apply Hnone; assumption].
      * exists j2; split; [right; exact Hin2|]; split; [exact Hic2|]; split; [lia|].
        split; [exact Hr|].
        intros j' [<-|Hj'] Hic'; [lia|apply Hmin; assumption].
    + destruct (IH cmin cur) as [[Hnone Hr]|(j2 & Hin2 & Hic2 & Hd2 & Hr & Hmin)].
      * left; split; [|exact Hr].
        intros j' [<-|Hj'] Hic'; [|apply Hnone; assumption].
        rewrite Hic' in Hc; simpl in Hc; apply Z.ltb_ge in Hc; exact Hc.
      * right; exists j2; split; [right; exact Hin2|]; split; [exact Hic2|];
          split; [exact Hd2|]; split; [exact Hr|].
        intros j' [<-|Hj'] Hic'; [|apply Hmin; assumption].
        rewrite Hic' in Hc; simpl in Hc; apply Z.ltb_ge in Hc; lia.
Qed.

Lemma fill_closest_length (T : topology) (ic : list bool) (ntc : list Z) :
  forall is closest, length (fill_closest T ic ntc is closest) = length closest.
Proof.
  induction is as [|k is IH]; intros closest; simpl; [reflexivity|].
  rewrite IH, length_insert; reflexivity.
Qed.

Lemma fill_closest_notin (T : topology) (ic : list bool) (ntc : list Z) (i : nat) :
  forall is closest, ~ In i is ->
  fill_closest T ic ntc is closest !! i = closest !! i.
Proof.
  induction is as [|k is IH]; intros closest Hni; simpl; [reflexivity|].
  rewrite IH by (intros H; apply Hni; right; exact H).
  rewrite list_lookup_insert_ne; [reflexivity|].
  intros ->; apply Hni; left; reflexivity.
Qed.

Lemma fill_closest_in (T : topology) (ic : list bool) (ntc : list Z) (i : nat) :
  forall is closest, NoDup is -> In i is -> (i < length closest)%nat ->
  fill_closest T ic ntc is closest !! i =
  Some (closest_for T ic ntc i (match closest !! i with Some c => c | None => 0 end)).
Proof.
  induction is as [|k is IH]; intros closest Hnd Hin Hlt; [destruct Hin|].
  apply NoDup_cons in Hnd as [Hk Hnd]; simpl.
  destruct (Nat.eq_dec i k) as [->|Hne].
  - rewrite fill_closest_notin by (intros H; apply Hk; apply list_elem_of_In; exact H).
    apply list_lookup_insert_eq; exact Hlt.
  - destruct Hin as [->|Hin]; [congruence|].
    rewrite IH; [|exact Hnd|exact Hin|rewrite length_insert; exact Hlt].
    rewrite list_lookup_insert_ne by congruence; reflexivity.
Qed.

(** What init computes for node i, when it runs. *)
Lemma init_closest_at (T : topology) (s : pstate) (i : nat) :
  CLOSEST_CPU_NODE_FOR_PMEM_INITIALIZED s = false ->
  length (CLOSEST_CPU_NODE_FOR_PMEM s) = MAX_NUMNODES T ->
  (i < MAX_NUMNODES T)%nat ->
  exists ic ntc,
    mark_cpus T (present_cpus T) (replicate (MAX_NUMNODES T) false)
      (replicate (MAX_NUMNODES T) (-1)) = (ic, ntc) /\
    init_closest_cpu_node_for_pmem_list_kernel T true true s =
      mkPState (fill_closest T ic ntc (seq 0 (MAX_NUMNODES T))
                  (CLOSEST_CPU_NODE_FOR_PMEM s)) true /\
    fill_closest T ic ntc (seq 0 (MAX_NUMNODES T)) (CLOSEST_CPU_NODE_FOR_PMEM s) !! i =
      Some (closest_for T ic ntc i
              (match CLOSEST_CPU_NODE_FOR_PMEM s !! i with Some c => c | None => 0 end)).
Proof.
  intros Hinit Hlen Hi.
  unfold init_closest_cpu_node_for_pmem_list_kernel; rewrite Hinit; simpl.
  destruct (mark_cpus T (present_cpus T) (replicate (MAX_NUMNODES T) false)
              (replicate (MAX_NUMNODES T) (-1))) as [ic ntc] eqn:Hm.
  exists ic, ntc; split; [reflexivity|]; split; [reflexivity|].
  apply fill_closest_in; [apply NoDup_seq|apply in_seq; lia|lia].
Qed.

Lemma get_nearest_at (T : topology) (s : pstate) (i : nat) :
  CLOSEST_CPU_NODE_FOR_PMEM_INITIALIZED s = false ->
  length (CLOSEST_CPU_NODE_FOR_PMEM s) = MAX_NUMNODES T ->
  (i < MAX_NUMNODES T)%nat ->
  exists ic ntc,
    mark_cpus T (present_cpus T) (replicate (MAX_NUMNODES T) false)
      (replicate (MAX_NUMNODES T) (-1)) = (ic, ntc) /\
    fst (get_nearest_cpu_node T true true s (Z.of_nat i)) =
      closest_for T ic ntc i
        (match CLOSEST_CPU_NODE_FOR_PMEM s !! i with Some c => c | None => 0 end).
Proof.
  intros Hinit Hlen Hi.
  destruct (init_closest_at T s i Hinit Hlen Hi) as (ic & ntc & Hm & Hs & Hf).
  exists ic, ntc; split; [exact Hm|].
  unfold get_nearest_cpu_node; rewrite Hs; cbn [fst CLOSEST_CPU_NODE_FOR_PMEM
    CLOSEST_CPU_NODE_FOR_PMEM_INITIALIZED negb orb].
  replace (Z.of_nat i <? 0) with false by (symmetry; apply Z.ltb_ge; lia).
  replace (Z.of_nat (MAX_NUMNODES T) <=? Z.of_nat i) with false
    by (symmetry; apply Z.leb_gt; lia).
  rewrite Nat2Z.id, Hf; reflexivity.
Qed.

(** ** Extra: the CPU get_nearest_cpu_node gives for a PMEM node sits on a
    CPU node at the least distance from it. *)
Theorem get_nearest_cpu_node_nearest (T : topology) (s : pstate) (i : nat)
    (Hinit : CLOSEST_CPU_NODE_FOR_PMEM_INITIALIZED s = false)
    (Hlen : length (CLOSEST_CPU_NODE_FOR_PMEM s) = MAX_NUMNODES T)
    (Hi : (i < MAX_NUMNODES T)%nat) (Hpmem : IS_PMEM_NODE T i = true)
    (Hnear : exists cpu j, cpu_on T cpu j /\ (j < MAX_NUMNODES T)%nat /\
                           node_distance T i j < 256) :
  let r := get_nearest_cpu_node T true true s (Z.of_nat i) in
  CLOSEST_CPU_NODE_FOR_PMEM_INITIALIZED (snd r) = true /\
  exists cpu j, cpu_on T cpu j /\ (j < MAX_NUMNODES T)%nat /\ fst r = cpu /\
    node_distance T i j < 256 /\
    forall cpu' j', cpu_on T cpu' j' -> (j' < MAX_NUMNODES T)%nat ->
      node_distance T i j <= node_distance T i j'.
Proof.
  cbv zeta; split.
  { unfold get_nearest_cpu_node, init_closest_cpu_node_for_pmem_list_kernel.
    rewrite Hinit; simpl; destruct (mark_cpus _ _ _ _); reflexivity. }
  destruct (get_nearest_at T s i Hinit Hlen Hi) as (ic & ntc & Hm & Hr).
  rewrite Hr; unfold closest_for; rewrite Hpmem.
  assert (Hmark : forall cpu j, cpu_on T cpu j -> (j < MAX_NUMNODES T)%nat ->
                  ic !! j = Some true).
  { intros cpu j [Hin Hn] Hj.
    replace ic with (fst (mark_cpus T (present_cpus T) (replicate (MAX_NUMNODES T) false)
                            (replicate (MAX_NUMNODES T) (-1)))) by (rewrite Hm; reflexivity).
    apply (mark_cpus_complete T _ _ _ cpu); auto; apply length_replicate. }
  assert (Hsound : forall j, ic !! j = Some true ->
                   exists cpu, cpu_on T cpu j /\ ntc !! j = Some cpu).
  { intros j Hj.
    pose proof (mark_cpus_sound T (present_cpus T) (replicate (MAX_NUMNODES T) false)
                  (replicate (MAX_NUMNODES T) (-1))) as H.
    rewrite Hm in H; simpl in H; apply H; auto.
    - rewrite !length_replicate; reflexivity.
    - intros j' Hj'; apply lookup_replicate in Hj' as [Hf _]; discriminate. }
  destruct Hnear as (cpu0 & j0 & Hon0 & Hj0 & Hd0).
  destruct (closest_scan_spec T i ic ntc (seq 0 (MAX_NUMNODES T)) 256
              (match CLOSEST_CPU_NODE_FOR_PMEM s !! i with Some c => c | None => 0 end))
    as [[Hnone _]|(j & Hin & Hic & Hd & Hres & Hmin)].
  - exfalso; specialize (Hnone j0 ltac:(apply in_seq; lia) (Hmark _ _ Hon0 Hj0)); lia.
  - destruct (Hsound j Hic) as (cpu & Hon & Hn).
    apply in_seq in Hin.
    exists cpu, j; split; [exact Hon|]; split; [lia|]; split; [rewrite Hres, Hn; reflexivity|].
    split; [exact Hd|].
    intros cpu' j' Hon' Hj'; apply Hmin; [apply in_seq; lia|exact (Hmark _ _ Hon' Hj')].
Qed.


(** ** Extra: get_nearest_cpu_node answers -1 for a node out of range, and
    -1 without marking the table initialised when an allocation fails (the
    next call tries again); once the table is initialised, later calls never
    recompute it and answer from it. *)
Theorem get_nearest_cpu_node_cases (T : topology) :
  (forall ok1 ok2 s node, node < 0 \/ Z.of_nat (MAX_NUMNODES T) <= node ->
     fst (get_nearest_cpu_node T ok1 ok2 s node) = -1) /\
  (forall ok1 ok2 s node, CLOSEST_CPU_NODE_FOR_PMEM_INITIALIZED s = false ->
     ok1 = false \/ ok2 = false ->
     get_nearest_cpu_node T ok1 ok2 s node = (-1, s)) /\
  (forall ok1 ok2 s node, CLOSEST_CPU_NODE_FOR_PMEM_INITIALIZED s = true ->
     0 <= node < Z.of_nat (MAX_NUMNODES T) ->
     get_nearest_cpu_node T ok1 ok2 s node =
       (match CLOSEST_CPU_NODE_FOR_PMEM s !! Z.to_nat node with
        | Some c => c | None => 0 end, s)).
Proof.
  split; [|split].
  - intros ok1 ok2 s node Hn; unfold get_nearest_cpu_node; simpl.
    destruct Hn as [Hn|Hn];
      [replace (node <? 0) with true by (symmetry; apply Z.ltb_lt; lia)
      |replace (Z.of_nat (MAX_NUMNODES T) <=? node) with true
         by (symmetry; apply Z.leb_le; lia)];
      rewrite ?orb_true_r; reflexivity.
  - intros ok1 ok2 s node Hinit Hok; unfold get_nearest_cpu_node,
      init_closest_cpu_node_for_pmem_list_kernel; rewrite Hinit.
    destruct Hok as [->| ->]; [|destruct ok1]; simpl; rewrite ?Hinit; reflexivity.
  - intros ok1 ok2 s node Hinit Hn; unfold get_nearest_cpu_node,
      init_closest_cpu_node_for_pmem_list_kernel; rewrite Hinit; simpl; rewrite Hinit.
    replace (node <? 0) with false by (symmetry; apply Z.ltb_ge; lia).
    replace (Z.of_nat (MAX_NUMNODES T) <=? node) with false
      by (symmetry; apply Z.leb_gt; lia).
    reflexivity.
Qed.

End PmemProofs.

Section PmemInstances.
Import Pmem PmemSamples.

Lemma get_nearest_cpu_node_nearest_witness :
  CLOSEST_CPU_NODE_FOR_PMEM_INITIALIZED (boot_pstate sample_topo) = false /\
  length (CLOSEST_CPU_NODE_FOR_PMEM (boot_pstate sample_topo)) =
    MAX_NUMNODES sample_topo /\
  (2 < MAX_NUMNODES sample_topo)%nat /\ IS_PMEM_NODE sample_topo 2 = true /\
  (exists cpu j, cpu_on sample_topo cpu j /\ (j < MAX_NUMNODES sample_topo)%nat /\
                 node_distance sample_topo 2 j < 256) /\
  (let r := get_nearest_cpu_node sample_topo true true (boot_pstate sample_topo)
              (Z.of_nat 2) in
   CLOSEST_CPU_NODE_FOR_PMEM_INITIALIZED (snd r) = true /\
   exists cpu j, cpu_on sample_topo cpu j /\ (j < MAX_NUMNODES sample_topo)%nat /\
     fst r = cpu /\ node_distance sample_topo 2 j < 256 /\
     forall cpu' j', cpu_on sample_topo cpu' j' ->
       (j' < MAX_NUMNODES sample_topo)%nat ->
       node_distance sample_topo 2 j <= node_distance sample_topo 2 j').
Proof.
  assert (Hnear : exists cpu j, cpu_on sample_topo cpu j /\
            (j < MAX_NUMNODES sample_topo)%nat /\
            node_distance sample_topo 2 j < 256).
  { exists 1, 1%nat; split; [split; [simpl; auto | reflexivity] | simpl; lia]. }
  split; [reflexivity|]. split; [reflexivity|]. split; [simpl; lia|].
  split; [reflexivity|]. split; [exact Hnear|].
  apply (get_nearest_cpu_node_nearest sample_topo (boot_pstate sample_topo) 2);
    [reflexivity | reflexivity | simpl; lia | reflexivity | exact Hnear].
Defined.


End PmemInstances.

(* ------------------------------------------------------------------------ *)
Section StatProofs.
Import Stat.
Variable E : statenv.

Lemma copy_from_user_some (off n : nat) (l : list Z) :
  copy_from_user E off n = Some l ->
  length l = n /\
  forall i, (i < n)%nat -> exists a, pages_user E (off + i) = Some a /\ l !! i = Some a.
Proof.
  revert off l; induction n as [|n IH]; intros off l H; simpl in H.
  - injection H as <-; split; [reflexivity | intros; lia].
  - destruct (pages_user E off) as [a|] eqn:Ha; [|discriminate].
    destruct (copy_from_user E (S off) n) as [l'|] eqn:Hl; [|discriminate].
    injection H as <-. destruct (IH _ _ Hl) as [Hlen Hl'].
    split; [simpl; lia|]. intros [|i] Hi.
    + exists a; rewrite Nat.add_0_r; split; [exact Ha | reflexivity].
    + destruct (Hl' i ltac:(lia)) as (b & Hb & Hbl).
      exists b; split; [|exact Hbl]. rewrite <- Hb; f_equal; lia.
Qed.

Lemma copy_from_user_none (off n : nat) :
  copy_from_user E off n = None ->
  exists i, (i < n)%nat /\ pages_user E (off + i) = None.
Proof.
  revert off; induction n as [|n IH]; intros off H; simpl in H; [discriminate|].
  destruct (pages_user E off) as [a|] eqn:Ha.
  - destruct (copy_from_user E (S off) n) as [l'|] eqn:Hl; [discriminate|].
    destruct (IH _ Hl) as (i & Hi & Hn). exists (S i); split; [lia|].
    rewrite <- Hn; f_equal; lia.
  - exists O; split; [lia | rewrite Nat.add_0_r; exact Ha].
Qed.

Lemma copy_from_user_fault (off n i : nat) :
  (i < n)%nat -> pages_user E (off + i) = None -> copy_from_user E off n = None.
Proof.
  revert off i; induction n as [|n IH]; intros off i Hi Hn; [lia|]; simpl.
  destruct (pages_user E off) as [a|] eqn:Ha; [|reflexivity].
  destruct i as [|i]; [rewrite Nat.add_0_r in Hn; congruence|].
  rewrite (IH (S off) i); [reflexivity | lia |].
  rewrite <- Hn; f_equal; lia.
Qed.

Lemma copy_to_user_spec (off : nat) (vals : list Z) (st : list (nat * Z)) :
  let r := copy_to_user E off vals st in
  exists W m, snd r = st ++ W /\ length W = m /\ (m <= length vals)%nat /\
    (forall i, (i < m)%nat -> status_ok E (off + i) = true /\
       exists v, vals !! i = Some v /\ W !! i = Some ((off + i)%nat, v)) /\
    ((fst r = true /\ m = length vals) \/
     (fst r = false /\ (m < length vals)%nat /\ status_ok E (off + m) = false)).
Proof.
  revert off st; induction vals as [|v vs IH]; intros off st; simpl.
  - exists [], O; rewrite app_nil_r.
    split; [reflexivity|]. split; [reflexivity|]. split; [lia|].
    split; [intros; lia | left; auto].
  - destruct (status_ok E off) eqn:Hs.
    + destruct (IH (S off) (st ++ [(off, v)])) as (W & m & Hst & Hlen & Hm & Hw & Hr).
      exists ((off, v) :: W), (S m). rewrite Hst, <- app_assoc.
      split; [reflexivity|]. split; [simpl; lia|]. split; [lia|]. split.
      * intros [|i] Hi.
        -- rewrite Nat.add_0_r; split; [exact Hs|]. exists v; split; reflexivity.
        -- destruct (Hw i ltac:(lia)) as (Hok & w & Hv & HW).
           replace (off + S i)%nat with (S off + i)%nat by lia.
           split; [exact Hok|]. exists w; split; [exact Hv | exact HW].
      * destruct Hr as [[-> ->]|(-> & Hlt & Hf)]; [left; auto|right].
        split; [reflexivity|]. split; [lia|].
        replace (off + S m)%nat with (S off + m)%nat by lia; exact Hf.
    + exists [], O; rewrite app_nil_r; simpl.
      split; [reflexivity|]. split; [reflexivity|]. split; [lia|].
      split; [intros; lia|].
      right; rewrite Nat.add_0_r; split; [reflexivity|]. split; [lia | exact Hs].
Qed.

Lemma stat_loop_spec (fuel : nat) :
  forall off nr st, (nr <= fuel)%nat ->
  let r := stat_loop E fuel off nr st in
  exists W k, snd r = st ++ W /\ length W = k /\ (k <= nr)%nat /\
    (forall i, (i < k)%nat -> status_ok E (off + i) = true /\
       exists a, pages_user E (off + i) = Some a /\
                 W !! i = Some ((off + i)%nat, stat_one E a)) /\
    ((fst r = O /\ k = nr) \/
     (fst r <> O /\ (k < nr)%nat /\
      exists i, (k <= i < nr)%nat /\
        (pages_user E (off + i) = None \/ status_ok E (off + i) = false))).
Proof.
  induction fuel as [|fuel IH]; intros off nr st Hnr.
  - assert (nr = O) as -> by lia. simpl. exists [], O; rewrite app_nil_r.
    split; [reflexivity|]. split; [reflexivity|]. split; [lia|].
    split; [intros; lia | left; auto].
  - destruct nr as [|nr'].
    { simpl. exists [], O; rewrite app_nil_r.
      split; [reflexivity|]. split; [reflexivity|]. split; [lia|].
    split; [intros; lia | left; auto]. }
    cbn [stat_loop]. set (chunk := Nat.min (S nr') DO_PAGES_STAT_CHUNK_NR).
    assert (Hc : (1 <= chunk <= S nr')%nat) by (unfold chunk, DO_PAGES_STAT_CHUNK_NR; lia).
    destruct (copy_from_user E off chunk) as [l|] eqn:Hl.
    + destruct (copy_from_user_some _ _ _ Hl) as [Hlen Hl'].
      pose proof (copy_to_user_spec off (do_pages_stat_array E l) st) as
        (W1 & m & Hst & Hlen1 & Hm & Hw & Hr).
      destruct (copy_to_user E off (do_pages_stat_array E l) st) as [ok st'].
      simpl in Hst, Hr. unfold do_pages_stat_array in Hm, Hr.
      rewrite length_map in Hm, Hr.
      assert (Hent : forall i, (i < m)%nat -> status_ok E (off + i) = true /\
                exists a, pages_user E (off + i) = Some a /\
                          W1 !! i = Some ((off + i)%nat, stat_one E a)).
      { intros i Hi. destruct (Hw i Hi) as (Hok & v & Hv & HW). split; [exact Hok|].
        unfold do_pages_stat_array in Hv. apply list_lookup_fmap_Some_1 in Hv.
        destruct Hv as (a & -> & Ha).
        destruct (Hl' i ltac:(lia)) as (b & Hb & Hbl). rewrite Ha in Hbl.
        injection Hbl as <-. exists a; split; assumption. }
      destruct Hr as [[-> Hmc]|(-> & Hlt & Hf)]; cbn [negb fst snd].
      * subst st'.
        pose proof (IH (off + chunk)%nat (S nr' - chunk)%nat (st ++ W1) ltac:(lia)) as Hih.
        cbv zeta in Hih. destruct Hih as
          (W2 & k2 & Hst2 & Hlen2 & Hk2 & Hw2 & Hr2).
        exists (W1 ++ W2), (chunk + k2)%nat.
        rewrite Hst2, app_assoc. split; [reflexivity|].
        split; [rewrite length_app; lia|]. split; [lia|]. split.
        -- intros i Hi. destruct (decide (i < chunk)%nat) as [Hlt|Hge].
           ++ destruct (Hent i ltac:(lia)) as (Hok & a & Ha & HW).
              split; [exact Hok|]. exists a; split; [exact Ha|].
              rewrite lookup_app_l by lia; exact HW.
           ++ destruct (Hw2 (i - chunk)%nat ltac:(lia)) as (Hok & a & Ha & HW).
              replace (off + chunk + (i - chunk))%nat with (off + i)%nat in * by lia.
              split; [exact Hok|]. exists a; split; [exact Ha|].
              rewrite lookup_app_r by lia. rewrite Hlen1, Hmc, Hlen; exact HW.
        -- destruct Hr2 as [[H0 ->]|(H0 & Hlt & i & Hi & Hf)]; [left; split; [exact H0|lia]|].
           right; split; [exact H0|]. split; [lia|].
           exists (chunk + i)%nat; split; [lia|].
           replace (off + (chunk + i))%nat with (off + chunk + i)%nat by lia; exact Hf.
      * exists W1, m. rewrite Hst. split; [reflexivity|]. split; [exact Hlen1|].
        split; [lia|]. split; [exact Hent|].
        right; split; [discriminate|]. split; [lia|].
        exists m; split; [lia|]. right; exact Hf.
    + destruct (copy_from_user_none _ _ Hl) as (i & Hi & Hn).
      exists [], O; rewrite app_nil_r. simpl.
      split; [reflexivity|]. split; [reflexivity|]. split; [lia|]. split; [intros; lia|].
      right; split; [discriminate|]. split; [lia|].
      exists i; split; [lia | left; exact Hn].
Qed.

Lemma stat_loop_read_fault (fuel : nat) :
  forall off nr st j, (nr <= fuel)%nat -> (j < nr)%nat ->
  pages_user E (off + j) = None ->
  (forall i, (i < j)%nat -> pages_user E (off + i) <> None) ->
  (forall i, (i < nr)%nat -> status_ok E (off + i) = true) ->
  length (snd (stat_loop E fuel off nr st)) = (length st + (j - j mod 16))%nat.
Proof.
  induction fuel as [|fuel IH]; intros off nr st j Hnr Hj Hn Hr Hw; [lia|].
  destruct nr as [|nr']; [lia|]. cbn [stat_loop].
  destruct (decide (j < 16)%nat) as [Hlt|Hge].
  - rewrite (copy_from_user_fault off _ j) by (unfold DO_PAGES_STAT_CHUNK_NR; lia || exact Hn).
    cbn [snd]. rewrite Nat.mod_small by lia. lia.
  - replace (Nat.min (S nr') DO_PAGES_STAT_CHUNK_NR) with 16%nat
      by (unfold DO_PAGES_STAT_CHUNK_NR; lia).
    destruct (copy_from_user E off 16) as [l|] eqn:Hl.
    2:{ destruct (copy_from_user_none _ _ Hl) as (i & Hi & Hi'). exfalso.
        exact (Hr i ltac:(lia) Hi'). }
    destruct (copy_from_user_some _ _ _ Hl) as [Hlen _].
    pose proof (copy_to_user_spec off (do_pages_stat_array E l) st) as
      (W1 & m & Hst & Hlen1 & Hm & _ & Hres).
    destruct (copy_to_user E off (do_pages_stat_array E l) st) as [ok st'].
    simpl in Hst, Hres. unfold do_pages_stat_array in Hres; rewrite length_map, Hlen in Hres.
    destruct Hres as [[-> Hmc]|(_ & Hlt & Hf)].
    2:{ rewrite (Hw m ltac:(lia)) in Hf; discriminate. }
    cbn [negb]. rewrite (IH (off + 16)%nat (S nr' - 16)%nat st' (j - 16)%nat); try lia.
    + rewrite Hst, length_app, Hlen1, Hmc.
      assert (Hjm : (j mod 16 = (j - 16) mod 16)%nat).
      { replace j with ((j - 16) + 1 * 16)%nat at 1 by lia. apply Nat.Div0.mod_add. }
      rewrite Hjm. pose proof (Nat.Div0.mod_le (j - 16) 16). lia.
    + rewrite <- Hn; f_equal; lia.
    + intros i Hi. replace (off + 16 + i)%nat with (off + (i + 16))%nat by lia.
      apply Hr; lia.
    + intros i Hi. replace (off + 16 + i)%nat with (off + (i + 16))%nat by lia.
      apply Hw; lia.
Qed.

End StatProofs.

Section StatTheorems.
Import Stat.

(** do_pages_stat stores, in order, the status of a prefix of the array:
    status[j] is the node of the page at pages[j], or the error of its
    lookup.  It returns 0 when the prefix is the whole array, and -EFAULT
    otherwise. *)
Theorem do_pages_stat_prefix (E : statenv) (n : nat) :
  let r := do_pages_stat E n in
  exists k, (k <= n)%nat /\ length (snd r) = k /\
    (forall j, (j < k)%nat ->
       exists a, pages_user E j = Some a /\ snd r !! j = Some (j, stat_one E a)) /\
    ((fst r = 0 /\ k = n) \/ (fst r = - EFAULT /\ (k < n)%nat)).
Proof.
  unfold do_pages_stat.
  pose proof (stat_loop_spec E n O n [] (le_n n)) as H; cbv zeta in H.
  destruct (stat_loop E n O n []) as [rest st].
  destruct H as (W & k & Hst & Hlen & Hk & Hw & Hr); simpl in Hst, Hr |- *.
  subst st. exists k. split; [exact Hk|]. split; [exact Hlen|]. split.
  - intros j Hj. destruct (Hw j Hj) as (_ & a & Ha & HW). exists a; split; assumption.
  - destruct Hr as [[-> ->]|(Hne & Hlt & _)]; [left; auto|].
    right; split; [|exact Hlt]. destruct rest; [congruence | reflexivity].
Qed.

(** do_pages_stat returns 0 exactly when every entry pages[j] can be read
    and every status[j] can be written, for j below nr_pages. *)
Theorem do_pages_stat_ok_iff (E : statenv) (n : nat) :
  fst (do_pages_stat E n) = 0 <->
  forall j, (j < n)%nat -> pages_user E j <> None /\ status_ok E j = true.
Proof.
  unfold do_pages_stat.
  pose proof (stat_loop_spec E n O n [] (le_n n)) as H; cbv zeta in H.
  destruct (stat_loop E n O n []) as [rest st].
  destruct H as (W & k & Hst & Hlen & Hk & Hw & Hr); simpl in Hst, Hr |- *.
  split.
  - intros H0 j Hj. destruct Hr as [[-> ->]|(Hne & Hlt & _)].
    + destruct (Hw j Hj) as (Hok & a & Ha & _). simpl in Ha.
      split; [congruence | exact Hok].
    + destruct rest; [congruence | discriminate].
  - intros Hall. destruct Hr as [[-> _]|(_ & _ & i & Hi & Hf)]; [reflexivity|].
    exfalso. destruct (Hall i ltac:(lia)) as [Hp Hs].
    destruct Hf as [Hf|Hf]; congruence.
Qed.

(** When the first unreadable entry of pages is pages[j] and status can be
    written throughout, do_pages_stat stores the statuses of the whole
    16-entry chunks before j only: j - j mod 16 words, none of the chunk
    holding j. *)
Theorem do_pages_stat_read_fault_chunk (E : statenv) (n j : nat)
    (Hj : (j < n)%nat) (Hn : pages_user E j = None)
    (Hr : forall i, (i < j)%nat -> pages_user E i <> None)
    (Hw : forall i, (i < n)%nat -> status_ok E i = true) :
  do_pages_stat E n = (- EFAULT, snd (do_pages_stat E n)) /\
  length (snd (do_pages_stat E n)) = (j - j mod 16)%nat.
Proof.
  pose proof (stat_loop_read_fault E n O n [] j (le_n n) Hj Hn Hr Hw) as Hl.
  pose proof (stat_loop_spec E n O n [] (le_n n)) as H; cbv zeta in H.
  unfold do_pages_stat.
  destruct (stat_loop E n O n []) as [rest st].
  destruct H as (W & k & Hst & Hlen & Hk & Hw' & Hres); simpl in Hst, Hres, Hl |- *.
  split; [|exact Hl].
  destruct Hres as [[-> ->]|(Hne & _)].
  - destruct (Hw' j Hj) as (_ & a & Ha & _). simpl in Ha. congruence.
  - destruct rest; [congruence | reflexivity].
Qed.

End StatTheorems.

Section StatInstances.
Import Stat StatSamples.

Lemma do_pages_stat_read_fault_chunk_witness :
  (20 < 40)%nat /\ pages_user fault20_env 20 = None /\
  (forall i, (i < 20)%nat -> pages_user fault20_env i <> None) /\
  (forall i, (i < 40)%nat -> status_ok fault20_env i = true) /\
  do_pages_stat fault20_env 40 = (- EFAULT, snd (do_pages_stat fault20_env 40)) /\
  length (snd (do_pages_stat fault20_env 40)) = (20 - 20 mod 16)%nat.
Proof.
  assert (Hr : forall i, (i < 20)%nat -> pages_user fault20_env i <> None).
  { intros i Hi; simpl; destruct (Nat.eqb_spec i 20); [lia | discriminate]. }
  assert (Hw : forall i, (i < 40)%nat -> status_ok fault20_env i = true)
    by reflexivity.
  split; [lia|]. split; [reflexivity|]. split; [exact Hr|]. split; [exact Hw|].
  exact (do_pages_stat_read_fault_chunk fault20_env 40 20 ltac:(lia) eq_refl Hr Hw).
Defined.

End StatInstances.

(* ------------------------------------------------------------------------ *)
Section BufferProofs.
Import Swap Buffers.

Lemma lock_all_app (a b : buffers) : lock_all (a ++ b) = lock_all a ++ lock_all b.
Proof. apply map_app. Qed.

Lemma unlock_all_app (a b : buffers) : unlock_all (a ++ b) = unlock_all a ++ unlock_all b.
Proof. apply map_app. Qed.

Lemma unlock_lock_all (a : buffers) : unlock_all (lock_all a) = unlock_all a.
Proof. unfold unlock_all, lock_all; rewrite map_map; reflexivity. Qed.

Lemma trylock_loop_spec (rest t : buffers) :
  trylock_loop (lock_all t) rest =
  if forallb negb rest then (true, lock_all (t ++ rest))
  else (false, unlock_all t ++ rest).
Proof.
  revert t; induction rest as [|b rest IH]; intros t; simpl.
  - rewrite app_nil_r; reflexivity.
  - destruct b; simpl.
    + rewrite unlock_lock_all; reflexivity.
    + replace (lock_all t ++ [true]) with (lock_all (t ++ [false]))
        by (rewrite lock_all_app; reflexivity).
      rewrite IH, unlock_all_app.
      destruct (forallb negb rest); rewrite <- app_assoc; reflexivity.
Qed.

Lemma trylock_loop_prefix (pre rest t : buffers) :
  forallb negb pre = true ->
  trylock_loop (lock_all t) (pre ++ rest) = trylock_loop (lock_all (t ++ pre)) rest.
Proof.
  revert t; induction pre as [|b pre IH]; intros t Hpre; simpl.
  - rewrite app_nil_r; reflexivity.
  - simpl in Hpre; apply andb_true_iff in Hpre as [Hb Hpre].
    destruct b; [discriminate|].
    replace (lock_all t ++ [true]) with (lock_all (t ++ [false]))
      by (rewrite lock_all_app; reflexivity).
    rewrite IH by exact Hpre. rewrite <- app_assoc; reflexivity.
Qed.

Lemma lock_buffers_eq (head : buffers) (mode : migrate_mode) :
  buffer_migrate_lock_buffers head mode =
  if negb (base_mode_eqb (m_base mode) MIGRATE_ASYNC) || forallb negb head
  then (true, lock_all head) else (false, head).
Proof.
  unfold buffer_migrate_lock_buffers.
  destruct (negb (base_mode_eqb (m_base mode) MIGRATE_ASYNC)); [reflexivity|]. simpl.
  pose proof (trylock_loop_spec head []) as H; simpl in H; rewrite H.
  destruct (forallb negb head); reflexivity.
Qed.

End BufferProofs.

Section BufferTheorems.
Import Swap Buffers.

(** buffer_migrate_lock_buffers takes every buffer lock or none: in a
    synchronous mode, or in async mode when no buffer is locked, it returns
    true with all buffers locked; in async mode with some buffer locked it
    returns false and leaves every lock bit as it found it.  In async mode
    the loop reaches the first locked buffer (failed_bh) holding the lock
    of every buffer before it, and the unwind unlocks exactly those: the
    failed buffer and the ones after it are not touched. *)
Theorem buffer_migrate_lock_buffers_all_or_nothing (head : buffers)
    (mode : migrate_mode) :
  buffer_migrate_lock_buffers head mode =
  (if negb (base_mode_eqb (m_base mode) MIGRATE_ASYNC) || forallb negb head
   then (true, map (fun _ => true) head) else (false, head)) /\
  (base_mode_eqb (m_base mode) MIGRATE_ASYNC = true ->
   forall pre post, forallb negb pre = true -> head = pre ++ true :: post ->
   buffer_migrate_lock_buffers head mode = trylock_loop (lock_all pre) (true :: post) /\
   trylock_loop (lock_all pre) (true :: post) =
     (false, unlock_all (lock_all pre) ++ true :: post)).
Proof.
  split.
  2:{ intros Ha pre post Hpre ->; unfold buffer_migrate_lock_buffers; rewrite Ha; simpl.
      split; [|reflexivity].
      exact (trylock_loop_prefix pre (true :: post) [] Hpre). }
  unfold buffer_migrate_lock_buffers.
  destruct (negb (base_mode_eqb (m_base mode) MIGRATE_ASYNC)); [reflexivity|]. simpl.
  pose proof (trylock_loop_spec head []) as H; simpl in H; rewrite H.
  destruct (forallb negb head); reflexivity.
Qed.

(** __buffer_migrate_page releases every buffer lock it takes: on return
    the buffers are as on entry or all unlocked.  It reports success only
    when migrate_page_move_mapping succeeded, and then, for a page with
    buffers, all buffers are unlocked. *)
Theorem buffer_migrate_page_unlocks (mapping : option address_space)
    (newpage p : page) (mode : migrate_mode) (check_refs : bool)
    (head : buffers) (b_count b_count_after : list Z) (ext : Z) :
  let r := __buffer_migrate_page mapping newpage p mode check_refs head
             b_count b_count_after ext in
  (snd r = head \/ snd r = map (fun _ => false) head) /\
  (fst r = MIGRATEPAGE_SUCCESS ->
     r_rc (migrate_page_move_mapping mapping newpage p 0 ext) = MIGRATEPAGE_SUCCESS /\
     (head <> [] -> snd r = map (fun _ => false) head)).
Proof.
  unfold __buffer_migrate_page.
  destruct head as [|b bs]; simpl fst; simpl snd.
  - split; [left; reflexivity|]. unfold migrate_page.
    destruct (r_rc (migrate_page_move_mapping mapping newpage p 0 ext) =?
              MIGRATEPAGE_SUCCESS) eqn:E; simpl.
    + intros _; split; [apply Z.eqb_eq; exact E | intros []; reflexivity].
    + intros H; rewrite H in E; discriminate.
  - destruct (negb (pg_count p =? expected_page_refs mapping p)).
    { split; [left; reflexivity|]. unfold EAGAIN, MIGRATEPAGE_SUCCESS; simpl; discriminate. }
    rewrite lock_buffers_eq.
    destruct (negb (base_mode_eqb (m_base mode) MIGRATE_ASYNC) || forallb negb (b :: bs)).
    2:{ simpl. split; [left; reflexivity|]. unfold EAGAIN, MIGRATEPAGE_SUCCESS; discriminate. }
    cbn [negb fst snd]. rewrite unlock_lock_all.
    split; [right; reflexivity|].
    destruct (check_refs && buffers_busy b_count && buffers_busy b_count_after).
    + unfold EAGAIN, MIGRATEPAGE_SUCCESS; discriminate.
    + destruct (r_rc (migrate_page_move_mapping mapping newpage p 0 ext) =?
                MIGRATEPAGE_SUCCESS) eqn:E; simpl.
      * intros _; split; [apply Z.eqb_eq; exact E | intros _; reflexivity].
      * intros H; rewrite H in E; discriminate.
Qed.

(** For a page with buffers, __buffer_migrate_page returns -EAGAIN without
    touching a lock when the page count is not the expected one or, in
    async mode, when a buffer is locked; with check_refs it returns -EAGAIN
    when the buffers are still referenced after invalidate_bh_lrus. *)
Theorem buffer_migrate_page_eagain (mapping : option address_space)
    (newpage p : page) (mode : migrate_mode) (check_refs : bool)
    (head : buffers) (b_count b_count_after : list Z) (ext : Z) :
  let r := __buffer_migrate_page mapping newpage p mode check_refs head
             b_count b_count_after ext in
  head <> [] ->
  (pg_count p <> expected_page_refs mapping p -> r = (- EAGAIN, head)) /\
  (m_base mode = MIGRATE_ASYNC -> In true head -> r = (- EAGAIN, head)) /\
  (check_refs = true -> buffers_busy b_count = true ->
     buffers_busy b_count_after = true -> fst r = - EAGAIN).
Proof.
  cbv zeta; intros Hne. unfold __buffer_migrate_page.
  destruct head as [|b bs]; [congruence|].
  destruct (pg_count p =? expected_page_refs mapping p) eqn:Ec; simpl negb; cbv iota.
  2:{ split; [reflexivity|]. split; intros; reflexivity. }
  apply Z.eqb_eq in Ec. split; [intros H; contradiction|].
  rewrite lock_buffers_eq. split.
  - intros Ha Hin. rewrite Ha; simpl.
    replace (negb b && forallb negb bs) with false; [reflexivity|].
    symmetry; apply not_true_iff_false; intros Hf.
    apply andb_prop in Hf as [Hb Hbs]. destruct Hin as [->|Hin]; [discriminate|].
    rewrite forallb_forall in Hbs. specialize (Hbs true Hin); discriminate.
  - intros -> H1 H2.
    destruct (negb (base_mode_eqb (m_base mode) MIGRATE_ASYNC) || forallb negb (b :: bs));
      simpl; [rewrite H1, H2; reflexivity | reflexivity].
Qed.

End BufferTheorems.

(* ------------------------------------------------------------------------ *)
Section FallbackTheorems.
Import Swap Buffers Fallback.

(** fallback_migrate_page never migrates a dirty page: outside MIGRATE_SYNC
    it returns -EBUSY, in MIGRATE_SYNC the result of writeout, which is
    -EINVAL, -EAGAIN or -EIO.  It returns MIGRATEPAGE_SUCCESS exactly when
    the page is clean, has no private data or had it released, and
    migrate_page_move_mapping succeeds. *)
Theorem fallback_migrate_page_outcomes (W : wenv) (mapping : option address_space)
    (newpage p : page) (mode : migrate_mode) (ext : Z) :
  let rc := fallback_migrate_page W mapping newpage p mode ext in
  (pg_dirty p = true -> m_base mode <> MIGRATE_SYNC -> rc = - EBUSY) /\
  (pg_dirty p = true -> m_base mode = MIGRATE_SYNC ->
     rc = writeout W /\ (rc = - EINVAL \/ rc = - EAGAIN \/ rc = - EIO)) /\
  (rc = MIGRATEPAGE_SUCCESS <->
     pg_dirty p = false /\
     (pg_has_private p = false \/ try_to_release_page W = true) /\
     r_rc (migrate_page_move_mapping mapping newpage p 0 ext) = MIGRATEPAGE_SUCCESS).
Proof.
  cbv zeta. unfold fallback_migrate_page.
  assert (Hw : writeout W = - EINVAL \/ writeout W = - EAGAIN \/ writeout W = - EIO).
  { unfold writeout. destruct (has_writepage W); [|left; reflexivity].
    destruct (clear_page_dirty_for_io W); [|right; left; reflexivity].
    destruct (writepage_rc W <? 0); [right; right | right; left]; reflexivity. }
  assert (Hsync : forall b, base_mode_eqb b MIGRATE_SYNC = true <-> b = MIGRATE_SYNC)
    by (intros []; simpl; split; congruence).
  destruct (pg_dirty p) eqn:Hd.
  - split; [|split].
    + intros _ Hm. destruct (base_mode_eqb (m_base mode) MIGRATE_SYNC) eqn:E;
        [apply Hsync in E; contradiction | reflexivity].
    + intros _ Hm. rewrite Hm; simpl. split; [reflexivity | exact Hw].
    + split; [|intros (H & _); discriminate].
      destruct (negb (base_mode_eqb (m_base mode) MIGRATE_SYNC)).
      * unfold EBUSY, MIGRATEPAGE_SUCCESS; discriminate.
      * unfold MIGRATEPAGE_SUCCESS, EINVAL, EAGAIN, EIO in *; lia.
  - split; [intros H; discriminate|]. split; [intros H; discriminate|].
    destruct (pg_has_private p && negb (try_to_release_page W)) eqn:Hp.
    + split.
      * destruct (base_mode_eqb (m_base mode) MIGRATE_SYNC);
          unfold EAGAIN, EBUSY, MIGRATEPAGE_SUCCESS; discriminate.
      * intros (_ & [Hp'|Hr] & _).
        -- rewrite Hp' in Hp; discriminate.
        -- rewrite Hr, andb_false_r in Hp; discriminate.
    + unfold migrate_page.
      assert (Hpr : pg_has_private p = false \/ try_to_release_page W = true).
      { destruct (pg_has_private p); [right | left; reflexivity].
        destruct (try_to_release_page W); [reflexivity | discriminate]. }
      destruct (r_rc (migrate_page_move_mapping mapping newpage p 0 ext) =?
                MIGRATEPAGE_SUCCESS) eqn:E; simpl.
      * apply Z.eqb_eq in E. split; [intros _; auto | reflexivity].
      * split; [intros H; rewrite H in E; discriminate|].
        intros (_ & _ & H); rewrite H in E; discriminate.
Qed.

End FallbackTheorems.

(* ------------------------------------------------------------------------ *)
Section MisplacedProofs.
Import Engine Misplaced.

Lemma balanced_scan_iff (zs : list zone) (n : Z) :
  balanced_scan zs n = true <->
  exists z, In z zs /\ populated z = true /\
            zone_watermark_ok z (high_wmark_pages z + n) = true.
Proof.
  induction zs as [|z zs IH]; simpl.
  - split; [discriminate | intros (z & [] & _)].
  - destruct (populated z) eqn:Hp; simpl.
    + destruct (zone_watermark_ok z (high_wmark_pages z + n)) eqn:Hw; simpl.
      * split; [intros _; exists z; auto | reflexivity].
      * rewrite IH. split; [intros (y & Hy & H); exists y; auto|].
        intros (y & [<-|Hy] & H1 & H2); [congruence | exists y; auto].
    + rewrite IH. split; [intros (y & Hy & H); exists y; auto|].
      intros (y & [<-|Hy] & H1 & H2); [congruence | exists y; auto].
Qed.

Lemma migrate_balanced_pgdat_iff (zs : list zone) (n : Z) :
  migrate_balanced_pgdat zs n = true <->
  exists z, In z zs /\ populated z = true /\
            zone_watermark_ok z (high_wmark_pages z + n) = true.
Proof.
  unfold migrate_balanced_pgdat; rewrite balanced_scan_iff.
  split; intros (z & Hz & H); exists z; split; auto; apply in_rev;
    [exact Hz | rewrite rev_involutive; exact Hz].
Qed.

Lemma single_page_migrated (E : env) (p : epage)
    (Hn : forall k, a_rc (attempt_page E misplaced_mode k p) <> - ENOMEM) :
  o_rc (migrate_pages E misplaced_mode [p]) = 0 <->
  exists k, In (k, e_id p, MIGRATEPAGE_SUCCESS)
              (o_log (migrate_pages E misplaced_mode [p])).
Proof.
  assert (Hn' : forall k q, In q [p] ->
            a_rc (attempt_page E misplaced_mode k q) <> - ENOMEM).
  { intros k q [<-|[]]; apply Hn. }
  destruct (migrate_pages_spec E misplaced_mode [p] Hn')
    as (Hrc & _ & Hlog & _ & _ & Hsucc & _ & Hsum).
  simpl in Hsum. rewrite Hrc. split.
  - intros H0. assert (Hs : o_succ (migrate_pages E misplaced_mode [p]) = 1%nat) by lia.
    rewrite Hsucc in Hs.
    destruct (List.filter (fun e => (snd e =? MIGRATEPAGE_SUCCESS)%Z)
                (o_log (migrate_pages E misplaced_mode [p]))) as [|e es] eqn:Hf;
      [discriminate|].
    assert (He : In e (List.filter (fun e => (snd e =? MIGRATEPAGE_SUCCESS)%Z)
                         (o_log (migrate_pages E misplaced_mode [p]))))
      by (rewrite Hf; left; reflexivity).
    apply filter_In in He as [He Hz]. apply Z.eqb_eq in Hz.
    pose proof He as He'. rewrite Hlog in He'.
    destruct e as [[k id] rc]. simpl in Hz; subst rc.
    apply in_attempts_upto in He' as (_ & q & Hq & Hid & _).
    apply pass_worklist_incl in Hq. destruct Hq as [<-|[]].
    exists k; rewrite Hid; exact He.
  - intros (k & Hk).
    assert (Hpos : (1 <= o_succ (migrate_pages E misplaced_mode [p]))%nat).
    { rewrite Hsucc.
      assert (In (k, e_id p, MIGRATEPAGE_SUCCESS)
                (List.filter (fun e => (snd e =? MIGRATEPAGE_SUCCESS)%Z)
                   (o_log (migrate_pages E misplaced_mode [p])))) as Hin
        by (apply filter_In; split; [exact Hk | apply Z.eqb_refl]).
      destruct (List.filter _ _); [destruct Hin | simpl; lia]. }
    lia.
Qed.

End MisplacedProofs.

Section MisplacedTheorems.
Import Engine Misplaced.

(** When no attempt on the page runs out of memory, migrate_misplaced_page
    returns 1 exactly when: the page is not a file page mapped more than
    once in an executable vma, nor a dirty file page; some populated zone of
    the target node is above its high watermark plus the page's size; the
    page is isolated from its LRU (with page_count 3 for a THP); and
    migrate_pages moved it (an attempt on it returned
    MIGRATEPAGE_SUCCESS).  Otherwise it returns 0. *)
Theorem migrate_misplaced_page_result (N : nenv) (E : env) (p : epage)
    (Hn : forall k, a_rc (attempt_page E misplaced_mode k p) <> - ENOMEM) :
  (migrate_misplaced_page N E p = 0 \/ migrate_misplaced_page N E p = 1) /\
  (migrate_misplaced_page N E p = 1 <->
   ~ (page_mapcount N <> 1 /\ page_is_file_cache N = true /\ vm_exec N = true) /\
   ~ (page_is_file_cache N = true /\ PageDirty N = true) /\
   (exists z, In z (node_zones N) /\ populated z = true /\
      zone_watermark_ok z (high_wmark_pages z + compound_nr N) = true) /\
   isolate_lru_page N = 0 /\
   (e_transhuge p = true -> count_after_isolate N = 3) /\
   exists k, In (k, e_id p, MIGRATEPAGE_SUCCESS)
               (o_log (migrate_pages E misplaced_mode [p]))).
Proof.
  rewrite <- (single_page_migrated E p Hn).
  rewrite <- (migrate_balanced_pgdat_iff (node_zones N) (compound_nr N)).
  set (R := o_rc (migrate_pages E misplaced_mode [p])).
  unfold migrate_misplaced_page, numamigrate_isolate_page; fold R.
  destruct (negb (page_mapcount N =? 1) && page_is_file_cache N && vm_exec N) eqn:HA.
  { split; [left; reflexivity|]. split; [discriminate|]. intros (H & _). exfalso; apply H.
    apply andb_prop in HA as [HA He]. apply andb_prop in HA as [Hm Hf].
    apply negb_true_iff, Z.eqb_neq in Hm. auto. }
  destruct (page_is_file_cache N && PageDirty N) eqn:HB.
  { split; [left; reflexivity|]. split; [discriminate|]. intros (_ & H & _). exfalso; apply H.
    apply andb_prop in HB; exact HB. }
  destruct (migrate_balanced_pgdat (node_zones N) (compound_nr N)) eqn:HC; simpl.
  2:{ split; [left; reflexivity|]. split; [discriminate|].
      intros (_ & _ & H & _); discriminate. }
  destruct (Z.eqb_spec (isolate_lru_page N) 0) as [HD|HD]; simpl.
  2:{ split; [left; reflexivity|]. split; [discriminate|].
      intros (_ & _ & _ & H & _); contradiction. }
  destruct (e_transhuge p && negb (count_after_isolate N =? 3)) eqn:HT; simpl.
  { split; [left; reflexivity|]. split; [discriminate|].
    intros (_ & _ & _ & _ & H & _). apply andb_prop in HT as [Ht Hc].
    rewrite (H Ht) in Hc; discriminate. }
  destruct (Z.eqb_spec R 0) as [HR|HR]; simpl.
  - split; [right; reflexivity|]. split; [intros _|intros; reflexivity].
    split; [|split; [|split; [reflexivity|split; [exact HD|split; [|exact HR]]]]].
    + intros (Hm & Hf & He). rewrite Hf, He in HA. apply Z.eqb_neq in Hm.
      rewrite Hm in HA; discriminate.
    + intros (Hf & Hd). rewrite Hf, Hd in HB; discriminate.
    + intros Ht. rewrite Ht in HT; simpl in HT.
      apply negb_false_iff, Z.eqb_eq in HT; exact HT.
  - split; [left; reflexivity|]. split; [discriminate|].
    intros (_ & _ & _ & _ & _ & H); contradiction.
Qed.

End MisplacedTheorems.

Section MisplacedInstances.
Import Engine EngineSamples Misplaced MisplacedSamples.

Lemma migrate_misplaced_page_result_witness :
  (forall k, a_rc (attempt_page ok_env misplaced_mode k anon1) <> - ENOMEM) /\
  (migrate_misplaced_page anon_nenv ok_env anon1 = 0 \/
   migrate_misplaced_page anon_nenv ok_env anon1 = 1) /\
  (migrate_misplaced_page anon_nenv ok_env anon1 = 1 <->
   ~ (page_mapcount anon_nenv <> 1 /\ page_is_file_cache anon_nenv = true /\
      vm_exec anon_nenv = true) /\
   ~ (page_is_file_cache anon_nenv = true /\ PageDirty anon_nenv = true) /\
   (exists z, In z (node_zones anon_nenv) /\ populated z = true /\
      zone_watermark_ok z (high_wmark_pages z + compound_nr anon_nenv) = true) /\
   isolate_lru_page anon_nenv = 0 /\
   (e_transhuge anon1 = true -> count_after_isolate anon_nenv = 3) /\
   exists k, In (k, e_id anon1, MIGRATEPAGE_SUCCESS)
               (o_log (migrate_pages ok_env misplaced_mode [anon1]))).
Proof.
  assert (Hn : forall k, a_rc (attempt_page ok_env misplaced_mode k anon1) <> - ENOMEM).
  { intros k; vm_compute; discriminate. }
  split; [exact Hn|].
  exact (migrate_misplaced_page_result anon_nenv ok_env anon1 Hn).
Defined.

End MisplacedInstances.

Section BufferInstances.
Import Swap Samples Buffers.

Lemma buffer_migrate_page_eagain_witness :
  [false; true] <> [] /\
  (pg_count base_old <> expected_page_refs None base_old ->
     __buffer_migrate_page None base_new base_old (mkMode MIGRATE_ASYNC false false)
       true [false; true] [0; 1] [0; 1] 0 = (- EAGAIN, [false; true])) /\
  (m_base (mkMode MIGRATE_ASYNC false false) = MIGRATE_ASYNC -> In true [false; true] ->
     __buffer_migrate_page None base_new base_old (mkMode MIGRATE_ASYNC false false)
       true [false; true] [0; 1] [0; 1] 0 = (- EAGAIN, [false; true])) /\
  (true = true -> buffers_busy [0; 1] = true -> buffers_busy [0; 1] = true ->
     fst (__buffer_migrate_page None base_new base_old (mkMode MIGRATE_ASYNC false false)
            true [false; true] [0; 1] [0; 1] 0) = - EAGAIN).
Proof.
  split; [discriminate|].
  exact (buffer_migrate_page_eagain None base_new base_old
           (mkMode MIGRATE_ASYNC false false) true [false; true] [0; 1] [0; 1] 0
           ltac:(discriminate)).
Defined.

End BufferInstances.

(* ------------------------------------------------------------------------ *)
Section FinalizeProofs.
Import Vma VmaFinalize.

Lemma unlocked_app (a b : list fevent) : unlocked (a ++ b) = unlocked a ++ unlocked b.
Proof. apply flat_map_app. Qed.

Lemma released_app (a b : list fevent) : released (a ++ b) = released a ++ released b.
Proof. apply flat_map_app. Qed.

Lemma released_release (p : vpage) : released [release p] = [vp_id p].
Proof. unfold release; destruct (vp_zone_device p); reflexivity. Qed.

Lemma unlocked_release (p : vpage) : unlocked [release p] = [].
Proof. unfold release; destruct (vp_zone_device p); reflexivity. Qed.

(** One index: its events unlock and release src[i]'s page and dst[i]'s,
    once each, when they differ. *)
Lemma finalize_entry_spec (e : ventry) (d : option vpage) :
  (forall p n, v_page e = Some p -> d = Some n -> vp_id n <> vp_id p) ->
  let ids := map vp_id ((match v_page e with Some p => [p] | None => [] end) ++
                        (match d with Some n => [n] | None => [] end)) in
  unlocked (fst (finalize_entry e d)) ≡ₚ ids /\
  released (fst (finalize_entry e d)) ≡ₚ ids /\
  snd (finalize_entry e d) = (match v_page e with Some _ => 1 | None => 0 end).
Proof.
  intros Hne; cbv zeta. unfold finalize_entry.
  destruct (v_page e) as [p|] eqn:Hp.
  - destruct d as [n|].
    + specialize (Hne p n eq_refl eq_refl).
      destruct (v_migrate e); cbn [fst snd].
      * rewrite (proj2 (Nat.eqb_neq _ _) Hne); simpl.
        unfold release; destruct (vp_zone_device p), (vp_zone_device n); simpl;
          (split; [|split; [|reflexivity]]); apply Permutation_refl.
      * rewrite Nat.eqb_refl; simpl.
        unfold release; destruct (vp_zone_device p); simpl;
          (split; [|split; [|reflexivity]]); apply perm_swap.
    + cbn [fst snd]. rewrite Nat.eqb_refl; simpl.
      unfold release; destruct (vp_zone_device p); simpl;
        (split; [|split; [|reflexivity]]); apply Permutation_refl.
  - destruct d as [n|]; simpl; (split; [|split; [|reflexivity]]); apply Permutation_refl.
Qed.

Lemma finalize_loop_spec (src : list ventry) (dst : list (option vpage)) :
  forall i cpages log, 0 <= cpages < 2 ^ 64 ->
  (forall j e p n, src !! j = Some e -> v_page e = Some p ->
     dst_at dst (i + j) = Some n -> vp_id n <> vp_id p) ->
  let r := finalize_loop src dst i cpages log in
  exists L, snd r = log ++ L /\
    unlocked L ≡ₚ map vp_id (finalize_pages src dst i) /\
    released L ≡ₚ map vp_id (finalize_pages src dst i) /\
    fst r = VmaSetup.ulong (cpages - Z.of_nat (length (List.filter (fun e =>
              match v_page e with Some _ => true | None => false end) src))).
Proof.
  induction src as [|e src IH]; intros i cpages log Hc0 Hne; cbv zeta; simpl.
  - exists []; rewrite app_nil_r; repeat split; try reflexivity.
    unfold VmaSetup.ulong. rewrite Z.sub_0_r, Z.mod_small; [reflexivity | exact Hc0].
  - pose proof (finalize_entry_spec e (dst_at dst i)) as He.
    destruct (finalize_entry e (dst_at dst i)) as [ev dec] eqn:Hfe.
    destruct He as (Hu & Hr & Hd).
    { intros p n Hp Hn. apply (Hne 0%nat e p n); [reflexivity | exact Hp |].
      rewrite Nat.add_0_r; exact Hn. }
    cbn [fst snd] in Hu, Hr, Hd.
    destruct (IH (S i) (VmaSetup.ulong (cpages - dec)) (log ++ ev))
      as (L & HL & Hu' & Hr' & Hc).
    { unfold VmaSetup.ulong. apply Z.mod_pos_bound. lia. }
    { intros j e' p n Hj Hp Hn. apply (Hne (S j) e' p n); [exact Hj | exact Hp |].
      rewrite <- Hn; f_equal; lia. }
    exists (ev ++ L). rewrite HL, app_assoc. split; [reflexivity|].
    rewrite unlocked_app, released_app, !map_app.
    split; [|split].
    + etransitivity; [apply Permutation_app; [exact Hu | exact Hu']|].
      rewrite !map_app, <- ?app_assoc; reflexivity.
    + etransitivity; [apply Permutation_app; [exact Hr | exact Hr']|].
      rewrite !map_app, <- ?app_assoc; reflexivity.
    + rewrite Hc, Hd. unfold VmaSetup.ulong. rewrite Zminus_mod_idemp_l.
      f_equal. destruct (v_page e); simpl; lia.
Qed.

End FinalizeProofs.

Section FinalizeTheorems.
Import Vma VmaFinalize.

(** When no index has the same page in src and dst, migrate_vma_finalize
    unlocks each page of src and dst exactly once and releases it exactly
    once (put_page or putback_lru_page), touches no other page, and lowers
    the unsigned long cpages by the number of src entries holding a page. *)
Theorem migrate_vma_finalize_unlocks_once (src : list ventry)
    (dst : list (option vpage)) (cpages : Z) (Hc0 : 0 <= cpages < 2 ^ 64)
    (Hne : forall j e p n, src !! j = Some e -> v_page e = Some p ->
             dst_at dst j = Some n -> vp_id n <> vp_id p) :
  let r := migrate_vma_finalize src dst cpages in
  unlocked (snd r) ≡ₚ map vp_id (finalize_pages src dst 0) /\
  released (snd r) ≡ₚ map vp_id (finalize_pages src dst 0) /\
  fst r = VmaSetup.ulong (cpages - Z.of_nat (length (List.filter (fun e =>
            match v_page e with Some _ => true | None => false end) src))).
Proof.
  unfold migrate_vma_finalize.
  destruct (finalize_loop_spec src dst 0 cpages [] Hc0 Hne) as (L & HL & Hu & Hr & Hc).
  cbv zeta. rewrite HL; simpl. split; [exact Hu|]. split; [exact Hr | exact Hc].
Qed.

End FinalizeTheorems.

Section FinalizeInstances.
Import Vma VmaFinalize VmaFinalizeSamples.

(** On three indices: pages 1, 11, 2, 12 and 13 are each unlocked and
    released once, and two pages leave cpages. *)
Lemma migrate_vma_finalize_unlocks_once_witness :
  let r := migrate_vma_finalize fin_src fin_dst 5 in
  unlocked (snd r) ≡ₚ [1; 11; 2; 12; 13]%nat /\
  released (snd r) ≡ₚ [1; 11; 2; 12; 13]%nat /\ fst r = 3.
Proof.
  refine (migrate_vma_finalize_unlocks_once fin_src fin_dst 5 _ _).
  { split; [lia|]. apply Z.lt_trans with (2 ^ 3); [reflexivity|].
    apply Z.pow_lt_mono_r; lia. }
  intros j e p n Hj Hp Hn.
  destruct j as [|[|[|j]]]; simpl in Hj; try discriminate; injection Hj as <-;
    simpl in Hp; try discriminate; injection Hp as <-; simpl in Hn;
    injection Hn as <-; simpl; discriminate.
Defined.

End FinalizeInstances.

(* ------------------------------------------------------------------------ *)
Section VmaSetupProofs.
Import VmaSetup.

Lemma two64 : 2 ^ 64 = 18446744073709551616.
Proof. reflexivity. Qed.

Lemma page_mask_ldiff : PAGE_MASK = Z.ldiff (Z.ones 64) (Z.ones 12).
Proof. reflexivity. Qed.

(** x & PAGE_MASK rounds an unsigned long down to its page. *)
Lemma page_mask_spec (x : Z) : 0 <= x < 2 ^ 64 ->
  Z.land x PAGE_MASK = x - x mod PAGE_SIZE.
Proof.
  intros Hx.
  replace (x - x mod PAGE_SIZE) with (Z.shiftl (Z.shiftr x 12) 12).
  2:{ rewrite Z.shiftl_mul_pow2, Z.shiftr_div_pow2 by lia.
      unfold PAGE_SIZE. change (2 ^ 12) with 4096.
      rewrite (Z.mod_eq x 4096) by lia. lia. }
  rewrite page_mask_ldiff. apply Z.bits_inj'; intros n Hn.
  rewrite Z.land_spec, Z.ldiff_spec, !Z.testbit_ones_nonneg by lia.
  rewrite Z.shiftl_spec by lia.
  destruct (Z.ltb_spec n 12).
  - rewrite (Z.testbit_neg_r (Z.shiftr x 12) (n - 12)) by lia.
    cbn [negb]. rewrite !andb_false_r. reflexivity.
  - rewrite Z.shiftr_spec by lia. replace (n - 12 + 12) with n by lia.
    cbn [negb]. destruct (Z.ltb_spec n 64).
    + rewrite !andb_true_r. reflexivity.
    + cbn [andb]. rewrite andb_false_r. symmetry.
      apply Z.testbit_false; [lia|].
      rewrite Z.div_small; [reflexivity|].
      split; [lia|]. apply Z.lt_le_trans with (2 ^ 64); [lia|].
      apply Z.pow_le_mono_r; lia.
Qed.

(** The long nr_pages is the unsigned difference divided by PAGE_SIZE. *)
Lemma nr_pages_spec (d : Z) :
  to_long (Z.shiftr (ulong d) PAGE_SHIFT) = ulong d / PAGE_SIZE.
Proof.
  unfold PAGE_SHIFT, PAGE_SIZE. rewrite Z.shiftr_div_pow2 by lia.
  change (2 ^ 12) with 4096. unfold to_long, ulong.
  pose proof (Z.mod_pos_bound d (2 ^ 64)) as Hb. rewrite two64 in *.
  destruct (Z.leb_spec (2 ^ 63) ((d mod 18446744073709551616) / 4096)); [|reflexivity].
  exfalso. change (2 ^ 63) with 9223372036854775808 in *.
  specialize (Hb ltac:(lia)).
  assert ((d mod 18446744073709551616) / 4096 < 4503599627370496)
    by (apply Z.div_lt_upper_bound; lia).
  lia.
Qed.

End VmaSetupProofs.

Section VmaSetupTheorems.
Import VmaSetup.

(** For start and end in the unsigned long range, the checks of
    migrate_vma_setup round start and end down to their pages, compute
    nr_pages from the unrounded difference taken modulo 2^64, and fail
    with -EINVAL unless the VMA exists and is neither hugetlb, special nor
    DAX, nr_pages is positive, the rounded start lies in [vm_start, vm_end),
    the rounded end in (vm_start, vm_end], and src and dst are set. *)
Theorem migrate_vma_setup_check_spec (args : migrate_vma)
    (Hs : 0 <= mv_start args < 2 ^ 64) (He : 0 <= mv_end args < 2 ^ 64) :
  let nr := ((mv_end args - mv_start args) mod 2 ^ 64) / PAGE_SIZE in
  let s := mv_start args - mv_start args mod PAGE_SIZE in
  let e := mv_end args - mv_end args mod PAGE_SIZE in
  exists err, migrate_vma_setup_check args = (err, nr, s, e) /\
    (err = None \/ err = Some (- EINVAL)) /\
    (err = None <->
       exists v, mv_vma args = Some v /\ is_vm_hugetlb_page v = false /\
         vm_special v = false /\ vma_is_dax v = false /\ 0 < nr /\
         vm_start v <= s < vm_end v /\ vm_start v < e <= vm_end v /\
         src_ok args = true /\ dst_ok args = true).
Proof.
  cbv zeta. unfold migrate_vma_setup_check.
  rewrite nr_pages_spec, !page_mask_spec by exact Hs || exact He.
  unfold ulong.
  set (nr := ((mv_end args - mv_start args) mod 2 ^ 64) / PAGE_SIZE).
  set (s := mv_start args - mv_start args mod PAGE_SIZE).
  set (e := mv_end args - mv_end args mod PAGE_SIZE).
  eexists; split; [reflexivity|].
  destruct (mv_vma args) as [v|].
  2:{ split; [right; reflexivity|]. split; [discriminate|].
      intros (v & Hv & _); discriminate. }
  destruct (is_vm_hugetlb_page v || vm_special v || vma_is_dax v) eqn:Hf.
  { split; [right; reflexivity|]. split; [discriminate|].
    intros (v' & Hv & Ha & Hb & Hc & _). injection Hv as <-.
    rewrite Ha, Hb, Hc in Hf. discriminate. }
  apply orb_false_iff in Hf as [Hf Hc]. apply orb_false_iff in Hf as [Ha Hb].
  destruct (Z.leb_spec nr 0).
  { split; [right; reflexivity|]. split; [discriminate|].
    intros (v' & Hv & _ & _ & _ & Hn & _). lia. }
  destruct ((s <? vm_start v) || (vm_end v <=? s)) eqn:Hr.
  { split; [right; reflexivity|]. split; [discriminate|].
    intros (v' & Hv & _ & _ & _ & _ & Hs' & _). injection Hv as <-.
    apply orb_true_iff in Hr. rewrite Z.ltb_lt, Z.leb_le in Hr. lia. }
  apply orb_false_iff in Hr. rewrite Z.ltb_ge, Z.leb_gt in Hr.
  destruct ((e <=? vm_start v) || (vm_end v <? e)) eqn:Hr'.
  { split; [right; reflexivity|]. split; [discriminate|].
    intros (v' & Hv & _ & _ & _ & _ & _ & He' & _). injection Hv as <-.
    apply orb_true_iff in Hr'. rewrite Z.ltb_lt, Z.leb_le in Hr'. lia. }
  apply orb_false_iff in Hr'. rewrite Z.ltb_ge, Z.leb_gt in Hr'.
  destruct (src_ok args) eqn:Hso, (dst_ok args) eqn:Hdo; cbn [negb orb].
  - split; [left; reflexivity|]. split; [intros _|reflexivity].
    exists v. repeat split; try assumption; lia.
  - split; [right; reflexivity|]. split; [discriminate|].
    intros (v' & _ & _ & _ & _ & _ & _ & _ & _ & Hd). discriminate.
  - split; [right; reflexivity|]. split; [discriminate|].
    intros (v' & _ & _ & _ & _ & _ & _ & _ & Hd & _). discriminate.
  - split; [right; reflexivity|]. split; [discriminate|].
    intros (v' & _ & _ & _ & _ & _ & _ & _ & Hd & _). discriminate.
Qed.

End VmaSetupTheorems.

Section VmaSetupInstances.
Import VmaSetup VmaSetupSamples.

(** A backwards range inside the VMA passes every check: the difference
    wraps around and nr_pages comes out as 2^52 - 1. *)
Lemma migrate_vma_setup_check_spec_witness :
  migrate_vma_setup_check inverted_args = (None, 2 ^ 52 - 1, 12288, 8192).
Proof.
  assert (Hr : 0 <= 12288 < 2 ^ 64 /\ 0 <= 8192 < 2 ^ 64) by (rewrite two64; lia).
  destruct (migrate_vma_setup_check_spec inverted_args (proj1 Hr) (proj2 Hr))
    as (err & Heq & _ & Hiff).
  rewrite Heq. simpl in Hiff |- *.
  replace err with (@None Z); [reflexivity|]. symmetry. apply Hiff.
  exists plain_vma. simpl. repeat split; reflexivity || (vm_compute; discriminate) || lia.
Defined.

End VmaSetupInstances.

(* ------------------------------------------------------------------------ *)
Section UnmapHelpers.

Lemma ulong_pred (n : nat) :
  VmaSetup.ulong (VmaSetup.ulong (Z.of_nat (S n)) - 1) = VmaSetup.ulong (Z.of_nat n).
Proof.
  unfold VmaSetup.ulong. rewrite Zminus_mod_idemp_l. f_equal. lia.
Qed.

Lemma filter_all_false (f : nat -> bool) (l : list nat) :
  (forall x, In x l -> f x = false) -> List.filter f l = [].
Proof.
  induction l as [|a l IH]; intros H; [reflexivity|].
  simpl. rewrite (H a (or_introl eq_refl)). apply IH. intros x Hx. apply H. right; exact Hx.
Qed.

Lemma filter_length_bound {A} (f : A -> bool) (l : list A) :
  (length (List.filter f l) <= length l)%nat.
Proof. induction l as [|a l IH]; [simpl; lia|]. simpl. destruct (f a); simpl; lia. Qed.

End UnmapHelpers.

Section UnmapProofs.
Import Vma VmaUnmap.

Variable U : uenv.
Variable src0 : list ventry.
(** No entry holds a page with MIGRATE_PFN_MIGRATE cleared, as
    migrate_vma_prepare leaves src. *)
Hypothesis Hs0 : count_stale src0 = 0%nat.



Lemma src0_not_stale (j : nat) (e : ventry) : src0 !! j = Some e -> is_stale e = false.
Proof. intros Hj. exact (filter_length_zero is_stale src0 j e Hs0 Hj). Qed.

Lemma restores_page (j : nat) (e : ventry) :
  unmap_restores U j e = true -> exists p, v_page e = Some p /\ v_migrate e = true.
Proof.
  unfold unmap_restores. destruct (v_page e) as [p|]; [|discriminate].
  intros H. apply andb_true_iff in H as [H _]. eauto.
Qed.

Lemma length_unmap_mid (i : nat) : length (unmap_mid U src0 i) = length src0.
Proof. apply length_imap. Qed.

Lemma length_unmap_fin (i : nat) : length (unmap_fin U src0 i) = length src0.
Proof. apply length_imap. Qed.

Lemma unmap_mid_S (i : nat) (e : ventry) : src0 !! i = Some e ->
  unmap_mid U src0 (S i) =
  <[i := if unmap_restores U i e then clear_migrate e else e]> (unmap_mid U src0 i).
Proof.
  intros Hi. apply list_eq; intros j.
  rewrite list_lookup_insert. case_decide as Hd.
  - destruct Hd as [<- _]. unfold unmap_mid. rewrite list_lookup_imap, Hi; simpl.
    destruct (Nat.ltb_spec i (S i)); [|lia]. reflexivity.
  - unfold unmap_mid. rewrite !list_lookup_imap.
    destruct (src0 !! j) as [e'|] eqn:Hj; simpl; [|reflexivity].
    assert (j <> i).
    { intros ->. apply Hd. split; [reflexivity|].
      rewrite length_unmap_mid. exact (lookup_lt_Some _ _ _ Hi). }
    destruct (Nat.ltb_spec j i), (Nat.ltb_spec j (S i)); try lia; reflexivity.
Qed.

Lemma unmap_fin_S (i : nat) (e : ventry) : src0 !! i = Some e ->
  unmap_fin U src0 (S i) =
  <[i := if unmap_restores U i e then zero_entry else e]> (unmap_fin U src0 i).
Proof.
  intros Hi. apply list_eq; intros j.
  rewrite list_lookup_insert. case_decide as Hd.
  - destruct Hd as [<- _]. unfold unmap_fin. rewrite list_lookup_imap, Hi; simpl.
    destruct (Nat.ltb_spec i (S i)); [|lia]. reflexivity.
  - unfold unmap_fin. rewrite !list_lookup_imap.
    destruct (src0 !! j) as [e'|] eqn:Hj; simpl; [|reflexivity].
    assert (j <> i).
    { intros ->. apply Hd. split; [reflexivity|].
      rewrite length_unmap_fin. exact (lookup_lt_Some _ _ _ Hi). }
    destruct (Nat.ltb_spec j i), (Nat.ltb_spec j (S i)); try lia; reflexivity.
Qed.

Lemma unmap_mid_lookup (i : nat) (e : ventry) : src0 !! i = Some e ->
  unmap_mid U src0 i !! i = Some e.
Proof.
  intros Hi. unfold unmap_mid. rewrite list_lookup_imap, Hi; simpl.
  rewrite Nat.ltb_irrefl. reflexivity.
Qed.

Lemma unmap_fin_lookup (i : nat) (e : ventry) : src0 !! i = Some e ->
  unmap_fin U src0 i !! i = Some (if unmap_restores U i e then clear_migrate e else e).
Proof.
  intros Hi. unfold unmap_fin. rewrite list_lookup_imap, Hi; simpl.
  rewrite Nat.ltb_irrefl. reflexivity.
Qed.

(** The first loop at index i: the entry is marked for restore exactly
    when unmap_restores says so, and nothing is unlocked or released. *)
Lemma unmap_entry_step (i : nat) (e : ventry) (st : ustate) :
  src0 !! i = Some e -> us_src st = unmap_mid U src0 i ->
  exists ev, unmap_entry U i st =
    mkUState (unmap_mid U src0 (S i))
      (if unmap_restores U i e then VmaSetup.ulong (us_cpages st - 1) else us_cpages st)
      (if unmap_restores U i e then S (us_restore st) else us_restore st)
      (us_log st ++ ev) /\ unlocked_u ev = [] /\ released_u ev = [].
Proof.
  intros Hi Hs. rewrite (unmap_mid_S i e Hi).
  unfold unmap_entry. rewrite Hs, (unmap_mid_lookup i e Hi).
  destruct e as [[p|] [|] l]; unfold unmap_restores; cbn [v_page v_migrate andb].
  - destruct (u_mapped U i), (u_still_mapped U i), (migrate_vma_check_page p);
      cbn [andb orb negb]; eexists;
      (split; [ first [ reflexivity
                      | rewrite list_insert_id;
                        [reflexivity | apply unmap_mid_lookup; exact Hi] ]
              | split; reflexivity ]).
  - exists []. rewrite list_insert_id by (apply unmap_mid_lookup; exact Hi).
    rewrite app_nil_r, <- Hs. destruct st; repeat split; reflexivity.
  - exists []. rewrite list_insert_id by (apply unmap_mid_lookup; exact Hi).
    rewrite app_nil_r, <- Hs. destruct st; repeat split; reflexivity.
  - exists []. rewrite list_insert_id by (apply unmap_mid_lookup; exact Hi).
    rewrite app_nil_r, <- Hs. destruct st; repeat split; reflexivity.
Qed.

Lemma unmap_mid_counts (i : nat) (e : ventry) : src0 !! i = Some e ->
  count_migrate (unmap_mid U src0 i) =
    (count_migrate (unmap_mid U src0 (S i)) + if unmap_restores U i e then 1 else 0)%nat /\
  count_stale (unmap_mid U src0 (S i)) =
    (count_stale (unmap_mid U src0 i) + if unmap_restores U i e then 1 else 0)%nat.
Proof.
  intros Hi. rewrite (unmap_mid_S i e Hi). unfold count_migrate, count_stale.
  pose proof (unmap_mid_lookup i e Hi) as Hl.
  pose proof (filter_length_insert v_migrate _ i e
                (if unmap_restores U i e then clear_migrate e else e) Hl) as Hm.
  pose proof (filter_length_insert is_stale _ i e
                (if unmap_restores U i e then clear_migrate e else e) Hl) as Hst.
  rewrite (src0_not_stale i e Hi) in Hst.
  destruct (unmap_restores U i e) eqn:Hr.
  - destruct (restores_page i e Hr) as (p & Hp & Hm').
    assert (Hcs : is_stale (clear_migrate e) = true)
      by (unfold is_stale, clear_migrate; cbn [v_page v_migrate]; rewrite Hp; reflexivity).
    rewrite Hcs in Hst. rewrite Hm' in Hm. cbn [clear_migrate v_migrate] in Hm. lia.
  - rewrite ?(src0_not_stale i e Hi) in Hst. split; lia.
Qed.

Lemma unmap_fin_counts (i : nat) (e : ventry) : src0 !! i = Some e ->
  count_migrate (unmap_fin U src0 (S i)) = count_migrate (unmap_fin U src0 i) /\
  count_stale (unmap_fin U src0 i) =
    (count_stale (unmap_fin U src0 (S i)) + if unmap_restores U i e then 1 else 0)%nat.
Proof.
  intros Hi. rewrite (unmap_fin_S i e Hi). unfold count_migrate, count_stale.
  pose proof (unmap_fin_lookup i e Hi) as Hl.
  set (old := if unmap_restores U i e then clear_migrate e else e) in Hl.
  pose proof (filter_length_insert v_migrate _ i old
                (if unmap_restores U i e then zero_entry else e) Hl) as Hm.
  pose proof (filter_length_insert is_stale _ i old
                (if unmap_restores U i e then zero_entry else e) Hl) as Hst.
  subst old. destruct (unmap_restores U i e) eqn:Hr.
  - destruct (restores_page i e Hr) as (p & Hp & _).
    assert (Hcs : is_stale (clear_migrate e) = true)
      by (unfold is_stale, clear_migrate; cbn [v_page v_migrate]; rewrite Hp; reflexivity).
    rewrite Hcs in Hst. cbn [clear_migrate v_migrate zero_entry is_stale v_page] in Hm, Hst.
    lia.
  - lia.
Qed.

Lemma unmap_mid_0 : unmap_mid U src0 0 = src0.
Proof.
  apply list_eq; intros j. unfold unmap_mid. rewrite list_lookup_imap.
  destruct (src0 !! j); reflexivity.
Qed.

Lemma unmap_fin_0 : unmap_fin U src0 0 = unmap_mid U src0 (length src0).
Proof.
  apply list_eq; intros j. unfold unmap_fin, unmap_mid. rewrite !list_lookup_imap.
  destruct (src0 !! j) as [e|] eqn:Hj; [|reflexivity]. cbn [fmap option_fmap option_map].
  pose proof (lookup_lt_Some _ _ _ Hj) as Hlt.
  destruct (Nat.ltb_spec j (length src0)); [|lia].
  destruct (unmap_restores U j e); reflexivity.
Qed.

Lemma unmap_fin_n :
  unmap_fin U src0 (length src0) =
  imap (fun j e => if unmap_restores U j e then zero_entry else e) src0.
Proof.
  apply imap_ext; intros j e Hj.
  pose proof (lookup_lt_Some _ _ _ Hj) as Hlt.
  destruct (Nat.ltb_spec j (length src0)); [|lia]. reflexivity.
Qed.

Lemma restored_upto_S (i : nat) (e : ventry) : src0 !! i = Some e ->
  restored_upto U src0 (S i) =
  restored_upto U src0 i ++ (if unmap_restores U i e then [i] else []).
Proof.
  intros Hi. unfold restored_upto. rewrite seq_S, List.filter_app; cbn [Nat.add].
  simpl. rewrite Hi. destruct (unmap_restores U i e); reflexivity.
Qed.





(** The first loop over indices i .. npages - 1. *)
Lemma unmap_loop_spec (fuel : nat) : forall i st,
  (i + fuel)%nat = length src0 ->
  us_src st = unmap_mid U src0 i ->
  us_cpages st = VmaSetup.ulong (Z.of_nat (count_migrate (unmap_mid U src0 i))) ->
  us_restore st = count_stale (unmap_mid U src0 i) ->
  unlocked_u (us_log st) = [] -> released_u (us_log st) = [] ->
  let st' := unmap_loop U fuel i st in
  us_src st' = unmap_mid U src0 (length src0) /\
  us_cpages st' = VmaSetup.ulong (Z.of_nat (count_migrate (unmap_mid U src0 (length src0)))) /\
  us_restore st' = count_stale (unmap_mid U src0 (length src0)) /\
  unlocked_u (us_log st') = [] /\ released_u (us_log st') = [].
Proof.
  induction fuel as [|fuel IH]; intros i st Hn Hs Hc Hr Hu Hrl; cbv zeta; cbn [unmap_loop].
  - rewrite Nat.add_0_r in Hn. subst i. repeat split; assumption.
  - destruct (lookup_lt_is_Some_2 src0 i ltac:(lia)) as [e Hi].
    destruct (unmap_entry_step i e st Hi Hs) as (ev & Heq & Hue & Hre).
    destruct (unmap_mid_counts i e Hi) as [Hcm Hcs].
    rewrite Heq. apply IH; cbn [us_src us_cpages us_restore us_log].
    + lia.
    + reflexivity.
    + rewrite Hc, Hcm. destruct (unmap_restores U i e).
      * rewrite Nat.add_1_r. apply ulong_pred.
      * rewrite Nat.add_0_r. reflexivity.
    + rewrite Hcs, Hr. destruct (unmap_restores U i e); lia.
    + unfold unlocked_u in *. rewrite flat_map_app. rewrite Hu. exact Hue.
    + unfold released_u in *. rewrite flat_map_app. rewrite Hrl. exact Hre.
Qed.

(** The second loop at index i. *)
Lemma unmap_restore_step (i : nat) (e : ventry) (st : ustate) :
  src0 !! i = Some e -> us_src st = unmap_fin U src0 i ->
  exists ev, unmap_restore_entry i st =
    mkUState (unmap_fin U src0 (S i)) (us_cpages st)
      (if unmap_restores U i e then us_restore st - 1 else us_restore st)
      (us_log st ++ ev) /\
    unlocked_u ev = (if unmap_restores U i e then [i] else []) /\
    released_u ev = (if unmap_restores U i e then [i] else []).
Proof.
  intros Hi Hs. rewrite (unmap_fin_S i e Hi).
  unfold unmap_restore_entry. rewrite Hs, (unmap_fin_lookup i e Hi).
  destruct (unmap_restores U i e) eqn:Hr.
  - destruct (restores_page i e Hr) as (p & Hp & _).
    unfold clear_migrate. rewrite Hp.
    eexists; split; [reflexivity|].
    unfold unlocked_u, released_u; simpl.
    destruct (vp_zone_device p); split; reflexivity.
  - pose proof (src0_not_stale i e Hi) as Hns. unfold is_stale in Hns.
    pose proof (unmap_fin_lookup i e Hi) as Hl; rewrite Hr in Hl.
    exists [].
    assert (Hid : <[i:=e]> (unmap_fin U src0 i) = us_src st)
      by (rewrite list_insert_id by exact Hl; symmetry; exact Hs).
    rewrite Hid, app_nil_r.
    destruct e as [[p|] [|] l]; cbn [v_page v_migrate negb] in Hns;
      try discriminate; destruct st; repeat split; reflexivity.
Qed.

(** The second loop over indices i .. npages - 1. *)
Lemma unmap_restore_loop_spec (fuel : nat) : forall i st,
  (i + fuel)%nat = length src0 ->
  us_src st = unmap_fin U src0 i ->
  us_cpages st = VmaSetup.ulong (Z.of_nat (count_migrate (unmap_fin U src0 i))) ->
  us_restore st = count_stale (unmap_fin U src0 i) ->
  unlocked_u (us_log st) = restored_upto U src0 i ->
  released_u (us_log st) = restored_upto U src0 i ->
  let st' := unmap_restore_loop fuel i st in
  us_src st' = unmap_fin U src0 (length src0) /\
  us_cpages st' = VmaSetup.ulong (Z.of_nat (count_migrate (unmap_fin U src0 (length src0)))) /\
  unlocked_u (us_log st') = restored_indices U src0 /\
  released_u (us_log st') = restored_indices U src0.
Proof.
  unfold restored_indices.
  induction fuel as [|fuel IH]; intros i st Hn Hs Hc Hr Hu Hrl; cbv zeta;
    cbn [unmap_restore_loop].
  - rewrite Nat.add_0_r in Hn. subst i. repeat split; assumption.
  - destruct (Nat.eqb_spec (us_restore st) 0) as [H0|H0].
    + (* nothing left to restore: no index from i on is restored *)
      rewrite H0 in Hr.
      assert (Hno : forall j e, (i <= j)%nat -> src0 !! j = Some e ->
                    unmap_restores U j e = false).
      { intros j e Hij Hj. destruct (unmap_restores U j e) eqn:Hre; [|reflexivity].
        exfalso.
        assert (Hl : unmap_fin U src0 i !! j = Some (clear_migrate e)).
        { unfold unmap_fin. rewrite list_lookup_imap, Hj; simpl. rewrite Hre.
          destruct (Nat.ltb_spec j i); [lia|reflexivity]. }
        pose proof (filter_length_zero is_stale _ j _ (eq_sym Hr) Hl) as Hst.
        destruct (restores_page j e Hre) as (p & Hp & _).
        unfold is_stale, clear_migrate in Hst; cbn [v_page v_migrate] in Hst.
        rewrite Hp in Hst. discriminate. }
      assert (Hfin : unmap_fin U src0 i = unmap_fin U src0 (length src0)).
      { apply imap_ext; intros j e Hj.
        pose proof (lookup_lt_Some _ _ _ Hj) as Hlt.
        destruct (Nat.ltb_spec j i), (Nat.ltb_spec j (length src0)); try lia;
          [reflexivity|].
        rewrite (Hno j e ltac:(lia) Hj). reflexivity. }
      assert (Hup : restored_upto U src0 (length src0) = restored_upto U src0 i).
      { unfold restored_upto. rewrite <- Hn, seq_app, List.filter_app.
        rewrite (filter_all_false _ (seq (0 + i) (S fuel))), app_nil_r; [reflexivity|].
        intros x Hx. apply in_seq in Hx.
        destruct (lookup_lt_is_Some_2 src0 x ltac:(lia)) as [e Hx'].
        rewrite Hx'. apply (Hno x e); [lia | exact Hx']. }
      rewrite <- Hfin, Hup. repeat split; assumption.
    + destruct (lookup_lt_is_Some_2 src0 i ltac:(lia)) as [e Hi].
      destruct (unmap_restore_step i e st Hi Hs) as (ev & Heq & Hue & Hre).
      destruct (unmap_fin_counts i e Hi) as [Hcm Hcs].
      rewrite Heq. apply IH; cbn [us_src us_cpages us_restore us_log].
      * lia.
      * reflexivity.
      * rewrite Hc, Hcm. reflexivity.
      * rewrite Hr, Hcs. destruct (unmap_restores U i e); lia.
      * unfold unlocked_u in *. rewrite flat_map_app, Hu, Hue.
        symmetry. apply restored_upto_S; exact Hi.
      * unfold released_u in *. rewrite flat_map_app, Hrl, Hre.
        symmetry. apply restored_upto_S; exact Hi.
Qed.

End UnmapProofs.

Section UnmapTheorems.
Import Vma VmaUnmap.

(** When no entry of src holds a page with MIGRATE_PFN_MIGRATE cleared and
    cpages counts the entries marked MIGRATE_PFN_MIGRATE, migrate_vma_unmap
    clears exactly the entries whose page is marked and stays mapped after
    try_to_unmap or fails migrate_vma_check_page, keeps every other entry,
    unlocks and releases exactly the pages of the cleared entries, in index
    order, and leaves cpages counting the entries still marked. *)
Theorem migrate_vma_unmap_spec (U : uenv) (src : list ventry) (cpages : Z)
    (Hs : count_stale src = 0%nat)
    (Hc : cpages = Z.of_nat (count_migrate src))
    (Hn : Z.of_nat (length src) < 2 ^ 64) :
  let st := migrate_vma_unmap U src cpages in
  us_src st = imap (fun j e => if unmap_restores U j e then zero_entry else e) src /\
  us_cpages st = Z.of_nat (count_migrate (us_src st)) /\
  unlocked_u (us_log st) = restored_indices U src /\
  released_u (us_log st) = restored_indices U src.
Proof.
  cbv zeta. unfold migrate_vma_unmap. cbv zeta.
  assert (Hsmall : forall l : list ventry, length l = length src ->
            VmaSetup.ulong (Z.of_nat (count_migrate l)) = Z.of_nat (count_migrate l)).
  { intros l Hl. unfold VmaSetup.ulong. apply Z.mod_small.
    pose proof (filter_length_bound v_migrate l). unfold count_migrate. lia. }
  destruct (unmap_loop_spec U src Hs (length src) 0 (mkUState src cpages 0 []))
    as (H1s & H1c & H1r & H1u & H1rl); cbn [us_src us_cpages us_restore us_log];
    try reflexivity.
  { rewrite unmap_mid_0. reflexivity. }
  { rewrite unmap_mid_0, Hsmall by reflexivity. exact Hc. }
  { rewrite unmap_mid_0. symmetry. exact Hs. }
  rewrite <- unmap_fin_0 in H1s, H1c, H1r.
  destruct (unmap_restore_loop_spec U src Hs (length src) 0
              (unmap_loop U (length src) 0 (mkUState src cpages 0 [])))
    as (H2s & H2c & H2u & H2rl); try assumption; try reflexivity.
  rewrite H2s, H2c, unmap_fin_n in *.
  split; [reflexivity|]. split; [|split; assumption].
  apply Hsmall. apply length_imap.
  all: exact Hs.
Qed.

End UnmapTheorems.

Section UnmapInstances.
Import Vma VmaUnmap VmaUnmapSamples.

(** Pages 2 and 4 are restored: their entries are cleared and they are
    unlocked and released; page 1 stays, and cpages drops from 3 to 1. *)
Lemma migrate_vma_unmap_spec_witness :
  let st := migrate_vma_unmap unmap_env unmap_src 3 in
  us_src st = [mkVEntry (Some (upage 1 false)) true true; zero_entry;
               mkVEntry None false false; zero_entry] /\
  us_cpages st = 1 /\ unlocked_u (us_log st) = [1; 3]%nat /\
  released_u (us_log st) = [1; 3]%nat.
Proof.
  assert (Hn : Z.of_nat (length unmap_src) < 2 ^ 64) by (simpl; lia).
  destruct (migrate_vma_unmap_spec unmap_env unmap_src 3 eq_refl eq_refl Hn)
    as (H1 & H2 & H3 & H4).
  cbv zeta. rewrite H2, H3, H4, H1.
  split; [reflexivity|]. split; [reflexivity|]. split; reflexivity.
Defined.

End UnmapInstances.

(* ------------------------------------------------------------------------ *)
Section PagesHelpers.

Lemma in_filter_seq (f : nat -> bool) (n j : nat) :
  In j (List.filter f (seq 0 n)) <-> (j < n)%nat /\ f j = true.
Proof. rewrite filter_In, in_seq. split; intros [H1 H2]; split; auto; lia. Qed.

End PagesHelpers.

Section PagesProofs.
Import Vma VmaPages.

Variable P : penv.
Variable src0 : list ventry.
Variable dst : list (option vpage).

Lemma pages_mid_lookup (i : nat) (e : ventry) : src0 !! i = Some e ->
  pages_mid P src0 dst i !! i = Some e.
Proof.
  intros Hi. unfold pages_mid. rewrite list_lookup_imap, Hi; simpl.
  rewrite Nat.ltb_irrefl. reflexivity.
Qed.

Lemma pages_mid_S (i : nat) (e : ventry) : src0 !! i = Some e ->
  pages_mid P src0 dst (S i) = <[i := pages_result P dst i e]> (pages_mid P src0 dst i).
Proof.
  intros Hi. apply list_eq; intros j.
  rewrite list_lookup_insert. case_decide as Hd.
  - destruct Hd as [<- _]. unfold pages_mid. rewrite list_lookup_imap, Hi; simpl.
    destruct (Nat.ltb_spec i (S i)); [|lia]. reflexivity.
  - unfold pages_mid. rewrite !list_lookup_imap.
    destruct (src0 !! j) as [e'|] eqn:Hj; simpl; [|reflexivity].
    assert (j <> i).
    { intros ->. apply Hd. split; [reflexivity|].
      unfold pages_mid. rewrite length_imap. exact (lookup_lt_Some _ _ _ Hi). }
    destruct (Nat.ltb_spec j i), (Nat.ltb_spec j (S i)); try lia; reflexivity.
Qed.

Lemma pages_mid_0 : pages_mid P src0 dst 0 = src0.
Proof.
  apply list_eq; intros j. unfold pages_mid. rewrite list_lookup_imap.
  destruct (src0 !! j); reflexivity.
Qed.

Lemma pages_mid_n : pages_mid P src0 dst (length src0) = imap (pages_result P dst) src0.
Proof.
  apply imap_ext; intros j e Hj.
  pose proof (lookup_lt_Some _ _ _ Hj) as Hlt.
  destruct (Nat.ltb_spec j (length src0)); [reflexivity|lia].
Qed.

Lemma inserts_upto_S (i : nat) (e : ventry) : src0 !! i = Some e ->
  inserts_upto src0 dst (S i) = inserts_upto src0 dst i ++
    match VmaFinalize.dst_at dst i, v_page e with
    | Some _, None => if v_migrate e then [i] else []
    | _, _ => []
    end.
Proof.
  intros Hi. unfold inserts_upto. rewrite seq_S, List.filter_app; cbn [Nat.add].
  f_equal. simpl. rewrite Hi.
  destruct (VmaFinalize.dst_at dst i), (v_page e), (v_migrate e); reflexivity.
Qed.

Lemma migrates_upto_S (i : nat) (e : ventry) : src0 !! i = Some e ->
  migrates_upto src0 dst (S i) = migrates_upto src0 dst i ++
    match VmaFinalize.dst_at dst i, v_page e with
    | Some n, Some p =>
        if vp_zone_device n && (negb (vp_device_private n) || vp_has_mapping p)
        then [] else [i]
    | _, _ => []
    end.
Proof.
  intros Hi. unfold migrates_upto. rewrite seq_S, List.filter_app; cbn [Nat.add].
  f_equal. simpl. rewrite Hi.
  destruct (VmaFinalize.dst_at dst i) as [n|], (v_page e) as [p|]; try reflexivity.
  destruct (vp_zone_device n && (negb (vp_device_private n) || vp_has_mapping p));
    reflexivity.
Qed.

Lemma opened_trace_snoc (ins : list nat) (i : nat) :
  opened_trace (ins ++ [i]) =
  opened_trace ins ++ (match ins with [] => [P_notify_start i] | _ => [] end) ++ [P_insert i].
Proof.
  destruct ins as [|k ins]; [reflexivity|].
  simpl. rewrite map_app. reflexivity.
Qed.

Lemma pages_entry_inv (i : nat) (e : ventry) (st : pstate) :
  src0 !! i = Some e -> pages_inv P src0 dst i st -> pages_inv P src0 dst (S i) (pages_entry P dst i st).
Proof.
  intros Hi. destruct st as [[s nt] log]. intros (Hs & Hnt & Htr & Hmc).
  unfold pages_entry. rewrite Hs, (pages_mid_lookup i e Hi).
  unfold pages_inv. rewrite (pages_mid_S i e Hi), (inserts_upto_S i e Hi),
    (migrates_upto_S i e Hi).
  unfold pages_result.
  destruct (VmaFinalize.dst_at dst i) as [n|] eqn:Hd.
  - destruct (v_page e) as [p|] eqn:Hp.
    + destruct (vp_zone_device n && (negb (vp_device_private n) || vp_has_mapping p)).
      * rewrite !app_nil_r. repeat split; assumption.
      * rewrite !app_nil_r. split; [|split; [exact Hnt|split]].
        -- destruct (Z.eqb (p_migrate_rc P i) MIGRATEPAGE_SUCCESS); [|reflexivity].
           rewrite list_insert_id by (apply pages_mid_lookup; exact Hi). reflexivity.
        -- unfold notify_trace in *. rewrite flat_map_app, Htr. simpl. apply app_nil_r.
        -- unfold migrate_calls in *. rewrite flat_map_app, Hmc. reflexivity.
    + destruct (v_migrate e) eqn:Hm; cbn [negb].
      * split; [reflexivity|]. split.
        { destruct (inserts_upto src0 dst i); reflexivity. }
        split.
        -- unfold notify_trace in *. rewrite !flat_map_app, Htr, opened_trace_snoc.
           rewrite Hnt. destruct (inserts_upto src0 dst i); reflexivity.
        -- unfold migrate_calls in *. rewrite !flat_map_app, Hmc, app_nil_r.
           rewrite Hnt. destruct (inserts_upto src0 dst i); reflexivity.
      * rewrite !app_nil_r.
        rewrite list_insert_id by (apply pages_mid_lookup; exact Hi).
        repeat split; assumption.
  - rewrite !app_nil_r. repeat split; assumption.
Qed.

Lemma pages_loop_inv (fuel : nat) : forall i st,
  (i + fuel)%nat = length src0 -> pages_inv P src0 dst i st ->
  pages_inv P src0 dst (length src0) (pages_loop P dst fuel i st).
Proof.
  induction fuel as [|fuel IH]; intros i st Hn Hinv; cbn [pages_loop].
  - rewrite Nat.add_0_r in Hn. subst i. exact Hinv.
  - destruct (lookup_lt_is_Some_2 src0 i ltac:(lia)) as [e Hi].
    apply IH; [lia|]. exact (pages_entry_inv i e st Hi Hinv).
Qed.

Lemma migrate_vma_pages_inv :
  exists nt log,
    pages_loop P dst (length src0) 0 (src0, false, []) =
      (imap (pages_result P dst) src0, nt, log) /\
    nt = match inserts_upto src0 dst (length src0) with [] => false | _ => true end /\
    notify_trace log = opened_trace (inserts_upto src0 dst (length src0)) /\
    migrate_calls log = migrates_upto src0 dst (length src0).
Proof.
  pose proof (pages_loop_inv (length src0) 0 (src0, false, []) eq_refl) as H.
  destruct (pages_loop P dst (length src0) 0 (src0, false, [])) as [[s nt] log].
  destruct H as (Hs & Hnt & Htr & Hmc).
  { unfold pages_inv. rewrite pages_mid_0. repeat split. }
  exists nt, log. rewrite Hs, pages_mid_n. repeat split; assumption.
Qed.

End PagesProofs.

Section PagesTheorems.
Import Vma VmaPages.

(** migrate_vma_pages keeps the page and the lock bit of every entry that
    holds a page and leaves MIGRATE_PFN_MIGRATE set there only when it was
    set, migrate_page was called on the index and returned
    MIGRATEPAGE_SUCCESS; an entry without a page stays without one and ends
    marked only when a page was inserted there successfully. migrate_page is
    called, in index order, on every index with a source and a destination
    page that the ZONE_DEVICE test lets through, whether or not the entry
    is marked MIGRATE_PFN_MIGRATE. *)
Theorem migrate_vma_pages_entries (P : penv) (src : list ventry)
    (dst : list (option vpage)) :
  let r := migrate_vma_pages P src dst in
  length (fst r) = length src /\
  (forall j e, src !! j = Some e -> exists e', fst r !! j = Some e' /\
     (forall p, v_page e = Some p ->
        v_page e' = Some p /\ v_locked e' = v_locked e /\
        (v_migrate e' = true <->
         v_migrate e = true /\ In j (migrates_upto src dst (length src)) /\
         p_migrate_rc P j = MIGRATEPAGE_SUCCESS)) /\
     (v_page e = None ->
        v_page e' = None /\
        (v_migrate e' = true <->
         In j (inserts_upto src dst (length src)) /\ p_insert_ok P j = true))) /\
  migrate_calls (snd r) = migrates_upto src dst (length src).
Proof.
  cbv zeta. unfold migrate_vma_pages.
  destruct (migrate_vma_pages_inv P src dst) as (nt & log & Heq & _ & _ & Hmc).
  rewrite Heq. cbn [fst snd]. split; [apply length_imap|]. split.
  - intros j e Hj. exists (pages_result P dst j e).
    split; [rewrite list_lookup_imap, Hj; reflexivity|].
    pose proof (lookup_lt_Some _ _ _ Hj) as Hlt.
    unfold pages_result. split.
    + intros p Hp. unfold migrates_upto. rewrite in_filter_seq. cbv beta.
      rewrite Hj, Hp.
      destruct (VmaFinalize.dst_at dst j) as [n|].
      * destruct (vp_zone_device n && (negb (vp_device_private n) || vp_has_mapping p)).
        -- cbn. rewrite Hp. split; [reflexivity|]. split; [reflexivity|].
           split; [discriminate|]. intros (_ & (_ & H) & _); discriminate.
        -- destruct (Z.eqb_spec (p_migrate_rc P j) MIGRATEPAGE_SUCCESS) as [Hrc|Hrc].
           ++ split; [exact Hp|]. split; [reflexivity|].
              split; [intros Hm; repeat split; assumption | intros (Hm & _); exact Hm].
           ++ cbn. rewrite Hp. split; [reflexivity|]. split; [reflexivity|].
              split; [discriminate|]. intros (_ & _ & H); contradiction.
      * cbn. rewrite Hp. split; [reflexivity|]. split; [reflexivity|].
        split; [discriminate|]. intros (_ & (_ & H) & _); discriminate.
    + intros Hp. unfold inserts_upto. rewrite in_filter_seq. cbv beta.
      rewrite Hj, Hp.
      destruct (VmaFinalize.dst_at dst j) as [n|].
      * destruct (v_migrate e) eqn:Hm.
        -- destruct (p_insert_ok P j) eqn:Hok.
           ++ split; [reflexivity|]. split; [intros _; split; [split; [exact Hlt | reflexivity] | reflexivity] | reflexivity].
           ++ cbn. rewrite Hp. split; [reflexivity|].
              split; [discriminate|]. intros (_ & H); discriminate.
        -- split; [exact Hp|]. rewrite Hm.
           split; [discriminate|]. intros ((_ & H) & _); discriminate.
      * cbn. rewrite Hp. split; [reflexivity|].
        split; [discriminate|]. intros ((_ & H) & _); discriminate.
  - unfold migrate_calls in *. rewrite flat_map_app, Hmc.
    destruct nt; apply app_nil_r.
Qed.

(** migrate_vma_pages opens the mmu notifier range once, at the first index
    where it inserts a page and before any insertion, and closes it once
    after the loop; when it inserts no page it calls neither. *)
Theorem migrate_vma_pages_notify (P : penv) (src : list ventry)
    (dst : list (option vpage)) :
  let ins := inserts_upto src dst (length src) in
  notify_trace (snd (migrate_vma_pages P src dst)) =
  match ins with
  | [] => []
  | _ => opened_trace ins ++ [P_notify_end]
  end.
Proof.
  cbv zeta. unfold migrate_vma_pages.
  destruct (migrate_vma_pages_inv P src dst) as (nt & log & Heq & Hnt & Htr & _).
  rewrite Heq. cbn [snd]. unfold notify_trace in *. rewrite flat_map_app, Htr, Hnt.
  destruct (inserts_upto src dst (length src)); reflexivity.
Qed.

End PagesTheorems.

(* ------------------------------------------------------------------------ *)
Section AddPageTheorems.
Import AddPage.

Local Ltac add_not_one :=
  split; [intros; lia|intros [Hq|Hq]; cbn in Hq; intuition discriminate].

Local Ltac add_no_huge := intros Hq; cbn in Hq; intuition discriminate.

Local Ltac add_err_branch :=
  split; [lia|]; split; [add_not_one|]; split; [add_no_huge|];
  split; [|reflexivity]; split; [lia|intros (p & H & _); discriminate].

(** When follow_page's error pointers carry negative errors and
    isolate_lru_page returns 0 or a negative error, add_page_for_migration
    returns 0, 1 or a negative error.  It returns 1 exactly when it put the
    page on the page list or called isolate_huge_page on a hugetlb head page
    that isolate_huge_page did not take: the result of isolate_huge_page is
    ignored, and then 1 is returned with the page not queued.  It returns 0
    exactly when the page it looked up is already on the target node.  It
    drops the reference of follow_page exactly once when it looked a page
    up, and touches nothing otherwise. *)
Theorem add_page_for_migration_outcomes (A : aenv) (addr node : Z)
    (migrate_all : bool)
    (Herr : forall a e, a_follow_page A a = AErr e -> e < 0)
    (Hiso : forall a p, a_follow_page A a = APage p -> ap_isolate_rc p <= 0) :
  let r := add_page_for_migration A addr node migrate_all in
  (fst r = 0 \/ fst r = 1 \/ fst r < 0) /\
  (fst r = 1 <-> existsb queues (snd r) = true \/ In (A_isolate_huge false) (snd r)) /\
  (In (A_isolate_huge false) (snd r) -> fst r = 1 /\ existsb queues (snd r) = false) /\
  (fst r = 0 <-> exists p, looked_up A addr = Some p /\ ap_nid p = node) /\
  List.filter is_put (snd r) =
    match looked_up A addr with Some _ => [A_put_page] | None => [] end.
Proof.
  cbv zeta. unfold add_page_for_migration, looked_up.
  destruct (a_find_vma A addr) as [[vs mig]|].
  2:{ cbn [fst snd]. unfold EFAULT. add_err_branch. }
  destruct (Z.ltb_spec addr vs) as [Hlt|Hge]; cbn [orb negb].
  { destruct mig; cbn [fst snd]; unfold EFAULT; add_err_branch. }
  destruct mig; cbn [negb].
  2:{ cbn [fst snd]. unfold EFAULT. add_err_branch. }
  destruct (a_follow_page A addr) as [e| |p] eqn:Hf.
  - pose proof (Herr addr e Hf) as He. cbn [fst snd]. add_err_branch.
  - cbn [fst snd]. unfold ENOENT. add_err_branch.
  - pose proof (Hiso addr p Hf) as Hi.
    destruct (Z.eqb_spec (ap_nid p) node) as [Hn|Hn].
    { cbn [fst snd]. split; [lia|]. split; [add_not_one|]. split; [add_no_huge|].
      split; [|reflexivity]. split; [intros _; exists p; split; [reflexivity|exact Hn]|lia]. }
    assert (Hnz : ~ (exists p', Some p = Some p' /\ ap_nid p' = node)).
    { intros (p' & Hp & Hn'). injection Hp as <-. contradiction. }
    destruct ((1 <? ap_mapcount p) && negb migrate_all).
    { cbn [fst snd]. unfold EACCES. split; [lia|]. split; [add_not_one|].
      split; [add_no_huge|]. split; [|reflexivity]. split; [lia|intros H; contradiction]. }
    destruct (ap_huge p); [destruct (ap_head p)|].
    + cbn [fst snd]. split; [lia|].
      destruct (ap_isolate_huge_ok p); cbn [existsb queues orb].
      * split; [split; [left; reflexivity|reflexivity]|].
        split; [intros Hq; cbn in Hq; intuition discriminate|].
        split; [|reflexivity]. split; [lia|intros H; contradiction].
      * split; [split; [intros _; right; left; reflexivity|reflexivity]|].
        split; [intros _; split; reflexivity|].
        split; [|reflexivity]. split; [lia|intros H; contradiction].
    + cbn [fst snd]. unfold EACCES. split; [lia|]. split; [add_not_one|].
      split; [add_no_huge|]. split; [|reflexivity]. split; [lia|intros H; contradiction].
    + destruct (Z.eqb_spec (ap_isolate_rc p) 0) as [H0|H0]; cbn [negb fst snd].
      * split; [lia|]. split; [split; [left; reflexivity|reflexivity]|].
        split; [add_no_huge|].
        split; [|reflexivity]. split; [lia|intros H; contradiction].
      * split; [lia|]. split; [add_not_one|]. split; [add_no_huge|].
        split; [|reflexivity]. split; [lia|intros H; contradiction].
Qed.

(** A hugetlb page that is not a head page and is not on the target node
    is reported -EACCES and left off the page list, whatever its mapcount
    and MPOL_MF_MOVE_ALL: the error of the mapcount check is what is
    returned. *)
Theorem add_page_for_migration_huge_tail (A : aenv) (addr node : Z)
    (migrate_all : bool) (p : apage)
    (Hp : looked_up A addr = Some p) (Hh : ap_huge p = true)
    (Ht : ap_head p = false) (Hn : ap_nid p <> node) :
  add_page_for_migration A addr node migrate_all = (- EACCES, [A_put_page]).
Proof.
  unfold looked_up in Hp. unfold add_page_for_migration.
  destruct (a_find_vma A addr) as [[vs [|]]|]; try discriminate.
  destruct (Z.ltb_spec addr vs); [discriminate|]. cbn [orb negb].
  destruct (a_follow_page A addr); try discriminate. injection Hp as ->.
  rewrite (proj2 (Z.eqb_neq _ _) Hn), Hh, Ht.
  destruct ((1 <? ap_mapcount p) && negb migrate_all); reflexivity.
Qed.

End AddPageTheorems.

Section AddPageInstances.
Import AddPage AddPageSamples.

Lemma sample_aenv_err (a e : Z) : a_follow_page sample_aenv a = AErr e -> e < 0.
Proof.
  simpl. destruct (a =? 8192); [discriminate|]. destruct (a =? 12288); [discriminate|].
  destruct (a =? 16384); [intros H; injection H as <-; unfold ENOMEM; lia|].
  destruct (a =? 20480); discriminate.
Qed.

Lemma sample_aenv_iso (a : Z) (p : apage) :
  a_follow_page sample_aenv a = APage p -> ap_isolate_rc p <= 0.
Proof.
  simpl. destruct (a =? 8192); [intros H; injection H as <-; simpl; lia|].
  destruct (a =? 12288); [intros H; injection H as <-; simpl; lia|].
  destruct (a =? 16384); [discriminate|].
  destruct (a =? 20480); [intros H; injection H as <-; simpl; lia|discriminate].
Qed.

(** The hugetlb head page at 0x5000, which isolate_huge_page does not take,
    asked for node 1: 1 is returned, the page is not queued. *)
Lemma add_page_for_migration_outcomes_witness :
  fst (add_page_for_migration sample_aenv 20480 1 false) = 1 /\
  existsb queues (snd (add_page_for_migration sample_aenv 20480 1 false)) = false.
Proof.
  destruct (add_page_for_migration_outcomes sample_aenv 20480 1 false
              sample_aenv_err sample_aenv_iso) as (_ & _ & Hh & _).
  apply Hh. vm_compute. left; reflexivity.
Defined.

(** The hugetlb tail page at 0x3000, mapped once, asked for node 1. *)
Lemma add_page_for_migration_huge_tail_witness :
  add_page_for_migration sample_aenv 12288 1 true = (- EACCES, [A_put_page]).
Proof.
  apply (add_page_for_migration_huge_tail sample_aenv 12288 1 true tail_page);
    [reflexivity | reflexivity | reflexivity | discriminate].
Defined.

End AddPageInstances.

(* ------------------------------------------------------------------------ *)
Section MovableProofs.
Import Movable.

Lemma isolate_movable_page_eq (isolate_ok : bool) (p : mpage) :
  isolate_movable_page isolate_ok p =
  if mp_count p =? 0 then (- EBUSY, p, [])
  else if negb (mp_movable_bit p) || mp_locked p then
    (- EBUSY, p, [ISO_get_page; ISO_put_page])
  else if negb (mp_movable p) || mp_isolated p then
    (- EBUSY, p, [ISO_get_page; ISO_lock; ISO_unlock; ISO_put_page])
  else if negb isolate_ok then
    (- EBUSY, p, [ISO_get_page; ISO_lock; ISO_isolate_page; ISO_unlock; ISO_put_page])
  else (0, set_isolated (set_count p (mp_count p + 1)) true,
        [ISO_get_page; ISO_lock; ISO_isolate_page; ISO_unlock]).
Proof.
  destruct p as [c l i mb m h]. unfold isolate_movable_page.
  cbn [mp_count mp_locked mp_isolated mp_movable_bit mp_movable mp_huge].
  destruct (Z.eqb_spec c 0) as [Hc|Hc]; [reflexivity|].
  unfold put_page, set_count, set_locked, set_isolated;
    cbn [mp_count mp_locked mp_isolated mp_movable_bit mp_movable mp_huge negb andb orb].
  replace (c + 1 - 1) with c by lia.
  destruct mb, l, m, i, isolate_ok; reflexivity.
Qed.

End MovableProofs.

Section MovableTheorems.
Import Movable.

(** isolate_movable_page succeeds exactly when the page has a reference, is
    __PageMovable, is not locked, is PageMovable, is not isolated yet and
    the driver's isolate_page accepts it; it then returns 0 with the
    reference it took still held, the page isolated and unlocked.
    Otherwise it returns -EBUSY and leaves the page's count, lock and
    isolation as it found them: with no reference it does nothing; else it
    took a reference with get_page_unless_zero and drops it with put_page,
    after unlocking the page when trylock_page had taken the lock, and the
    driver's isolate_page is called only when the page is PageMovable and
    not yet isolated. *)
Theorem isolate_movable_page_spec (isolate_ok : bool) (p : mpage) :
  isolate_movable_page isolate_ok p =
  if mp_count p =? 0 then (- EBUSY, p, [])
  else if negb (mp_movable_bit p) || mp_locked p then
    (- EBUSY, p, [ISO_get_page; ISO_put_page])
  else if negb (mp_movable p) || mp_isolated p then
    (- EBUSY, p, [ISO_get_page; ISO_lock; ISO_unlock; ISO_put_page])
  else if negb isolate_ok then
    (- EBUSY, p, [ISO_get_page; ISO_lock; ISO_isolate_page; ISO_unlock; ISO_put_page])
  else (0, set_isolated (set_count p (mp_count p + 1)) true,
        [ISO_get_page; ISO_lock; ISO_isolate_page; ISO_unlock]).
Proof.
  destruct p as [c l i mb m h]. unfold isolate_movable_page.
  cbn [mp_count mp_locked mp_isolated mp_movable_bit mp_movable mp_huge].
  destruct (Z.eqb_spec c 0) as [Hc|Hc]; [reflexivity|].
  unfold put_page, set_count, set_locked, set_isolated;
    cbn [mp_count mp_locked mp_isolated mp_movable_bit mp_movable mp_huge negb andb orb].
  replace (c + 1 - 1) with c by lia.
  destruct mb, l, m, i, isolate_ok; reflexivity.
Qed.

(** Putting back pages that isolate_movable_page isolated, none of them
    hugetlb, gives each page back with the count, lock and isolation it had
    before the isolation; only its PageMovable bit is as the driver left it
    (a driver that released the page cleared it).  The driver's
    putback_page is called, in list order, for each page still PageMovable;
    a page no longer PageMovable only has its isolation flag cleared. *)
Theorem putback_movable_pages_isolated (qs ps : list mpage)
    (Hiso : Forall2 (fun q p => exists ok ev,
               isolate_movable_page ok q = (0, set_movable p true, ev)) qs ps)
    (Hnh : Forall (fun q => mp_huge q = false) qs) :
  putback_movable_pages ps =
    (zip_with (fun q p => set_movable q (mp_movable p)) qs ps,
     flat_map (fun p => if mp_movable p then [PB_putback_page] else []) ps).
Proof.
  unfold putback_movable_pages.
  induction Hiso as [|q p qs ps [ok [ev Hq]] _ IH]; [reflexivity|].
  inversion Hnh as [|? ? Hh Hnh']; subst.
  specialize (IH Hnh'). injection IH as IH1 IH2.
  rewrite isolate_movable_page_eq in Hq.
  destruct q as [c l i mb m h], p as [c' l' i' mb' m' h'];
    cbn [mp_count mp_locked mp_isolated mp_movable_bit mp_movable mp_huge] in Hq, Hh |- *.
  subst h.
  destruct (c =? 0); [discriminate|].
  destruct mb, l; cbn [negb orb] in Hq; try discriminate.
  destruct m, i; cbn [negb orb] in Hq; try discriminate.
  destruct ok; cbn [negb] in Hq; [|discriminate].
  unfold set_isolated, set_count, set_movable in Hq; cbn in Hq.
  injection Hq; intros; subst.
  cbn [map flat_map zip_with]. rewrite IH1, IH2.
  unfold putback_one, put_page, set_count, set_locked, set_isolated, set_movable; cbn.
  replace (c + 1 - 1) with c by lia.
  destruct m'; reflexivity.
Qed.

End MovableTheorems.

Section MovableInstances.
Import Movable.

(** Two isolated movable pages with two references each: the driver still
    owns the first and has released the second (PageMovable cleared). *)
Lemma putback_movable_pages_isolated_witness :
  putback_movable_pages [mkMPage 3 false true true true false;
                         mkMPage 3 false true true false false] =
    ([mkMPage 2 false false true true false; mkMPage 2 false false true false false],
     [PB_putback_page]).
Proof.
  apply (putback_movable_pages_isolated
           [mkMPage 2 false false true true false; mkMPage 2 false false true true false]).
  - constructor; [|constructor; [|constructor]];
      exists true; eexists; reflexivity.
  - constructor; [reflexivity|constructor; [reflexivity|constructor]].
Defined.

End MovableInstances.

Section MoveNewTheorems.
Import MoveNew.

(** move_to_new_page calls exactly one migration routine, or none for a
    non-LRU page that was released after isolation, which it reports as
    migrated and only takes off the isolated state. When the routine fails
    the old page is left as it was and newpage is not flushed. When it
    succeeds a non-LRU page is no longer isolated, page->mapping is cleared
    unless the page has mapping flags, and newpage is flushed unless it is a
    ZONE_DEVICE page.  The routine called is migrate_page for an LRU page
    with no mapping, the mapping's migratepage for an LRU page whose mapping
    has one and for a movable non-LRU page, and fallback_migrate_page for
    an LRU page whose mapping has none; its return code is the return code
    of move_to_new_page. *)
Theorem move_to_new_page_outcome (E : mvenv) (zd : bool) (p : npage) :
  let r := move_to_new_page E zd p in
  let rc := fst (fst r) in
  let p' := snd (fst r) in
  let ev := snd r in
  length (List.filter is_migration_call ev) =
    (if np_movable_bit p && negb (np_movable p) then 0 else 1)%nat /\
  (np_movable_bit p = true -> np_movable p = false ->
     r = (MIGRATEPAGE_SUCCESS, set_isolated p false, [])) /\
  (rc <> MIGRATEPAGE_SUCCESS -> p' = p /\ ~ In MV_flush_dcache ev) /\
  (rc = MIGRATEPAGE_SUCCESS ->
     np_isolated p' = np_isolated p && negb (np_movable_bit p) /\
     np_movable_bit p' = np_movable_bit p /\ np_movable p' = np_movable p /\
     np_mapping p' = np_mapping p /\ np_mapping_flags p' = np_mapping_flags p) /\
  (rc = MIGRATEPAGE_SUCCESS ->
     (np_movable_bit p = false \/ np_movable p = true) ->
     np_raw_mapping p' = np_raw_mapping p && np_mapping_flags p /\
     (In MV_flush_dcache ev <-> zd = false)) /\
  ((np_movable_bit p = false \/ np_movable p = true) ->
     let c := if np_movable_bit p then MV_a_ops_migratepage
              else match np_mapping p with
                   | None => MV_migrate_page
                   | Some true => MV_a_ops_migratepage
                   | Some false => MV_fallback
                   end in
     List.filter is_migration_call ev = [c] /\
     rc = match c with
          | MV_migrate_page => mv_migrate_page E
          | MV_fallback => mv_fallback E
          | _ => mv_a_ops_migratepage E
          end).
Proof.
  destruct p as [mb m iso map fl raw]; cbn zeta.
  unfold move_to_new_page, MIGRATEPAGE_SUCCESS; cbn [np_movable_bit np_movable
    np_isolated np_mapping np_mapping_flags np_raw_mapping].
  destruct mb, m, map as [[|]|], fl, zd; cbn [negb andb];
  try (match goal with |- context [?a =? 0] => destruct (a =? 0) eqn:Hrc end;
       [apply Z.eqb_eq in Hrc | apply Z.eqb_neq in Hrc]);
  cbn; repeat split; intros; rewrite ?andb_false_r, ?andb_true_r; cbn in *;
  intuition (try discriminate; try congruence).
Qed.

End MoveNewTheorems.

Section MovePagesTheorems.
Import MovePages.

Local Ltac kmp_trace :=
  cbn [snd]; split; [reflexivity|split; [reflexivity|split; [reflexivity|cbv; lia]]].

(** On every path of kernel_move_pages the task reference it takes is
    dropped once, the mm reference is dropped once, the RCU read-side
    section is closed and not nested, and at most one of do_pages_move and
    do_pages_stat runs. *)
Theorem kernel_move_pages_balanced (K : kenv) (pid : Z) (nodes : bool) (flags : Z) :
  let ev := snd (kernel_move_pages K pid nodes flags) in
  occurrences K_get_task ev = occurrences K_put_task ev /\
  occurrences K_get_mm ev = occurrences K_mmput ev /\
  rcu_balanced false ev = true /\
  (occurrences K_do_pages_move ev + occurrences K_do_pages_stat ev <= 1)%nat.
Proof.
  unfold kernel_move_pages.
  destruct (negb (Z.land flags (Z.lnot (k_valid_flags K)) =? 0)); [kmp_trace|].
  destruct (negb (Z.land flags (k_move_all K) =? 0) && negb (k_capable_sys_nice K));
    [kmp_trace|].
  destruct (if pid =? 0 then true else k_find_task K pid); cbn [negb]; [|kmp_trace].
  destruct (k_ptrace_may_access K); cbn [negb]; [|kmp_trace].
  destruct (k_security K =? 0); cbn [negb]; [|kmp_trace].
  destruct (k_has_mm K), nodes; kmp_trace.
Qed.

(** kernel_move_pages moves pages (nodes given) or reports their nodes
    (nodes NULL) exactly when no unknown flag is set, MPOL_MF_MOVE_ALL comes
    with CAP_SYS_NICE, the task exists (pid 0 is the caller), ptrace access
    is allowed, the security hook agrees and the task has an mm; it then
    returns what that call returns: do_pages_move's result when nodes is
    given, do_pages_stat's result when nodes is NULL. *)
Theorem kernel_move_pages_dispatch (K : kenv) (pid : Z) (nodes : bool) (flags : Z) :
  let r := kernel_move_pages K pid nodes flags in
  let ok := Z.land flags (Z.lnot (k_valid_flags K)) = 0 /\
            (Z.land flags (k_move_all K) <> 0 -> k_capable_sys_nice K = true) /\
            (pid = 0 \/ k_find_task K pid = true) /\
            k_ptrace_may_access K = true /\ k_security K = 0 /\
            k_has_mm K = true in
  (In K_do_pages_move (snd r) <-> ok /\ nodes = true) /\
  (In K_do_pages_stat (snd r) <-> ok /\ nodes = false) /\
  (ok -> nodes = true -> fst r = k_pages_move_rc K) /\
  (ok -> nodes = false -> fst r = k_pages_stat_rc K).
Proof.
  cbn zeta. unfold kernel_move_pages.
  destruct (Z.land flags (Z.lnot (k_valid_flags K)) =? 0) eqn:Hv;
    [apply Z.eqb_eq in Hv | apply Z.eqb_neq in Hv]; cbn [negb].
  2: cbn; intuition congruence.
  destruct (Z.land flags (k_move_all K) =? 0) eqn:Hm;
    [apply Z.eqb_eq in Hm | apply Z.eqb_neq in Hm];
  destruct (k_capable_sys_nice K) eqn:Hc; cbn [negb andb];
  try (cbn; intuition congruence);
  (destruct (pid =? 0) eqn:Hp; [apply Z.eqb_eq in Hp | apply Z.eqb_neq in Hp]);
  try destruct (k_find_task K pid) eqn:Hf; cbn [negb];
  try (cbn; intuition congruence);
  destruct (k_ptrace_may_access K) eqn:Ht; cbn [negb];
  try (cbn; intuition congruence);
  (destruct (k_security K =? 0) eqn:Hs; [apply Z.eqb_eq in Hs | apply Z.eqb_neq in Hs]);
  cbn [negb]; try (cbn; intuition congruence);
  destruct (k_has_mm K) eqn:Hmm, nodes; cbn; intuition congruence.
Qed.

End MovePagesTheorems.

Section CollectLoop.
Import VmaSetup VmaCollect.

Lemma aligned_div_exact (x : Z) :
  x mod PAGE_SIZE = 0 -> x = PAGE_SIZE * (x / PAGE_SIZE).
Proof. intros H. apply Z_div_exact_full_2; [unfold PAGE_SIZE; lia | exact H]. Qed.

Lemma aligned_sub (x y : Z) :
  x mod PAGE_SIZE = 0 -> y mod PAGE_SIZE = 0 -> (x - y) mod PAGE_SIZE = 0.
Proof. intros Hx Hy. rewrite Zminus_mod, Hx, Hy. reflexivity. Qed.

Lemma loop_rounds_aligned (s e : Z) :
  s mod PAGE_SIZE = 0 -> e mod PAGE_SIZE = 0 -> s <= e ->
  loop_rounds s e = Z.to_nat ((e - s) / PAGE_SIZE).
Proof.
  intros Hs He Hle. unfold loop_rounds. f_equal.
  pose proof (aligned_div_exact (e - s) (aligned_sub e s He Hs)) as Hk.
  set (k := (e - s) / PAGE_SIZE) in *.
  rewrite Hk. unfold PAGE_SIZE in *.
  replace (4096 * k + 4096 - 1) with (4095 + k * 4096) by lia.
  rewrite Z.div_add by lia. reflexivity.
Qed.

Lemma page_loop_iter (body : cstate -> cstate) (n : nat) (addr : Z) (st : cstate) :
  0 <= addr -> addr + Z.of_nat n * PAGE_SIZE < 2 ^ 64 ->
  page_loop body n addr (addr + Z.of_nat n * PAGE_SIZE) st = Nat.iter n body st.
Proof.
  revert addr st. induction n as [|n IH]; intros addr st H0 H1; [reflexivity|].
  cbn [page_loop]. rewrite Nat2Z.inj_succ in *.
  replace (addr <? addr + Z.succ (Z.of_nat n) * PAGE_SIZE) with true
    by (symmetry; apply Z.ltb_lt; unfold PAGE_SIZE; lia).
  assert (Hu : ulong (addr + PAGE_SIZE) = addr + PAGE_SIZE)
    by (unfold ulong; apply Z.mod_small; unfold PAGE_SIZE in *; lia).
  rewrite Hu.
  replace (addr + Z.succ (Z.of_nat n) * PAGE_SIZE)
    with (addr + PAGE_SIZE + Z.of_nat n * PAGE_SIZE) by lia.
  rewrite IH by (unfold PAGE_SIZE in *; lia).
  symmetry. apply Nat.iter_succ_r.
Qed.

(** Both loop bodies write [a] to src[npages] and 0 to dst[npages], and
    advance npages; [g] is what they do to cpages. *)
Lemma iter_fill (a : Z) (g : Z -> Z) (step : cstate -> cstate)
    (Hstep : forall st, step st =
       mkCState (<[Z.to_nat (c_npages st) := a]> (c_src st))
                (<[Z.to_nat (c_npages st) := 0]> (c_dst st))
                (ulong (c_npages st + 1)) (g (c_cpages st)))
    (n : nat) (st : cstate) :
  0 <= c_npages st -> c_npages st + Z.of_nat n < 2 ^ 64 ->
  let st' := Nat.iter n step st in
  c_npages st' = c_npages st + Z.of_nat n /\
  c_cpages st' = Nat.iter n g (c_cpages st) /\
  length (c_src st') = length (c_src st) /\
  length (c_dst st') = length (c_dst st) /\
  (forall i : nat, (Z.to_nat (c_npages st) + n <= length (c_src st))%nat ->
     c_src st' !! i =
       if decide (c_npages st <= Z.of_nat i < c_npages st + Z.of_nat n)
       then Some a else c_src st !! i) /\
  (forall i : nat, (Z.to_nat (c_npages st) + n <= length (c_dst st))%nat ->
     c_dst st' !! i =
       if decide (c_npages st <= Z.of_nat i < c_npages st + Z.of_nat n)
       then Some 0 else c_dst st !! i).
Proof.
  induction n as [|n IH]; intros H0 H1; cbn zeta.
  - cbn. repeat split; try lia;
      intros i _; (case_decide; [lia|reflexivity]).
  - rewrite Nat.iter_succ. rewrite Nat2Z.inj_succ in *.
    destruct IH as (Hn & Hc & Hls & Hld & Hs & Hd); [lia | lia |].
    set (st1 := Nat.iter n step st) in *.
    rewrite Hstep; cbn [c_npages c_cpages c_src c_dst].
    assert (Hu : ulong (c_npages st1 + 1) = c_npages st1 + 1)
      by (unfold ulong; apply Z.mod_small; lia).
    rewrite Hu, Hn, length_insert, length_insert.
    repeat split; [lia | rewrite Hc; reflexivity | exact Hls | exact Hld | |].
    + intros i Hlen. rewrite list_lookup_insert, Hls.
      case_decide as Hi.
      * destruct Hi as [Hi _]. rewrite decide_True by lia. reflexivity.
      * rewrite Hs by lia. repeat case_decide; try reflexivity; lia.
    + intros i Hlen. rewrite list_lookup_insert, Hld.
      case_decide as Hi.
      * destruct Hi as [Hi _]. rewrite decide_True by lia. reflexivity.
      * rewrite Hd by lia. repeat case_decide; try reflexivity; lia.
Qed.

Lemma page_loop_rounds (body : cstate -> cstate) (s e : Z) (st : cstate) :
  s mod PAGE_SIZE = 0 -> e mod PAGE_SIZE = 0 -> 0 <= s <= e -> e < 2 ^ 64 ->
  page_loop body (loop_rounds s e) s e st =
    Nat.iter (Z.to_nat ((e - s) / PAGE_SIZE)) body st.
Proof.
  intros Hs He Hr Hend. rewrite loop_rounds_aligned by (auto; lia).
  pose proof (aligned_div_exact (e - s) (aligned_sub e s He Hs)) as Hk.
  assert (H0 : 0 <= (e - s) / PAGE_SIZE)
    by (apply Z.div_pos; unfold PAGE_SIZE; lia).
  set (m := Z.to_nat ((e - s) / PAGE_SIZE)).
  assert (He' : e = s + Z.of_nat m * PAGE_SIZE)
    by (unfold m; rewrite Z2Nat.id by lia; unfold PAGE_SIZE in *; lia).
  rewrite He'. apply page_loop_iter; [lia | rewrite <- He'; exact Hend].
Qed.

Lemma iter_ulong_succ (n : nat) (c : Z) :
  0 <= c -> c + Z.of_nat n < 2 ^ 64 ->
  Nat.iter n (fun c => ulong (c + 1)) c = c + Z.of_nat n.
Proof.
  induction n as [|n IH]; intros H0 H1; [cbn; lia|].
  rewrite Nat.iter_succ, IH by lia. unfold ulong.
  rewrite Z.mod_small by lia. lia.
Qed.

Lemma iter_id (n : nat) (c : Z) : Nat.iter n (fun c : Z => c) c = c.
Proof. induction n as [|n IH]; [reflexivity|]. rewrite Nat.iter_succ. exact IH. Qed.

Lemma aligned_div_add (s e f : Z) :
  s mod PAGE_SIZE = 0 -> e mod PAGE_SIZE = 0 -> f mod PAGE_SIZE = 0 ->
  (f - s) / PAGE_SIZE = (e - s) / PAGE_SIZE + (f - e) / PAGE_SIZE.
Proof.
  intros Hs He Hf.
  pose proof (aligned_div_exact (e - s) (aligned_sub e s He Hs)) as H1.
  pose proof (aligned_div_exact (f - e) (aligned_sub f e Hf He)) as H2.
  replace (f - s) with (PAGE_SIZE * ((e - s) / PAGE_SIZE + (f - e) / PAGE_SIZE)) by lia.
  rewrite Z.mul_comm, Z.div_mul by (unfold PAGE_SIZE; lia). reflexivity.
Qed.

Lemma covers_facts (s end_ : Z) (cs : list wcall) :
  s mod PAGE_SIZE = 0 -> covers s end_ cs -> s <= end_ /\ end_ mod PAGE_SIZE = 0.
Proof.
  revert s. induction cs as [|c cs IH]; intros s Hs Hc.
  - cbn in Hc. subst. lia.
  - destruct c as [a b|a b]; cbn in Hc; destruct Hc as (-> & Hab & Hb & Hc);
      destruct (IH b Hb Hc); split; lia.
Qed.

(** What one call of either callback does on a page-aligned range. *)
Lemma collect_piece (s e : Z) (st : cstate) :
  s mod PAGE_SIZE = 0 -> e mod PAGE_SIZE = 0 -> 0 <= s <= e -> e < 2 ^ 64 ->
  0 <= c_npages st -> 0 <= c_cpages st ->
  c_npages st + (e - s) / PAGE_SIZE < 2 ^ 64 ->
  c_cpages st + (e - s) / PAGE_SIZE < 2 ^ 64 ->
  let n := (e - s) / PAGE_SIZE in
  let h := snd (migrate_vma_collect_hole s e st) in
  let k := snd (migrate_vma_collect_skip s e st) in
  fst (migrate_vma_collect_hole s e st) = 0 /\
  fst (migrate_vma_collect_skip s e st) = 0 /\
  c_npages h = c_npages st + n /\ c_cpages h = c_cpages st + n /\
  c_npages k = c_npages st + n /\ c_cpages k = c_cpages st /\
  length (c_src h) = length (c_src st) /\ length (c_dst h) = length (c_dst st) /\
  length (c_src k) = length (c_src st) /\ length (c_dst k) = length (c_dst st) /\
  (c_npages st + n <= Z.of_nat (length (c_src st)) ->
   forall i : nat,
     c_src h !! i = (if decide (c_npages st <= Z.of_nat i < c_npages st + n)
                     then Some MIGRATE_PFN_MIGRATE else c_src st !! i) /\
     c_src k !! i = (if decide (c_npages st <= Z.of_nat i < c_npages st + n)
                     then Some 0 else c_src st !! i)) /\
  (c_npages st + n <= Z.of_nat (length (c_dst st)) ->
   forall i : nat,
     c_dst h !! i = (if decide (c_npages st <= Z.of_nat i < c_npages st + n)
                     then Some 0 else c_dst st !! i) /\
     c_dst k !! i = (if decide (c_npages st <= Z.of_nat i < c_npages st + n)
                     then Some 0 else c_dst st !! i)).
Proof.
  intros Hs He Hr Hend Hn0 Hc0 Hnb Hcb. cbn zeta.
  unfold migrate_vma_collect_hole, migrate_vma_collect_skip; cbn [fst snd].
  rewrite !page_loop_rounds by assumption.
  assert (H0 : 0 <= (e - s) / PAGE_SIZE)
    by (apply Z.div_pos; unfold PAGE_SIZE; lia).
  set (m := Z.to_nat ((e - s) / PAGE_SIZE)).
  assert (Hm : Z.of_nat m = (e - s) / PAGE_SIZE) by (unfold m; lia).
  destruct (iter_fill MIGRATE_PFN_MIGRATE (fun c => ulong (c + 1)) hole_step
              (fun _ => eq_refl) m st) as (Hn & Hc & Hls & Hld & Hsrc & Hdst); [lia|lia|].
  destruct (iter_fill 0 (fun c => c) skip_step
              (fun _ => eq_refl) m st) as (Kn & Kc & Kls & Kld & Ksrc & Kdst); [lia|lia|].
  rewrite iter_ulong_succ in Hc by lia. rewrite iter_id in Kc.
  rewrite Hm in *.
  repeat split; try assumption; try reflexivity.
  all: first [apply Hsrc | apply Ksrc | apply Hdst | apply Kdst]; lia.
Qed.

Lemma run_calls_counts (end_ : Z) (cs : list wcall) :
  forall (s : Z) (st : cstate),
  s mod PAGE_SIZE = 0 -> 0 <= s -> covers s end_ cs -> end_ < 2 ^ 64 ->
  0 <= c_npages st -> 0 <= c_cpages st ->
  c_npages st + (end_ - s) / PAGE_SIZE < 2 ^ 64 ->
  c_cpages st + (end_ - s) / PAGE_SIZE < 2 ^ 64 ->
  c_npages (run_calls cs st) = c_npages st + (end_ - s) / PAGE_SIZE /\
  c_cpages (run_calls cs st) = c_cpages st + hole_pages cs.
Proof.
  induction cs as [|c cs IH]; intros s st Hs H0 Hcov Hend Hn0 Hc0 Hnb Hcb.
  - cbn in Hcov |- *. subst. rewrite Z.sub_diag, Z.div_0_l by (unfold PAGE_SIZE; lia).
    split; lia.
  - assert (Hcs := covers_facts s end_ (c :: cs) Hs Hcov).
    destruct c as [a b|a b]; cbn in Hcov; destruct Hcov as (<- & Hab & Hb & Hcov');
    destruct (covers_facts b end_ cs Hb Hcov') as [Hbe Hend_al];
    rewrite (aligned_div_add a b end_ Hs Hb Hend_al) in Hnb, Hcb |- *;
    assert (Hd1 : 0 <= (b - a) / PAGE_SIZE) by (apply Z.div_pos; unfold PAGE_SIZE; lia);
    assert (Hd2 : 0 <= (end_ - b) / PAGE_SIZE) by (apply Z.div_pos; unfold PAGE_SIZE; lia);
    destruct (collect_piece a b st) as (_ & _ & Hn & Hc & Kn & Kc & _);
      try assumption; try lia;
    unfold run_calls, hole_pages; cbn [fold_left fold_right run_call].
    + destruct (IH b (snd (migrate_vma_collect_hole a b st))) as [IHn IHc];
        try assumption; try lia.
      unfold run_calls, hole_pages in IHn, IHc.
      rewrite IHn, IHc, Hn, Hc. split; lia.
    + destruct (IH b (snd (migrate_vma_collect_skip a b st))) as [IHn IHc];
        try assumption; try lia.
      unfold run_calls, hole_pages in IHn, IHc.
      rewrite IHn, IHc, Kn, Kc. split; lia.
Qed.

End CollectLoop.

Section CollectTheorems.
Import VmaSetup VmaCollect.

(** On a page-aligned range [s, e), migrate_vma_collect_hole and
    migrate_vma_collect_skip return 0 and add one entry per page at
    src[npages], dst[npages] onwards: a hole entry is MIGRATE_PFN_MIGRATE
    and counts in cpages, a skipped entry is 0 and does not; dst gets 0 in
    both, and the other entries are left alone. *)
Theorem migrate_vma_collect_hole_skip (s e : Z) (st : cstate)
    (Hs : s mod PAGE_SIZE = 0) (He : e mod PAGE_SIZE = 0)
    (Hr : 0 <= s <= e) (Hend : e < 2 ^ 64)
    (Hn0 : 0 <= c_npages st) (Hc0 : 0 <= c_cpages st)
    (Hnb : c_npages st + (e - s) / PAGE_SIZE < 2 ^ 64)
    (Hcb : c_cpages st + (e - s) / PAGE_SIZE < 2 ^ 64)
    (Hls : c_npages st + (e - s) / PAGE_SIZE <= Z.of_nat (length (c_src st)))
    (Hld : c_npages st + (e - s) / PAGE_SIZE <= Z.of_nat (length (c_dst st))) :
  let n := (e - s) / PAGE_SIZE in
  let h := migrate_vma_collect_hole s e st in
  let k := migrate_vma_collect_skip s e st in
  fst h = 0 /\ fst k = 0 /\
  c_npages (snd h) = c_npages st + n /\ c_cpages (snd h) = c_cpages st + n /\
  c_npages (snd k) = c_npages st + n /\ c_cpages (snd k) = c_cpages st /\
  forall i : nat,
    c_src (snd h) !! i = (if decide (c_npages st <= Z.of_nat i < c_npages st + n)
                          then Some MIGRATE_PFN_MIGRATE else c_src st !! i) /\
    c_dst (snd h) !! i = (if decide (c_npages st <= Z.of_nat i < c_npages st + n)
                          then Some 0 else c_dst st !! i) /\
    c_src (snd k) !! i = (if decide (c_npages st <= Z.of_nat i < c_npages st + n)
                          then Some 0 else c_src st !! i) /\
    c_dst (snd k) !! i = (if decide (c_npages st <= Z.of_nat i < c_npages st + n)
                          then Some 0 else c_dst st !! i).
Proof.
  destruct (collect_piece s e st Hs He Hr Hend Hn0 Hc0 Hnb Hcb)
    as (H1 & H2 & H3 & H4 & H5 & H6 & _ & _ & _ & _ & Hsrc & Hdst).
  cbn zeta. do 6 (split; [assumption|]). intros i.
  destruct (Hsrc Hls i), (Hdst Hld i). repeat split; assumption.
Qed.

(** When the page walk of migrate_vma_collect, started with npages and
    cpages at 0, covers [start, end) with holes and skipped ranges, the end
    migrate_vma_collect recomputes from npages is the end it was given, and
    cpages is the number of pages in the holes. *)
Theorem migrate_vma_collect_end (start end_ : Z) (cs : list wcall) (st : cstate)
    (Hs : start mod PAGE_SIZE = 0) (H0 : 0 <= start) (Hend : end_ < 2 ^ 64)
    (Hcov : covers start end_ cs)
    (Hn : c_npages st = 0) (Hc : c_cpages st = 0) :
  collect_end start (c_npages (run_calls cs st)) = end_ /\
  c_cpages (run_calls cs st) = hole_pages cs.
Proof.
  destruct (covers_facts start end_ cs Hs Hcov) as [Hle He].
  pose proof (aligned_div_exact (end_ - start) (aligned_sub end_ start He Hs)) as Hk.
  assert (Hd : 0 <= (end_ - start) / PAGE_SIZE)
    by (apply Z.div_pos; unfold PAGE_SIZE; lia).
  assert (Hd' : (end_ - start) / PAGE_SIZE < 2 ^ 64).
  { apply Z.div_lt_upper_bound; unfold PAGE_SIZE; lia. }
  destruct (run_calls_counts end_ cs start st) as [Hn' Hc'];
    try assumption; try lia.
  rewrite Hn', Hc', Hn, Hc. split; [|lia].
  unfold collect_end, ulong, PAGE_SHIFT.
  rewrite Z.shiftl_mul_pow2 by lia.
  replace ((0 + (end_ - start) / PAGE_SIZE) * 2 ^ 12) with (end_ - start)
    by (change (2 ^ 12) with 4096; unfold PAGE_SIZE in *; lia).
  rewrite (Z.mod_small (end_ - start)) by lia.
  rewrite Z.mod_small by lia. lia.
Qed.

End CollectTheorems.

Section CollectInstances.
Import VmaSetup VmaCollect VmaCollectSamples.

Local Ltac concrete :=
  first [ reflexivity
        | apply Z.leb_le; reflexivity
        | apply Z.ltb_lt; reflexivity
        | split; apply Z.leb_le; reflexivity ].

(** A hole of two pages after the first collected entry. *)
Lemma migrate_vma_collect_hole_skip_witness :
  c_npages (snd (migrate_vma_collect_hole 4096 12288 collect_sample)) = 3 /\
  c_cpages (snd (migrate_vma_collect_hole 4096 12288 collect_sample)) = 2 /\
  c_src (snd (migrate_vma_collect_hole 4096 12288 collect_sample)) !! 2%nat =
    Some MIGRATE_PFN_MIGRATE.
Proof.
  pose proof (migrate_vma_collect_hole_skip 4096 12288 collect_sample
                ltac:(concrete) ltac:(concrete) ltac:(concrete) ltac:(concrete)
                ltac:(concrete) ltac:(concrete) ltac:(concrete) ltac:(concrete)
                ltac:(concrete) ltac:(concrete)) as W.
  cbn zeta in W. destruct W as (_ & _ & Hn & Hc & _ & _ & Hi).
  destruct (Hi 2%nat) as [Hs _].
  split; [rewrite Hn; reflexivity|split; [rewrite Hc; reflexivity|]].
  rewrite Hs. reflexivity.
Defined.

(** The walk of sample_walk gives back the end 16384 and two hole pages. *)
Lemma migrate_vma_collect_end_witness :
  collect_end 4096 (c_npages (run_calls sample_walk empty_collect)) = 16384 /\
  c_cpages (run_calls sample_walk empty_collect) = 2.
Proof.
  destruct (migrate_vma_collect_end 4096 16384 sample_walk empty_collect
              ltac:(concrete) ltac:(concrete) ltac:(concrete)
              ltac:(cbn; repeat split; concrete)
              ltac:(concrete) ltac:(concrete)) as [He Hc].
  split; [exact He | rewrite Hc; reflexivity].
Defined.

End CollectInstances.
